(** * Mobile-Utility-Tool: the sensor and signal core

    A shallow embedding of the three pieces of logic of the application:
    the magnetometer listener of [CompassScreen.tsx] (heading and
    cumulative rotation), the accelerometer listener of [LevelScreen.tsx]
    (tilt angles and the level flag) and the SOS / Morse transmitter of
    [FlashlightScreen.tsx].

    Numbers.  A JavaScript number that holds a finite value is a rational;
    degrees are modelled in [Q] with exact [+], [-] and [*].  Where the
    rounding of the doubles decides a statement - the running sum of
    cumulativeRotation - the tracker is given a second time on binary64
    numbers ([Compass64]).  Durations are integer milliseconds in [Z].

    State.  The React states and refs of a component are the fields of one
    record; a setter takes effect at once, so that every handler reads
    what was last set (the component re-renders between two user events
    and between two timers).  An async function is cut at its awaits: it
    runs to its next [await sleep(ms)] and is resumed from there when the
    timer expires. *)

From Stdlib Require Import List Bool ZArith QArith Qabs Qround Lia Lqa.
From Stdlib Require Import Ascii String.
Import ListNotations.

Local Open Scope Q_scope.

(** ** Number helpers *)

(** [a < b] on JavaScript numbers, as a boolean. *)
Definition Qlt_bool (a b : Q) : bool :=
  match a ?= b with Lt => true | _ => false end.

(** [a <= b] / [a >= b] are [Qle_bool a b] / [Qle_bool b a]. *)

(** [Math.trunc]: rounding toward zero. *)
Definition Qtrunc (a : Q) : Z :=
  if Qlt_bool a 0 then Qceiling a else Qfloor a.

(** The JavaScript remainder [a % m]: the result has the sign of [a]. *)
Definition jsRem (a m : Q) : Q := a - m * inject_Z (Qtrunc (a / m)).

(** The mathematical residue of [a] modulo 360, in [0, 360). *)
Definition mod360 (a : Q) : Q := a - 360 * inject_Z (Qfloor (a / 360)).

(** ** CompassScreen.tsx: the magnetometer listener *)

Module Compass.

(** The mutable cells the listener closes over: the local [isFirstUpdate],
    the two refs and the [heading] state. *)
Record Tracker := mkTracker {
  isFirstUpdate : bool;
  previousAngle : Q;
  cumulativeRotation : Q;
  heading : Q
}.

(** [subscribe] starts with [isFirstUpdate = true]; the refs and the state
    are created with 0. *)
Definition initial : Tracker := mkTracker true 0 0 0.

(** Line 99: [angle = (angle + 360) % 360]. *)
Definition normalize (angle : Q) : Q := jsRem (angle + 360) 360.

(** Lines 141-149: the delta between two headings, by the shortest path. *)
Definition shortestDelta (previousAngle angle : Q) : Q :=
  let delta := angle - previousAngle in
  if Qlt_bool 180 delta then delta - 360
  else if Qlt_bool delta (-180) then delta + 360
  else delta.

(** Lines 102-153, for a heading [angle] already normalised (the text
    throttle, the haptics and the animation do not touch these cells). *)
Definition track (t : Tracker) (angle : Q) : Tracker :=
  if isFirstUpdate t then
    mkTracker false angle angle angle
  else
    let delta := shortestDelta (previousAngle t) angle in
    mkTracker false angle (cumulativeRotation t + delta) angle.

(** Line 112: [isNearNorth]. *)
Definition isNearNorth (angle : Q) : bool :=
  Qle_bool angle 5 || Qle_bool (360 - 5) angle.

Section Magnetometer.
(** [Math.atan2] and [Math.PI] belong to the platform, not to the
    repository. *)
Variable Math_atan2 : Q -> Q -> Q.
Variable Math_PI : Q.

(** Lines 96-99: the heading of a magnetometer sample. *)
Definition headingOf (x y : Q) : Q :=
  let angle := Math_atan2 (- y) x * (180 / Math_PI) in
  normalize angle.

(** The listener of lines 90-161 on the tracker cells. *)
Definition listener (t : Tracker) (data : Q * Q) : Tracker :=
  let '(x, y) := data in track t (headingOf x y).
End Magnetometer.

(** The tracker after a run of headings. *)
Definition trackAll (t : Tracker) (angles : list Q) : Tracker :=
  fold_left track angles t.

End Compass.

(** ** LevelScreen.tsx: the accelerometer listener *)

Module Level.

Record Angles := mkAngles { xAngle : Q; yAngle : Q }.

(** [useState(0)] for both angles. *)
Definition initial : Angles := mkAngles 0 0.

Section Accelerometer.
Variable Math_atan2 : Q -> Q -> Q.
Variable Math_sqrt : Q -> Q.
Variable Math_PI : Q.

(** Lines 76-77. *)
Definition xAngleDeg (accelX accelY : Q) : Q :=
  Math_atan2 accelX (Math_sqrt (accelY * accelY + 1)) * (180 / Math_PI).
Definition yAngleDeg (accelX accelY : Q) : Q :=
  Math_atan2 accelY (Math_sqrt (accelX * accelX + 1)) * (180 / Math_PI).

(** Lines 71-81: the listener stores both angles. *)
Definition listener (_ : Angles) (data : Q * Q) : Angles :=
  let '(accelX, accelY) := data in
  mkAngles (xAngleDeg accelX accelY) (yAngleDeg accelX accelY).
End Accelerometer.

(** Line 134: [Math.abs(xAngle) < 2 && Math.abs(yAngle) < 2]. *)
Definition isLevel (a : Angles) : bool :=
  Qlt_bool (Qabs (xAngle a)) 2 && Qlt_bool (Qabs (yAngle a)) 2.

End Level.

(** ** FlashlightScreen.tsx: the SOS and Morse transmitter

    The flashlight screen follows the compass screen in the file
    [src/screens/CompassScreen.tsx], from line 475; the line numbers below
    are those of that file. *)

Module Flashlight.

Local Open Scope Z_scope.

(** *** Text

    A text is a [string] of 7-bit ASCII characters.  On these,
    [toUpperCase] maps a-z to A-Z and fixes the rest, and the white space
    of [trim] and of the pattern [\s] is TAB, LF, VT, FF, CR and the
    space. *)

Definition toUpperChar (c : ascii) : ascii :=
  let n := nat_of_ascii c in
  if ((97 <=? n) && (n <=? 122))%nat then ascii_of_nat (n - 32) else c.

Definition isSpace (c : ascii) : bool :=
  let n := nat_of_ascii c in
  (((9 <=? n) && (n <=? 13)) || (n =? 32))%nat.

Fixpoint trimStart (l : list ascii) : list ascii :=
  match l with
  | c :: l' => if isSpace c then trimStart l' else l
  | [] => []
  end.

(** [s.trim()] *)
Definition trim (l : list ascii) : list ascii :=
  rev (trimStart (rev (trimStart l))).

(** [s.split(/\s+/)]: [cur] is the piece being read, newest character
    first; [inRun] tells that the previous character was white space, whose
    run has already closed a piece. *)
Fixpoint splitWs (inRun : bool) (cur : list ascii) (l : list ascii)
  : list (list ascii) :=
  match l with
  | [] => [rev cur]
  | c :: l' =>
      if isSpace c then
        if inRun then splitWs true cur l'
        else rev cur :: splitWs true [] l'
      else splitWs false (c :: cur) l'
  end.

(** [!text.trim()]: the empty string is falsy. *)
Definition isBlank (text : string) : bool :=
  match trim (list_ascii_of_string text) with [] => true | _ => false end.

(** Lines 796-797 and 804: [text.toUpperCase().trim().split(/\s+/)], every
    word already split into its characters. *)
Definition wordsOf (text : string) : list (list ascii) :=
  splitWs false [] (trim (map toUpperChar (list_ascii_of_string text))).

(** Lines 487-496. *)
Definition MORSE_CODE (c : ascii) : option string :=
  match c with
  | "A"%char => Some ".-"%string    | "B"%char => Some "-..."%string  | "C"%char => Some "-.-."%string
  | "D"%char => Some "-.."%string   | "E"%char => Some "."%string     | "F"%char => Some "..-."%string
  | "G"%char => Some "--."%string   | "H"%char => Some "...."%string  | "I"%char => Some ".."%string
  | "J"%char => Some ".---"%string  | "K"%char => Some "-.-"%string   | "L"%char => Some ".-.."%string
  | "M"%char => Some "--"%string    | "N"%char => Some "-."%string    | "O"%char => Some "---"%string
  | "P"%char => Some ".--."%string  | "Q"%char => Some "--.-"%string  | "R"%char => Some ".-."%string
  | "S"%char => Some "..."%string   | "T"%char => Some "-"%string     | "U"%char => Some "..-"%string
  | "V"%char => Some "...-"%string  | "W"%char => Some ".--"%string   | "X"%char => Some "-..-"%string
  | "Y"%char => Some "-.--"%string  | "Z"%char => Some "--.."%string
  | "0"%char => Some "-----"%string | "1"%char => Some ".----"%string | "2"%char => Some "..---"%string
  | "3"%char => Some "...--"%string | "4"%char => Some "....-"%string | "5"%char => Some "....."%string
  | "6"%char => Some "-...."%string | "7"%char => Some "--..."%string | "8"%char => Some "---.."%string
  | "9"%char => Some "----."%string
  | _ => None
  end.

(** *** The component's cells *)

(** What the outside sees happen, oldest first: every call of
    [setIsFlashlightOn] (the torch follows that state), every
    [await sleep(ms)] and every [Alert.alert]. *)
Inductive Event :=
| Torch (on : bool)
| Sleep (ms : Z)
| Alert (title : string).

Record World := mkWorld {
  granted : bool;                (* permission?.granted *)
  isFlashlightOn : bool;
  sosMode : bool;
  morseText : string;
  isTransmitting : bool;
  currentChar : option string;
  sosActiveRef : bool;
  morseActiveRef : bool;
  trace : list Event
}.

Definition log (e : Event) (w : World) : World :=
  mkWorld (granted w) (isFlashlightOn w) (sosMode w) (morseText w)
    (isTransmitting w) (currentChar w) (sosActiveRef w) (morseActiveRef w)
    (trace w ++ [e]).

Definition setIsFlashlightOn (b : bool) (w : World) : World :=
  mkWorld (granted w) b (sosMode w) (morseText w)
    (isTransmitting w) (currentChar w) (sosActiveRef w) (morseActiveRef w)
    (trace w ++ [Torch b]).

Definition setSosMode (b : bool) (w : World) : World :=
  mkWorld (granted w) (isFlashlightOn w) b (morseText w)
    (isTransmitting w) (currentChar w) (sosActiveRef w) (morseActiveRef w)
    (trace w).

Definition setMorseText (s : string) (w : World) : World :=
  mkWorld (granted w) (isFlashlightOn w) (sosMode w) s
    (isTransmitting w) (currentChar w) (sosActiveRef w) (morseActiveRef w)
    (trace w).

Definition setIsTransmitting (b : bool) (w : World) : World :=
  mkWorld (granted w) (isFlashlightOn w) (sosMode w) (morseText w)
    b (currentChar w) (sosActiveRef w) (morseActiveRef w)
    (trace w).

Definition setCurrentChar (c : option string) (w : World) : World :=
  mkWorld (granted w) (isFlashlightOn w) (sosMode w) (morseText w)
    (isTransmitting w) c (sosActiveRef w) (morseActiveRef w)
    (trace w).

Definition setSosActiveRef (b : bool) (w : World) : World :=
  mkWorld (granted w) (isFlashlightOn w) (sosMode w) (morseText w)
    (isTransmitting w) (currentChar w) b (morseActiveRef w)
    (trace w).

Definition setMorseActiveRef (b : bool) (w : World) : World :=
  mkWorld (granted w) (isFlashlightOn w) (sosMode w) (morseText w)
    (isTransmitting w) (currentChar w) (sosActiveRef w) b
    (trace w).

(** The component as mounted: every state and ref at its initial value. *)
Definition mount (granted : bool) : World :=
  mkWorld granted false false ""%string false None false false [].

(** *** Async functions

    An async function runs until its next [await sleep(ms)], where it
    hands back the delay and the point to resume from, or until it
    returns. *)
Inductive Outcome (PC : Type) :=
| Await (ms : Z) (pc : PC)
| Return.
Arguments Await {PC} ms pc.
Arguments Return {PC}.

Definition sleep {PC} (ms : Z) (pc : PC) (w : World) : World * Outcome PC :=
  (log (Sleep ms) w, Await ms pc).

(** Lines 714-718. *)
Definition stopSOS (w : World) : World :=
  setIsFlashlightOn false (setSosMode false (setSosActiveRef false w)).

(** Lines 870-875. *)
Definition stopMorse (w : World) : World :=
  setCurrentChar None
    (setIsFlashlightOn false
       (setIsTransmitting false (setMorseActiveRef false w))).

(** Lines 600-612. *)
Definition toggleFlashlight (w : World) : World :=
  if negb (granted w) then log (Alert "Permission Required"%string) w
  else if sosMode w || isTransmitting w then w
  else setIsFlashlightOn (negb (isFlashlightOn w)) w.

(** **** startSOS, lines 645-705 *)

Definition SHORT_FLASH : Z := 200.
Definition LONG_FLASH : Z := 600.
Definition PAUSE : Z := 200.
Definition PATTERN_PAUSE : Z := 800.

(** The three [for] loops of the [while] body. *)
Inductive Group := Dots1 | Dashes | Dots2.

(** The awaits of [startSOS]: the flash of iteration [i] of a group, the
    pause after that flash, and the pause after a group. *)
Inductive SosPC :=
| SosFlash (g : Group) (i : nat)
| SosPause (g : Group) (i : nat)
| SosGroupPause (g : Group).

Definition flashDuration (g : Group) : Z :=
  match g with Dashes => LONG_FLASH | _ => SHORT_FLASH end.

(** Lines 702-704, after the [while]. *)
Definition sosExit (w : World) : World * Outcome SosPC :=
  (setSosMode false (setIsFlashlightOn false w), Return).

(** Lines 674-675, 686-687 and 698-699, after the [for] of group [g]. *)
Definition sosAfterGroup (g : Group) (w : World) : World * Outcome SosPC :=
  if negb (sosActiveRef w) then sosExit w
  else sleep (match g with Dots2 => PATTERN_PAUSE | _ => PAUSE * 2 end)
             (SosGroupPause g) w.

(** The [for] of group [g] at its test, with counter [i]. *)
Definition sosFor (g : Group) (i : nat) (w : World) : World * Outcome SosPC :=
  if (i <? 3)%nat then
    if negb (sosActiveRef w) then sosAfterGroup g w
    else sleep (flashDuration g) (SosFlash g i) (setIsFlashlightOn true w)
  else sosAfterGroup g w.

(** Line 664, the [while] at its test. *)
Definition sosWhile (w : World) : World * Outcome SosPC :=
  if sosActiveRef w then sosFor Dots1 0 w else sosExit w.

Definition sosResume (pc : SosPC) (w : World) : World * Outcome SosPC :=
  match pc with
  | SosFlash g i =>
      let w := setIsFlashlightOn false w in
      if (i <? 2)%nat then sleep PAUSE (SosPause g i) w
      else sosFor g (i + 1) w
  | SosPause g i => sosFor g (i + 1) w
  | SosGroupPause Dots1 => sosFor Dashes 0 w
  | SosGroupPause Dashes => sosFor Dots2 0 w
  | SosGroupPause Dots2 => sosWhile w
  end.

Definition startSOS (w : World) : World * Outcome SosPC :=
  if negb (granted w) then (log (Alert "Permission Required"%string) w, Return)
  else
    let w := if isTransmitting w then stopMorse w else w in
    let w := setSosActiveRef true (setSosMode true w) in
    sosWhile w.

(** **** transmitMorseWithText, lines 769-861 *)

Definition T : Z := 200.
Definition DOT_DURATION : Z := T.
Definition DASH_DURATION : Z := 3 * T.
Definition PAUSE_PARTS : Z := T.
Definition PAUSE_LETTERS : Z := 3 * T.
Definition PAUSE_WORDS : Z := 7 * T.

(** The awaits of [transmitMorseWithText].  The three loop counters are
    kept as what is left to iterate over: [i < pattern.length - 1] is
    "symbols are left after this one", and so on for characters and
    words.  [MorseLetterPause] is the await of line 837 and of line 842. *)
Inductive MorsePC :=
| MorseFlash (symbols chars : list ascii) (words : list (list ascii))
| MorsePartPause (symbols chars : list ascii) (words : list (list ascii))
| MorseLetterPause (chars : list ascii) (words : list (list ascii))
| MorseWordPause (words : list (list ascii)).

(** Lines 854-860, the [finally]. *)
Definition morseFinally (w : World) : World * Outcome MorsePC :=
  (setMorseActiveRef false
     (setCurrentChar None
        (setIsTransmitting false (setIsFlashlightOn false w))), Return).

(** Lines 846-850, after the loop over the characters of a word; [words]
    are the words after this one.  After the last word the outer loop's
    test fails and the [finally] runs. *)
Definition morseAfterChars (words : list (list ascii)) (w : World)
  : World * Outcome MorsePC :=
  match words with
  | [] => morseFinally w
  | _ :: _ => sleep PAUSE_WORDS (MorseWordPause words)
                (setCurrentChar (Some "(space)"%string) w)
  end.

(** Lines 835-838, after the loop over the symbols of a letter; [chars]
    are the characters after this one. *)
Definition morseAfterSymbols (chars : list ascii) (words : list (list ascii))
  (w : World) : World * Outcome MorsePC :=
  match chars with
  | [] => morseAfterChars words w
  | _ :: _ => sleep PAUSE_LETTERS (MorseLetterPause chars words) w
  end.

(** Lines 816-824, the loop over the symbols at its test. *)
Definition morseSymbols (symbols chars : list ascii)
  (words : list (list ascii)) (w : World) : World * Outcome MorsePC :=
  match symbols with
  | [] => morseAfterSymbols chars words w
  | symbol :: symbols' =>
      if negb (morseActiveRef w) then morseAfterSymbols chars words w
      else
        let duration :=
          if Ascii.eqb symbol "."%char then DOT_DURATION else DASH_DURATION in
        sleep duration (MorseFlash symbols' chars words)
              (setIsFlashlightOn true w)
  end.

(** Lines 806-843, the loop over the characters at its test. *)
Definition morseChars (chars : list ascii) (words : list (list ascii))
  (w : World) : World * Outcome MorsePC :=
  match chars with
  | [] => morseAfterChars words w
  | char :: chars' =>
      if negb (morseActiveRef w) then morseAfterChars words w
      else
        match MORSE_CODE char with
        | Some pattern =>
            morseSymbols (list_ascii_of_string pattern) chars' words
              (setCurrentChar
                 (Some (String char (" (" ++ pattern ++ ")")%string)) w)
        | None =>
            sleep PAUSE_LETTERS (MorseLetterPause chars' words)
              (setCurrentChar (Some (String char " (ignored)"%string)) w)
        end
  end.

(** Lines 800-804, the loop over the words at its test. *)
Definition morseWords (words : list (list ascii)) (w : World)
  : World * Outcome MorsePC :=
  match words with
  | [] => morseFinally w
  | word :: words' =>
      if negb (morseActiveRef w) then morseFinally w
      else morseChars word words' w
  end.

Definition morseResume (pc : MorsePC) (w : World) : World * Outcome MorsePC :=
  match pc with
  | MorseFlash symbols chars words =>
      let w := setIsFlashlightOn false w in
      match symbols with
      | _ :: _ => sleep PAUSE_PARTS (MorsePartPause symbols chars words) w
      | [] => morseAfterSymbols chars words w
      end
  | MorsePartPause symbols chars words => morseSymbols symbols chars words w
  | MorseLetterPause chars words => morseChars chars words w
  | MorseWordPause words => morseWords words w
  end.

Definition transmitMorseWithText (textToTransmit : string) (w : World)
  : World * Outcome MorsePC :=
  if negb (granted w) then (log (Alert "Permission Required"%string) w, Return)
  else if isBlank textToTransmit then (log (Alert "Empty Text"%string) w, Return)
  else
    let w := if sosMode w then stopSOS w else w in
    let w :=
      setCurrentChar None (setMorseActiveRef true (setIsTransmitting true w)) in
    morseWords (wordsOf textToTransmit) w.

(** Lines 736-742. *)
Definition transmitMorse (w : World) : World * Outcome MorsePC :=
  if isBlank (morseText w) then (log (Alert "Empty Text"%string) w, Return)
  else transmitMorseWithText (morseText w) w.

(** *** The component in time

    The pending timers of [sleep] with the milliseconds they still have to
    run, in the order they were set, next to the cells. *)
Inductive Task :=
| SosTask (pc : SosPC)
| MorseTask (pc : MorsePC).

Record Sys := mkSys {
  world : World;
  timers : list (Z * Task)
}.

Definition pendingSos (o : Outcome SosPC) : list (Z * Task) :=
  match o with Await ms pc => [(ms, SosTask pc)] | Return => [] end.

Definition pendingMorse (o : Outcome MorsePC) : list (Z * Task) :=
  match o with Await ms pc => [(ms, MorseTask pc)] | Return => [] end.

Definition resume (t : Task) (w : World) : World * list (Z * Task) :=
  match t with
  | SosTask pc => let (w', o) := sosResume pc w in (w', pendingSos o)
  | MorseTask pc => let (w', o) := morseResume pc w in (w', pendingMorse o)
  end.

(** One millisecond passes: the timers that expire resume their function,
    in the order they were set; the others have one millisecond less to
    run.  [fire] gives the timers still running and, after them, the
    timers set by the resumed functions. *)
Fixpoint fire (ts : list (Z * Task)) (w : World)
  : World * (list (Z * Task) * list (Z * Task)) :=
  match ts with
  | [] => (w, ([], []))
  | (r, t) :: ts' =>
      if r <=? 1 then
        let (w1, again) := resume t w in
        let '(w2, (running, set)) := fire ts' w1 in
        (w2, (running, again ++ set))
      else
        let '(w2, (running, set)) := fire ts' w in
        (w2, ((r - 1, t) :: running, set))
  end.

Definition tick (s : Sys) : Sys :=
  let '(w, (running, set)) := fire (timers s) (world s) in
  mkSys w (running ++ set).

Definition elapse (ms : nat) (s : Sys) : Sys := Nat.iter ms tick s.

(** What the user can call. *)
Inductive Cmd :=
| ToggleFlashlight
| StartSOS
| StopSOS
| HandleSOSToggle
| ChangeText (text : string)
| TransmitMorse
| TransmitMorseWithText (text : string)
| StopMorse.

Definition exec (c : Cmd) (s : Sys) : Sys :=
  let w := world s in
  match c with
  | ToggleFlashlight => mkSys (toggleFlashlight w) (timers s)
  | StartSOS =>
      let (w', o) := startSOS w in mkSys w' (timers s ++ pendingSos o)
  | StopSOS => mkSys (stopSOS w) (timers s)
  | HandleSOSToggle =>
      if sosMode w then mkSys (stopSOS w) (timers s)
      else let (w', o) := startSOS w in mkSys w' (timers s ++ pendingSos o)
  | ChangeText text => mkSys (setMorseText text w) (timers s)
  | TransmitMorse =>
      let (w', o) := transmitMorse w in mkSys w' (timers s ++ pendingMorse o)
  | TransmitMorseWithText text =>
      let (w', o) := transmitMorseWithText text w in
      mkSys w' (timers s ++ pendingMorse o)
  | StopMorse => mkSys (stopMorse w) (timers s)
  end.

Inductive Input :=
| Tick
| Call (c : Cmd).

Definition step (s : Sys) (i : Input) : Sys :=
  match i with Tick => tick s | Call c => exec c s end.

Definition run (s : Sys) (inputs : list Input) : Sys := fold_left step inputs s.

Definition start (granted : bool) : Sys := mkSys (mount granted) [].

(** *** Pulse plans *)

(** A segment: its duration and whether the torch is on. *)
Definition Segment : Type := Z * bool.

(** The segments a run of events shows, from the torch being [on]: every
    sleep is a segment with the torch as the last call left it. *)
Fixpoint segments (on : bool) (evs : list Event) : list Segment :=
  match evs with
  | [] => []
  | Torch b :: evs' => segments b evs'
  | Sleep ms :: evs' => (ms, on) :: segments on evs'
  | Alert _ :: evs' => segments on evs'
  end.

Definition duration (plan : list Segment) : Z :=
  fold_right (fun seg acc => fst seg + acc) 0 plan.

(** Parts in sequence with [gap] between two parts and none after the
    last. *)
Fixpoint joinWith (gap : list Segment) (parts : list (list Segment))
  : list Segment :=
  match parts with
  | [] => []
  | [p] => p
  | p :: rest => p ++ gap ++ joinWith gap rest
  end.

Definition symbolSegment (symbol : ascii) : list Segment :=
  [(if Ascii.eqb symbol "."%char then T else 3 * T, true)].

(** The pulses of a character of the table, gap T between symbols. *)
Definition letterPlan (pattern : string) : list Segment :=
  joinWith [(T, false)] (map symbolSegment (list_ascii_of_string pattern)).

(** The Morse plan as the specification words it: a character outside the
    table gives no light; gap 3T between the characters of a word, none
    after the last one whatever it is; gap 7T between words, none after
    the last. *)
Definition statedLetter (c : ascii) : list Segment :=
  match MORSE_CODE c with Some pattern => letterPlan pattern | None => [] end.

Definition statedMorsePlan (words : list (list ascii)) : list Segment :=
  joinWith [(7 * T, false)]
    (map (fun word => joinWith [(3 * T, false)] (map statedLetter word)) words).

(** The Morse plan with the silent placeholder: a character outside the
    table is a pause of 3T wherever it stands; a character of the table is
    followed by the gap 3T unless it is the last of its word. *)
Fixpoint wordPlan (chars : list ascii) : list Segment :=
  match chars with
  | [] => []
  | c :: rest =>
      match MORSE_CODE c with
      | Some pattern =>
          letterPlan pattern
          ++ match rest with [] => [] | _ :: _ => [(3 * T, false)] end
      | None => [(3 * T, false)]
      end ++ wordPlan rest
  end.

Definition morsePlan (words : list (list ascii)) : list Segment :=
  joinWith [(7 * T, false)] (map wordPlan words).

(** The SOS cycle as the specification words it. *)
Definition sosGroup (ms : Z) : list Segment :=
  joinWith [(200, false)] [[(ms, true)]; [(ms, true)]; [(ms, true)]].

Definition sosCycle : list Segment :=
  joinWith [(400, false)] [sosGroup 200; sosGroup 600; sosGroup 200]
  ++ [(800, false)].

End Flashlight.

(** ** Vocabulary of the statements *)

(** What holds of the cells once the first sample has been seen. *)
Definition tracked (t : Compass.Tracker) : Prop :=
  Compass.isFirstUpdate t = false /\
  Compass.heading t = Compass.previousAngle t /\
  0 <= Compass.heading t /\ Compass.heading t < 360 /\
  exists k : Z,
    Compass.cumulativeRotation t == Compass.heading t + 360 * inject_Z k.

Import Flashlight.
Local Open Scope Z_scope.

(** The transmission state of section 3: Idle, with both cancellation
    flags clear. *)
Definition Idle (w : World) : Prop :=
  sosMode w = false /\ isTransmitting w = false /\
  sosActiveRef w = false /\ morseActiveRef w = false.

(** The cells next to the trace. *)
Definition cells (w : World) :=
  (granted w, isFlashlightOn w, sosMode w, morseText w,
   isTransmitting w, currentChar w, sosActiveRef w, morseActiveRef w).

(** The number of times the torch was switched on. *)
Definition pulses (evs : list Event) : nat :=
  List.length (filter (fun e => match e with Torch true => true | _ => false end) evs).

(** The events of a plan: a flash switches the torch on, sleeps and
    switches it off; a gap only sleeps. *)
Definition eventsOf (plan : list Segment) : list Event :=
  flat_map (fun seg : Segment =>
              if snd seg then [Torch true; Sleep (fst seg); Torch false]
              else [Sleep (fst seg)]) plan.

(** [w'] is [w] after the events [evs], with the flags, the permission
    and the text untouched. *)
Definition extends (w w' : World) (evs : list Event) : Prop :=
  trace w' = trace w ++ evs /\
  granted w' = granted w /\ sosMode w' = sosMode w /\
  morseText w' = morseText w /\ isTransmitting w' = isTransmitting w /\
  sosActiveRef w' = sosActiveRef w /\ morseActiveRef w' = morseActiveRef w.

(** [s'] is [s] exactly [ms] milliseconds later. *)
Definition lasts (ms : Z) (s s' : Sys) : Prop :=
  exists n : nat, Z.of_nat n = ms /\ elapse n s = s'.

(** The system made of a Morse function just started or resumed. *)
Definition morseConf (r : World * Outcome MorsePC) : Sys :=
  mkSys (fst r) (pendingMorse (snd r)).

(** The sleep a suspended startSOS is in. *)
Definition sosSleep (pc : SosPC) : Z :=
  match pc with
  | SosFlash g _ => flashDuration g
  | SosPause _ _ => PAUSE
  | SosGroupPause Dots2 => PATTERN_PAUSE
  | SosGroupPause _ => PAUSE * 2
  end.

(** The pulses of one letter: gap T between two symbols, none at the end. *)
Definition symbolsPlan (symbols : list ascii) : list Segment :=
  joinWith [(T, false)] (map symbolSegment symbols).

(** The word ends in a character outside the table. *)
Fixpoint endsUnknown (chars : list ascii) : bool :=
  match chars with
  | [] => false
  | [c] => match MORSE_CODE c with Some _ => false | None => true end
  | _ :: rest => endsUnknown rest
  end.

(** Nothing runs and the device is dark. *)
Definition Quiet (w : World) : Prop := Idle w /\ isFlashlightOn w = false.

(** *** How long a suspended function can still run

    The time a transmitMorseWithText takes from a point of its loops to
    its return when nobody cancels it; [k] is the time of what follows the
    loop at hand.  Cancelled, it takes no longer. *)
Definition symbolMs (symbol : ascii) : Z :=
  if Ascii.eqb symbol "."%char then DOT_DURATION else DASH_DURATION.

Fixpoint restSymbols (k : Z) (symbols : list ascii) : Z :=
  match symbols with
  | [] => k
  | s :: ss =>
      symbolMs s + match ss with
                   | [] => k
                   | _ :: _ => PAUSE_PARTS + restSymbols k ss
                   end
  end.

Fixpoint restChars (k : Z) (chars : list ascii) : Z :=
  match chars with
  | [] => k
  | c :: cs =>
      match MORSE_CODE c with
      | Some pattern =>
          restSymbols (match cs with
                       | [] => k
                       | _ :: _ => PAUSE_LETTERS + restChars k cs
                       end) (list_ascii_of_string pattern)
      | None => PAUSE_LETTERS + restChars k cs
      end
  end.

Fixpoint restWords (words : list (list ascii)) : Z :=
  match words with
  | [] => 0
  | word :: ws =>
      restChars (match ws with
                 | [] => 0
                 | _ :: _ => PAUSE_WORDS + restWords ws
                 end) word
  end.

Definition restAfterChars (words : list (list ascii)) : Z :=
  match words with [] => 0 | _ :: _ => PAUSE_WORDS + restWords words end.

Definition restAfterSymbols (chars : list ascii) (words : list (list ascii)) : Z :=
  match chars with
  | [] => restAfterChars words
  | _ :: _ => PAUSE_LETTERS + restChars (restAfterChars words) chars
  end.

(** The time a suspended function still runs after its current sleep: a
    cancelled startSOS has at most the pause after its flash to sleep. *)
Definition rest (t : Task) : Z :=
  match t with
  | SosTask (SosFlash _ _) => PAUSE
  | SosTask _ => 0
  | MorseTask (MorseFlash ss cs ws) =>
      match ss with
      | [] => restAfterSymbols cs ws
      | _ :: _ => PAUSE_PARTS + restSymbols (restAfterSymbols cs ws) ss
      end
  | MorseTask (MorsePartPause ss cs ws) => restSymbols (restAfterSymbols cs ws) ss
  | MorseTask (MorseLetterPause cs ws) => restChars (restAfterChars ws) cs
  | MorseTask (MorseWordPause ws) => restWords ws
  end.

(** Every timer has a delay to run and ends, with what follows it, within
    [B] milliseconds. *)
Definition within (B : Z) (ts : list (Z * Task)) : Prop :=
  Forall (fun rt : Z * Task => 1 <= fst rt /\ fst rt + rest (snd rt) <= B) ts.

(** What a Morse function leaves pending ends within [B]. *)
Definition bounded (B : Z) (r : World * Outcome MorsePC) : Prop :=
  match snd r with
  | Return => True
  | Await ms pc => 1 <= ms /\ ms + rest (MorseTask pc) <= B
  end.

(** *** Mutual exclusion *)

(** Each flag mirrors its mode, and the two modes are never both on. *)
Definition Exclusive (w : World) : Prop :=
  sosActiveRef w = sosMode w /\ morseActiveRef w = isTransmitting w /\
  sosMode w && isTransmitting w = false.

Definition hasSos (ts : list (Z * Task)) : Prop :=
  exists r pc, In (r, SosTask pc) ts.

Definition hasMorse (ts : list (Z * Task)) : Prop :=
  exists r pc, In (r, MorseTask pc) ts.

(** A mode that is on has its function pending. *)
Definition Consistent (s : Sys) : Prop :=
  Exclusive (world s) /\
  (sosMode (world s) = true -> hasSos (timers s)) /\
  (isTransmitting (world s) = true -> hasMorse (timers s)).

(** The torch is on only while some function is pending. *)
Definition Lit (s : Sys) : Prop :=
  isFlashlightOn (world s) = true -> timers s <> [].

(** The SOS mode with its loop running, Morse off; and the converse. *)
Definition RunningSOS (w : World) : Prop :=
  sosMode w = true /\ sosActiveRef w = true /\
  isTransmitting w = false /\ morseActiveRef w = false.

Definition RunningMorse (w : World) : Prop :=
  isTransmitting w = true /\ morseActiveRef w = true /\
  sosMode w = false /\ sosActiveRef w = false.

(** The parts of what [fire] gives. *)
Definition firedWorld (ts : list (Z * Task)) (w : World) : World :=
  fst (fire ts w).
Definition stillRunning (ts : list (Z * Task)) (w : World) : list (Z * Task) :=
  fst (snd (fire ts w)).
Definition newlySet (ts : list (Z * Task)) (w : World) : list (Z * Task) :=
  snd (snd (fire ts w)).

(** Every timer has a delay to run. *)
Definition wellTimed (ts : list (Z * Task)) : Prop :=
  Forall (fun rt : Z * Task => 1 <= fst rt) ts.

(** ** CompassScreen.tsx: what the compass screen shows

    Next to the tracker cells the listener keeps the throttled heading of
    the text and the time of the last haptic impact; the screen names the
    direction of the displayed heading. *)

From Stdlib Require Import Qminmax.

Module CompassScreen.

Import Compass.

(** Lines 51-52. *)
Definition TEXT_UPDATE_INTERVAL : Z := 250.
Definition NORTH_TOLERANCE : Q := 5.

(** [Math.round]: the nearest integer, a half going up. *)
Definition Math_round (x : Q) : Z := Qfloor (x + (1 # 2))%Q.

(** Line 181. *)
Definition directions : list string :=
  ["N"; "NE"; "E"; "SE"; "S"; "SW"; "W"; "NW"]%string.

(** Lines 180-184.  [%] keeps the sign of the rounded quotient, and an
    index that is not one of the array reads [undefined], here [None]. *)
Definition getDirection (degrees : Q) : option string :=
  let index := Z.rem (Math_round (degrees / 45)%Q) 8 in
  if (index <? 0)%Z then None else nth_error directions (Z.to_nat index).

(** The cells of the listener: those of the tracker, the displayed
    heading, the two time stamps, and what the outside sees happen, oldest
    first: the calls of [setDisplayedHeading] and of [Haptics.impactAsync]
    with the time [Date.now()] gave. *)
Record Screen := mkScreen {
  tracker : Tracker;
  displayedHeading : Q;
  lastTextUpdateRef : Z;
  lastNorthHapticRef : Z;
  shown : list (Z * Q);
  impacts : list Z
}.

(** Lines 44-50: every state and ref starts at 0. *)
Definition initial : Screen := mkScreen Compass.initial 0 0 0 [] [].

(** The listener of lines 90-161 at the time [now], for a heading [angle]
    already normalised; [haptics] tells that the module [Haptics] is
    there (line 113). *)
Definition onHeading (haptics : bool) (s : Screen) (sample : Z * Q) : Screen :=
  let '(now, angle) := sample in
  let update := (TEXT_UPDATE_INTERVAL <=? now - lastTextUpdateRef s)%Z in
  let near :=
    Qle_bool angle NORTH_TOLERANCE || Qle_bool (360 - NORTH_TOLERANCE)%Q angle in
  let impact := near && (1000 <=? now - lastNorthHapticRef s)%Z && haptics in
  mkScreen (track (tracker s) angle)
    (if update then angle else displayedHeading s)
    (if update then now else lastTextUpdateRef s)
    (if impact then now else lastNorthHapticRef s)
    (if update then shown s ++ [(now, angle)] else shown s)
    (if impact then impacts s ++ [now] else impacts s).

(** The screen after a run of samples. *)
Definition onHeadings (haptics : bool) (s : Screen) (samples : list (Z * Q))
  : Screen :=
  fold_left (onHeading haptics) samples s.

End CompassScreen.

(** ** LevelScreen.tsx: the bubble and the displayed angles *)

Module LevelScreen.

Import Level.

(** Line 40. *)
Definition TEXT_UPDATE_INTERVAL : Z := 250.

(** Lines 6-9, for a window of the given width and height. *)
Definition BUBBLE_SIZE : Q := 20.
Definition LEVEL_SIZE (width height : Q) : Q := (Qmin width height * (6 # 10))%Q.
Definition MAX_OFFSET (width height : Q) : Q :=
  (LEVEL_SIZE width height / 2 - BUBBLE_SIZE)%Q.

(** Lines 94-95, with [M] for [MAX_OFFSET]. *)
Definition bubbleX (M accelX : Q) : Q :=
  Qmax (- M) (Qmin M (accelX * M * 2))%Q.
Definition bubbleY (M accelY : Q) : Q :=
  Qmax (- M) (Qmin M (- accelY * M * 2))%Q.

(** The cells of the listener: the two angles, the two displayed angles,
    the time stamp of the text, the target of the bubble's spring, and the
    calls of the two [setDisplayed...] with the time [Date.now()] gave. *)
Record Screen := mkScreen {
  angles : Angles;
  displayedXAngle : Q;
  displayedYAngle : Q;
  lastTextUpdateRef : Z;
  bubblePosition : Q * Q;
  shown : list (Z * (Q * Q))
}.

(** Lines 34-39. *)
Definition initial : Screen := mkScreen Level.initial 0 0 0 (0, 0)%Q [].

Section Accelerometer.
Variable Math_atan2 : Q -> Q -> Q.
Variable Math_sqrt : Q -> Q.
Variable Math_PI : Q.
Variable M : Q.

(** The listener of lines 71-114 at the time [now]. *)
Definition onSample (s : Screen) (sample : Z * (Q * Q)) : Screen :=
  let '(now, (accelX, accelY)) := sample in
  let xAngleDeg := xAngleDeg Math_atan2 Math_sqrt Math_PI accelX accelY in
  let yAngleDeg := yAngleDeg Math_atan2 Math_sqrt Math_PI accelX accelY in
  let update := (TEXT_UPDATE_INTERVAL <=? now - lastTextUpdateRef s)%Z in
  mkScreen (mkAngles xAngleDeg yAngleDeg)
    (if update then xAngleDeg else displayedXAngle s)
    (if update then yAngleDeg else displayedYAngle s)
    (if update then now else lastTextUpdateRef s)
    (bubbleX M accelX, bubbleY M accelY)
    (if update then shown s ++ [(now, (xAngleDeg, yAngleDeg))] else shown s).

Definition onSamples (s : Screen) (samples : list (Z * (Q * Q))) : Screen :=
  fold_left onSample samples s.
End Accelerometer.

End LevelScreen.

(** ** Vocabulary of the screens *)

(** Two successive times of the list are at least [gap] apart. *)
Fixpoint spaced (gap : Z) (times : list Z) : Prop :=
  match times with
  | [] => True
  | t :: rest =>
      match rest with
      | [] => True
      | t' :: _ => (gap <= t' - t)%Z
      end /\ spaced gap rest
  end.

(** The clock never goes back. *)
Definition ascending (times : list Z) : Prop := spaced 0 times.

(** The sector of 45 degrees a heading of [0, 360) lies in, by its
    bounds. *)
Definition sectorOf (d : Q) : string :=
  (if Qlt_bool d (45 # 2) then "N"
   else if Qlt_bool d (135 # 2) then "NE"
   else if Qlt_bool d (225 # 2) then "E"
   else if Qlt_bool d (315 # 2) then "SE"
   else if Qlt_bool d (405 # 2) then "S"
   else if Qlt_bool d (495 # 2) then "SW"
   else if Qlt_bool d (585 # 2) then "W"
   else if Qlt_bool d (675 # 2) then "NW"
   else "N")%string.

(** ** FlashlightScreen: its effects and its controls *)

Module FlashlightScreen.

Import Flashlight.

(** Lines 544-551: the cleanup of the permission effect, run when the
    component unmounts and before the effect runs again. *)
Definition cleanup (w : World) : World :=
  setIsFlashlightOn false (setMorseActiveRef false (setSosActiveRef false w)).

(** Lines 561-565: the effect of the preference "launch with flashlight
    on". *)
Definition launchEffect (launchWithFlashlightOn : bool) (w : World) : World :=
  if launchWithFlashlightOn && granted w then setIsFlashlightOn true w else w.

(** The answer to a permission request: granted, denied, or the
    request fails. *)
Inductive Answer := Granted | Denied | Failed.

(** The screen: the component in time, whether the permission hook has an
    answer yet ([permission] is not null), and the preference of the
    context.  [permission?.granted] is the cell [granted]. *)
Record Screen := mkScreen {
  sys : Sys;
  answered : bool;
  launchWithFlashlightOn : bool
}.

Definition setGranted (b : bool) (w : World) : World :=
  mkWorld b (isFlashlightOn w) (sosMode w) (morseText w)
    (isTransmitting w) (currentChar w) (sosActiveRef w) (morseActiveRef w)
    (trace w).

(** The hook gives a new permission object: the component renders again
    and both effects, which depend on [permission], run again - the
    cleanup of lines 544-551, then lines 541-543 (there is nothing to
    request any more) and lines 562-564. *)
Definition permissionChanged (g : bool) (sc : Screen) : Screen :=
  let w := cleanup (world (sys sc)) in
  let w := launchEffect (launchWithFlashlightOn sc) (setGranted g w) in
  mkScreen (mkSys w (timers (sys sc))) true (launchWithFlashlightOn sc).

Definition alert (title : string) (sc : Screen) : Screen :=
  mkScreen (mkSys (log (Alert title) (world (sys sc))) (timers (sys sc)))
    (answered sc) (launchWithFlashlightOn sc).

(** Lines 575-589, with the answer the request gets. *)
Definition handleRequestPermission (a : Answer) (sc : Screen) : Screen :=
  match a with
  | Granted => permissionChanged true sc
  | Denied => alert "Permission Required" (permissionChanged false sc)
  | Failed => alert "Error" sc
  end.

(** The controls of lines 888-1041: the button "Grant Permission", with
    the answer its request gets, and, once the permission is granted, the
    power button, the SOS button, the message input, the two transmit
    buttons and the cancel button. *)
Inductive Control :=
| GrantPermissionButton (a : Answer)
| PowerButton
| SosButton
| MessageInput (text : string)
| TransmitSosButton
| TransmitTextButton
| CancelButton.

(** What is rendered (lines 876-908): nothing while the hook has no
    answer, the button "Grant Permission" alone while the permission is
    not granted, the other controls with the permission; the cancel
    button is only rendered while [isTransmitting] (line 1030). *)
Definition rendered (c : Control) (sc : Screen) : bool :=
  let w := world (sys sc) in
  match c with
  | GrantPermissionButton _ => answered sc && negb (granted w)
  | CancelButton => answered sc && granted w && isTransmitting w
  | _ => answered sc && granted w
  end.

(** The [disabled] property of a control. *)
Definition disabled (c : Control) (w : World) : bool :=
  match c with
  | GrantPermissionButton _ => false
  | PowerButton => sosMode w || isTransmitting w
  | SosButton => isTransmitting w
  | MessageInput _ => isTransmitting w
  | TransmitSosButton => isTransmitting w || sosMode w
  | TransmitTextButton => isTransmitting w || isBlank (morseText w) || sosMode w
  | CancelButton => false
  end.

(** A control that is rendered and not disabled calls its handler. *)
Definition usable (c : Control) (sc : Screen) : bool :=
  rendered c sc && negb (disabled c (world (sys sc))).

Definition call (c : Cmd) (sc : Screen) : Screen :=
  mkScreen (exec c (sys sc)) (answered sc) (launchWithFlashlightOn sc).

Definition handler (c : Control) (sc : Screen) : Screen :=
  match c with
  | GrantPermissionButton a => handleRequestPermission a sc
  | PowerButton => call ToggleFlashlight sc
  | SosButton => call HandleSOSToggle sc
  | MessageInput text => call (ChangeText text) sc
  | TransmitSosButton => call (TransmitMorseWithText "SOS") sc
  | TransmitTextButton => call TransmitMorse sc
  | CancelButton => call StopMorse sc
  end.

(** The preference changes in the context: the effect of lines 561-565,
    which depends on it, runs again. *)
Definition preferenceChanged (b : bool) (sc : Screen) : Screen :=
  mkScreen (mkSys (launchEffect b (world (sys sc))) (timers (sys sc)))
    (answered sc) b.

(** What happens on the screen: a millisecond passes, the user uses a
    control, the hook gets the answer to the request made at the mount
    (lines 541-543), or the preference is switched in the settings. *)
Inductive Gesture :=
| Wait
| Use (c : Control)
| HookAnswers (g : bool)
| SwitchPreference (b : bool).

Definition act (sc : Screen) (g : Gesture) : Screen :=
  match g with
  | Wait => mkScreen (tick (sys sc)) (answered sc) (launchWithFlashlightOn sc)
  | Use c => if usable c sc then handler c sc else sc
  | HookAnswers g => if answered sc then sc else permissionChanged g sc
  | SwitchPreference b =>
      if Bool.eqb b (launchWithFlashlightOn sc) then sc
      else preferenceChanged b sc
  end.

Definition session (sc : Screen) (gestures : list Gesture) : Screen :=
  fold_left act gestures sc.

(** The gesture is a request for the permission that is refused: the
    button "Grant Permission" is there, and the answer is not "granted". *)
Definition refused (sc : Screen) (g : Gesture) : bool :=
  match g with
  | Use (GrantPermissionButton Denied) | Use (GrantPermissionButton Failed) =>
      usable (GrantPermissionButton Denied) sc
  | _ => false
  end.

(** The number of refused requests in a session. *)
Fixpoint refusals (sc : Screen) (gestures : list Gesture) : nat :=
  match gestures with
  | [] => 0
  | g :: rest =>
      ((if refused sc g then 1 else 0) + refusals (act sc g) rest)%nat
  end.

End FlashlightScreen.

(** *** Vocabulary of the text and of the table *)

(** The number of alerts among the events. *)
Definition alerts (evs : list Event) : nat :=
  List.length (filter (fun e => match e with Alert _ => true | _ => false end) evs).

(** The 256 characters. *)
Definition allAscii : list ascii := map ascii_of_nat (seq 0 256).

(** An ASCII letter of either case, or a digit. *)
Definition isAlnum (c : ascii) : bool :=
  let n := nat_of_ascii c in
  (((48 <=? n) && (n <=? 57)) || ((65 <=? n) && (n <=? 90))
   || ((97 <=? n) && (n <=? 122)))%nat.

(** A dot or a dash. *)
Definition isSymbol (c : ascii) : bool :=
  Ascii.eqb c "."%char || Ascii.eqb c "-"%char.

(** The maximal runs of characters that are not white space: [cur] is the
    run being read, newest character first. *)
Fixpoint runs (cur : list ascii) (l : list ascii) : list (list ascii) :=
  match l with
  | [] => match cur with [] => [] | _ :: _ => [rev cur] end
  | c :: l' =>
      if isSpace c then
        match cur with
        | [] => runs [] l'
        | _ :: _ => rev cur :: runs [] l'
        end
      else runs (c :: cur) l'
  end.

(** The number of symbols the table has for the characters of the
    words. *)
Definition symbolCount (words : list (list ascii)) : nat :=
  List.length
    (flat_map (fun c => match MORSE_CODE c with
                        | Some pattern => list_ascii_of_string pattern
                        | None => []
                        end) (List.concat words)).

(** What the cleanup leaves, and every later millisecond keeps. *)
Definition tornDown (s : Sys) : Prop :=
  (sosActiveRef (world s) = false /\ morseActiveRef (world s) = false /\
   isFlashlightOn (world s) = false) /\
  (sosMode (world s) = true -> hasSos (timers s)) /\
  (isTransmitting (world s) = true -> hasMorse (timers s)).

(** *** How long a cancelled function still runs

    A function whose flag has been cleared leaves its loops at their next
    test, but the pauses that follow a loop are not behind a test: after
    its current sleep a cancelled transmitMorseWithText still sleeps the
    pause between symbols if symbols of the letter were left, the pause
    between letters if letters of the word were left, and the pause
    between words if words were left. *)
Definition pauseIf {A} (left : list A) (ms : Z) : Z :=
  match left with [] => 0 | _ :: _ => ms end.

Definition restCancelled (t : Task) : Z :=
  match t with
  | SosTask (SosFlash _ _) => PAUSE
  | SosTask _ => 0
  | MorseTask (MorseFlash ss cs ws) =>
      pauseIf ss PAUSE_PARTS + pauseIf cs PAUSE_LETTERS + pauseIf ws PAUSE_WORDS
  | MorseTask (MorsePartPause _ cs ws) =>
      pauseIf cs PAUSE_LETTERS + pauseIf ws PAUSE_WORDS
  | MorseTask (MorseLetterPause _ ws) => pauseIf ws PAUSE_WORDS
  | MorseTask (MorseWordPause _) => 0
  end.

(** Every timer has a delay to run and its cancelled function returns
    within [B] milliseconds. *)
Definition cancelledWithin (B : Z) (ts : list (Z * Task)) : Prop :=
  Forall (fun rt : Z * Task =>
            1 <= fst rt /\ fst rt + restCancelled (snd rt) <= B) ts.

(** ** PreferencesContext.tsx: the two persisted preferences *)

Module Preferences.

(** Lines 27-30. *)
Definition DARK_MODE : string := "@preferences:darkMode".
Definition LAUNCH_FLASHLIGHT : string := "@preferences:launchFlashlight".

(** AsyncStorage: the stored items by key. *)
Definition Storage : Type := string -> option string.

Definition noItems : Storage := fun _ => None.

Definition setItem (key value : string) (items : Storage) : Storage :=
  fun k => if String.eqb k key then Some value else items k.

(** How a promise settles. *)
Inductive Settled (A : Type) :=
| Fulfilled (value : A)
| Rejected.
Arguments Fulfilled {A} value.
Arguments Rejected {A}.

(** Lines 75-78: [Promise.all] of the two [getItem]; [available] tells
    that the storage answers. *)
Definition getItems (available : bool) (items : Storage)
  : Settled (option string * option string) :=
  if available then Fulfilled (items DARK_MODE, items LAUNCH_FLASHLIGHT)
  else Rejected.

Record Prefs := mkPrefs {
  isDarkMode : bool;
  launchWithFlashlightOn : bool
}.

(** Lines 50-51. *)
Definition initial : Prefs := mkPrefs false false.

(** Lines 73-90, from the settled [Promise.all]: an item that is there
    sets its state to whether it is the string "true"; a rejection is
    logged and leaves the states. *)
Definition loadPreferences (read : Settled (option string * option string))
  (p : Prefs) : Prefs :=
  match read with
  | Fulfilled (darkMode, launchFlashlight) =>
      let p :=
        match darkMode with
        | Some v => mkPrefs (String.eqb v "true") (launchWithFlashlightOn p)
        | None => p
        end in
      match launchFlashlight with
      | Some v => mkPrefs (isDarkMode p) (String.eqb v "true")
      | None => p
      end
  | Rejected => p
  end.

(** [newValue.toString()] *)
Definition toString (b : bool) : string := if b then "true" else "false".

(** The provider: its states next to the storage. *)
Record App := mkApp {
  prefs : Prefs;
  items : Storage
}.

(** Lines 101-109; [saved] tells that [setItem] resolved (a rejection is
    logged). *)
Definition toggleDarkMode (saved : bool) (a : App) : App :=
  let newValue := negb (isDarkMode (prefs a)) in
  mkApp (mkPrefs newValue (launchWithFlashlightOn (prefs a)))
        (if saved then setItem DARK_MODE (toString newValue) (items a)
         else items a).

(** Lines 120-128. *)
Definition toggleLaunchWithFlashlightOn (saved : bool) (a : App) : App :=
  let newValue := negb (launchWithFlashlightOn (prefs a)) in
  mkApp (mkPrefs (isDarkMode (prefs a)) newValue)
        (if saved then setItem LAUNCH_FLASHLIGHT (toString newValue) (items a)
         else items a).

(** The provider mounted over the stored items (lines 50-60): the states
    start at their defaults and the effect loads the preferences. *)
Definition launch (available : bool) (items : Storage) : App :=
  mkApp (loadPreferences (getItems available items) initial) items.

(** The two switches of the settings screen. *)
Inductive Switch := DarkModeSwitch | LaunchFlashlightSwitch.

Definition flip (a : App) (op : Switch * bool) : App :=
  match fst op with
  | DarkModeSwitch => toggleDarkMode (snd op) a
  | LaunchFlashlightSwitch => toggleLaunchWithFlashlightOn (snd op) a
  end.


(** The state a switch shows. *)
Definition valueOf (k : Switch) (p : Prefs) : bool :=
  match k with
  | DarkModeSwitch => isDarkMode p
  | LaunchFlashlightSwitch => launchWithFlashlightOn p
  end.


End Preferences.

(** ** SettingsScreen.tsx: the feedback form *)

Module Settings.

Import Flashlight.

Inductive SnackbarType := success | error.

(** The states of lines 41-45 and, oldest first, the bodies of the
    requests sent. *)
Record Form := mkForm {
  feedback : string;
  loading : bool;
  snackbarVisible : bool;
  snackbarMessage : string;
  snackbarType : SnackbarType;
  sent : list string
}.

Definition initial : Form := mkForm ""%string false false ""%string success [].

Definition showSnackbar (message : string) (type : SnackbarType) (f : Form)
  : Form :=
  mkForm (feedback f) (loading f) true message type (sent f).

(** How the request ends: [fetch] rejects, or it resolves to a response
    with its [ok] flag, whose [json()] then resolves or rejects. *)
Inductive Reply :=
| Unreachable
| Response (ok : bool) (json : bool).

(** Lines 61-83, [handleSendFeedback] up to its [await fetch]: the form,
    and whether a request is now awaited. *)
Definition handleSendFeedback (f : Form) : Form * bool :=
  if isBlank (feedback f) then
    (showSnackbar "Please enter your feedback" error f, false)
  else
    (mkForm (feedback f) true (snackbarVisible f) (snackbarMessage f)
       (snackbarType f) (sent f ++ [feedback f]), true).

(** Lines 85-103, from the reply on. *)
Definition handleReply (r : Reply) (f : Form) : Form :=
  let f :=
    match r with
    | Response true true =>
        let f := showSnackbar "Feedback sent successfully!" success f in
        mkForm ""%string (loading f) (snackbarVisible f) (snackbarMessage f)
          (snackbarType f) (sent f)
    | _ => showSnackbar "Failed to send feedback. Please try again." error f
    end in
  mkForm (feedback f) false (snackbarVisible f) (snackbarMessage f)
    (snackbarType f) (sent f).

(** The screen: the form and the number of requests awaited. *)
Record Page := mkPage {
  form : Form;
  awaited : nat
}.

(** What happens to the screen: the user types in the input (disabled
    while [loading], line 166), presses "Send Feedback" (disabled while
    [loading] or on blank feedback, line 174), the snackbar is dismissed
    (line 205), or the oldest awaited request ends. *)
Inductive Action :=
| ChangeFeedback (text : string)
| PressSend
| Dismiss
| Settle (r : Reply).

Definition perform (p : Page) (a : Action) : Page :=
  let f := form p in
  match a with
  | ChangeFeedback text =>
      if loading f then p
      else mkPage (mkForm text (loading f) (snackbarVisible f)
                     (snackbarMessage f) (snackbarType f) (sent f))
                  (awaited p)
  | PressSend =>
      if loading f || isBlank (feedback f) then p
      else
        let (f', waits) := handleSendFeedback f in
        mkPage f' (if waits then S (awaited p) else awaited p)
  | Dismiss =>
      mkPage (mkForm (feedback f) (loading f) false (snackbarMessage f)
                (snackbarType f) (sent f))
             (awaited p)
  | Settle r =>
      match awaited p with
      | O => p
      | S n => mkPage (handleReply r f) n
      end
  end.

Definition performAll (p : Page) (actions : list Action) : Page :=
  fold_left perform actions p.

End Settings.

(** *** Vocabulary of the preferences *)

(** The item stored under the key of a switch is the state of the switch,
    as a string. *)
Definition stored (k : Preferences.Switch) (a : Preferences.App) : Prop :=
  match k with
  | Preferences.DarkModeSwitch =>
      Preferences.items a Preferences.DARK_MODE
      = Some (Preferences.toString (Preferences.isDarkMode (Preferences.prefs a)))
  | Preferences.LaunchFlashlightSwitch =>
      Preferences.items a Preferences.LAUNCH_FLASHLIGHT
      = Some (Preferences.toString
                (Preferences.launchWithFlashlightOn (Preferences.prefs a)))
  end.

(** *** Vocabulary of the feedback form *)

(** Either nothing is awaited and the form is not loading, or exactly one
    request is awaited, the form is loading, and the input still holds
    the body of that request, the last one sent. *)
Definition oneAtATime (p : Settings.Page) : Prop :=
  (Settings.awaited p = 0%nat /\ Settings.loading (Settings.form p) = false) \/
  (Settings.awaited p = 1%nat /\ Settings.loading (Settings.form p) = true /\
   exists earlier,
     Settings.sent (Settings.form p)
     = earlier ++ [Settings.feedback (Settings.form p)]).

(** ** CompassScreen.tsx: the tracker on binary64 numbers

    The cells of the listener with the numbers JavaScript has: the
    subtraction of line 142, the adjustment of lines 146 and 148 and the
    addition of line 152 round to the nearest double. *)

From Stdlib Require PrimFloat FloatOps SpecFloat.

Module Compass64.

Import PrimFloat.

Record Tracker := mkTracker {
  isFirstUpdate : bool;
  previousAngle : float;
  cumulativeRotation : float;
  heading : float
}.

(** [subscribe] starts with [isFirstUpdate = true]; the refs and the state
    are created with 0. *)
Definition initial : Tracker := mkTracker true 0%float 0%float 0%float.

(** Lines 141-149. *)
Definition shortestDelta (previousAngle angle : float) : float :=
  let delta := (angle - previousAngle)%float in
  if (180 <? delta)%float then (delta - 360)%float
  else if (delta <? -180)%float then (delta + 360)%float
  else delta.

(** Lines 102-153, for a heading [angle] already normalised. *)
Definition track (t : Tracker) (angle : float) : Tracker :=
  if isFirstUpdate t then
    mkTracker false angle angle angle
  else
    let delta := shortestDelta (previousAngle t) angle in
    mkTracker false angle (cumulativeRotation t + delta)%float angle.

Definition trackAll (t : Tracker) (angles : list float) : Tracker :=
  fold_left track angles t.

(** The number a finite double stands for. *)
Definition value (x : float) : option Q :=
  match FloatOps.Prim2SF x with
  | SpecFloat.S754_zero _ => Some 0%Q
  | SpecFloat.S754_finite s m e =>
      let q := match e with
               | Z0 => Z.pos m # 1
               | Z.pos p => Z.pos (m * 2 ^ p) # 1
               | Z.neg p => Z.pos m # (2 ^ p)
               end in
      Some (if s then (- q)%Q else q)
  | _ => None
  end.





End Compass64.

(** *** Vocabulary of the binary64 tracker *)


(** ** Facts about the number helpers *)

Local Open Scope Q_scope.

Lemma Qlt_bool_iff (a b : Q) : Qlt_bool a b = true <-> a < b.
Proof.
  unfold Qlt_bool. rewrite Qlt_alt.
  destruct (a ?= b); split; intro H; congruence.
Qed.

Lemma Qlt_bool_false_iff (a b : Q) : Qlt_bool a b = false <-> b <= a.
Proof.
  split; intro H.
  - apply Qnot_lt_le. intro L. apply Qlt_bool_iff in L. congruence.
  - destruct (Qlt_bool a b) eqn:E; [|reflexivity].
    apply Qlt_bool_iff in E. exfalso. apply (Qlt_not_le _ _ E H).
Qed.

(** An integer that brackets [a] is its floor. *)
Lemma Qfloor_unique (a : Q) (k : Z) :
  inject_Z k <= a -> a < inject_Z (k + 1) -> Qfloor a = k.
Proof.
  intros Hlo Hhi.
  pose proof (Qfloor_le a) as F1. pose proof (Qlt_floor a) as F2.
  assert (A : (Qfloor a < k + 1)%Z).
  { rewrite Zlt_Qlt. eapply Qle_lt_trans; eassumption. }
  assert (B : (k < Qfloor a + 1)%Z).
  { rewrite Zlt_Qlt. eapply Qle_lt_trans; eassumption. }
  lia.
Qed.

Lemma mod360_shift (c h : Q) (k : Z) :
  c == h + 360 * inject_Z k -> 0 <= h -> h < 360 -> mod360 c == h.
Proof.
  intros Hc H0 H1. unfold mod360.
  assert (E : Qfloor (c / 360) = k).
  { apply Qfloor_unique.
    - apply Qle_shift_div_l; [reflexivity|]. lra.
    - apply Qlt_shift_div_r; [reflexivity|].
      rewrite inject_Z_plus. change (inject_Z 1) with 1. lra. }
  rewrite E. lra.
Qed.

(** ** The heading tracker *)

Lemma jsRem_nonneg_range (a : Q) :
  0 <= a -> 0 <= jsRem a 360 /\ jsRem a 360 < 360.
Proof.
  intro Ha. unfold jsRem, Qtrunc.
  assert (D : 0 <= a / 360) by (apply Qle_shift_div_l; [reflexivity|lra]).
  assert (E : Qlt_bool (a / 360) 0 = false) by (apply Qlt_bool_false_iff; exact D).
  rewrite E.
  pose proof (Qfloor_le (a / 360)) as F1. pose proof (Qlt_floor (a / 360)) as F2.
  rewrite inject_Z_plus in F2. change (inject_Z 1) with 1 in F2.
  assert (A : a == 360 * (a / 360)) by (field).
  split; lra.
Qed.

(** Line 99 maps every angle from -360 upward - in particular the
    [-180, 180] of [atan2] in degrees - into [0, 360). *)
Lemma normalize_range (angle : Q) :
  -360 <= angle ->
  0 <= Compass.normalize angle /\ Compass.normalize angle < 360.
Proof.
  intro H. unfold Compass.normalize. apply jsRem_nonneg_range. lra.
Qed.

Lemma shortestDelta_cases (p a : Q) :
  (Compass.shortestDelta p a = a - p - 360 /\ 180 < a - p) \/
  (Compass.shortestDelta p a = a - p + 360 /\ a - p < -180) \/
  (Compass.shortestDelta p a = a - p /\ -180 <= a - p /\ a - p <= 180).
Proof.
  unfold Compass.shortestDelta. cbv zeta.
  destruct (Qlt_bool 180 (a - p)) eqn:E1.
  - left. apply Qlt_bool_iff in E1. split; [reflexivity|exact E1].
  - apply Qlt_bool_false_iff in E1.
    destruct (Qlt_bool (a - p) (-180)) eqn:E2.
    + right; left. apply Qlt_bool_iff in E2. split; [reflexivity|exact E2].
    + right; right. apply Qlt_bool_false_iff in E2. auto.
Qed.

Lemma track_first (t : Compass.Tracker) (a : Q) :
  Compass.isFirstUpdate t = true -> 0 <= a -> a < 360 ->
  tracked (Compass.track t a) /\ Compass.heading (Compass.track t a) = a.
Proof.
  intros F H0 H1. unfold Compass.track. rewrite F.
  repeat split; simpl; try assumption.
  exists 0%Z. change (inject_Z 0) with 0. lra.
Qed.

Lemma track_tracked (t : Compass.Tracker) (a : Q) :
  tracked t -> 0 <= a -> a < 360 ->
  tracked (Compass.track t a) /\ Compass.heading (Compass.track t a) = a.
Proof.
  intros (F & Hp & H0 & H1 & k & Hk) A0 A1.
  unfold Compass.track. rewrite F.
  repeat split; simpl; try assumption.
  rewrite <- Hp.
  destruct (shortestDelta_cases (Compass.heading t) a)
    as [[-> _]|[[-> _]|[-> _]]].
  - exists (k - 1)%Z. unfold Z.sub. rewrite inject_Z_plus, inject_Z_opp.
    change (inject_Z 1) with 1. lra.
  - exists (k + 1)%Z. rewrite inject_Z_plus.
    change (inject_Z 1) with 1. lra.
  - exists k. lra.
Qed.

Lemma last_cons {A} (l : list A) :
  forall a d : A, last (a :: l) d = last l a.
Proof.
  induction l as [|b l IH]; intros a d; [reflexivity|].
  change (last (a :: b :: l) d) with (last (b :: l) d).
  rewrite (IH b d), (IH b a). reflexivity.
Qed.


Lemma trackAll_tracked (angles : list Q) :
  forall t, tracked t ->
  Forall (fun a => 0 <= a /\ a < 360) angles ->
  tracked (Compass.trackAll t angles) /\
  Compass.heading (Compass.trackAll t angles) = last angles (Compass.heading t).
Proof.
  induction angles as [|a rest IH]; intros t T HF.
  - simpl. auto.
  - inversion HF as [|? ? [A0 A1] HR]; subst.
    destruct (track_tracked t a T A0 A1) as [T' Hh].
    destruct (IH _ T' HR) as [T'' Hl].
    change (Compass.trackAll t (a :: rest))
      with (Compass.trackAll (Compass.track t a) rest).
    split; [exact T''|]. rewrite Hl, Hh, last_cons. reflexivity.
Qed.

Section ShortestPath.

Import PrimFloat.

(** C1. After the first sample, for a previous heading and a new heading
    both in [0, 360), the listener adds to cumulativeRotation the
    shortest-path delta and nothing else; that delta is the raw difference
    rawAngle - previousAngle, less 360 when the difference exceeds 180,
    plus 360 when it is below -180, and unchanged otherwise; and it lies
    in [-180, 180].  The headings 350 then 10 give +20, not -340, also on
    binary64 numbers. *)
Theorem C1_shortest_path_delta :
  (forall (t : Compass.Tracker) (angle : Q),
     Compass.isFirstUpdate t = false ->
     0 <= Compass.previousAngle t -> Compass.previousAngle t < 360 ->
     0 <= angle -> angle < 360 ->
     let raw := angle - Compass.previousAngle t in
     let delta := Compass.shortestDelta (Compass.previousAngle t) angle in
     Compass.cumulativeRotation (Compass.track t angle)
       = Compass.cumulativeRotation t + delta /\
     Compass.previousAngle (Compass.track t angle) = angle /\
     (180 < raw -> delta = raw - 360) /\
     (raw < -180 -> delta = raw + 360) /\
     (-180 <= raw -> raw <= 180 -> delta = raw) /\
     -180 <= delta /\ delta <= 180) /\
  (Compass.shortestDelta 350 10 = 20 /\
   ~ Compass.shortestDelta 350 10 == -340 /\
   Compass.cumulativeRotation
     (Compass.trackAll Compass.initial [350; 10]) = 350 + 20) /\
  (Compass64.shortestDelta 350 10 = 20%float /\
   Compass64.cumulativeRotation
     (Compass64.trackAll Compass64.initial [350; 10]%float) = 370%float).
Proof.
  split; [|split].
  - intros t angle F P0 P1 A0 A1 raw delta.
    unfold Compass.track. rewrite F. simpl.
    split; [reflexivity|]. split; [reflexivity|].
    subst raw delta.
    destruct (shortestDelta_cases (Compass.previousAngle t) angle)
      as [[-> L]|[[-> L]|[-> L]]];
      repeat split; intros; try reflexivity; try lra.
  - split; [reflexivity|]. split; [discriminate|reflexivity].
  - split; vm_compute; reflexivity.
Qed.

Lemma C1_shortest_path_delta_witness :
  let t := Compass.track Compass.initial 350 in
  let raw := 10 - Compass.previousAngle t in
  let delta := Compass.shortestDelta (Compass.previousAngle t) 10 in
  Compass.cumulativeRotation (Compass.track t 10)
    = Compass.cumulativeRotation t + delta /\
  Compass.previousAngle (Compass.track t 10) = 10 /\
  (180 < raw -> delta = raw - 360) /\
  (raw < -180 -> delta = raw + 360) /\
  (-180 <= raw -> raw <= 180 -> delta = raw) /\
  -180 <= delta /\ delta <= 180.
Proof.
  apply (proj1 C1_shortest_path_delta (Compass.track Compass.initial 350) 10).
  - reflexivity.
  - simpl. lra.
  - simpl. lra.
  - lra.
  - lra.
Defined.

End ShortestPath.

(** Every sample's heading is in [0, 360) as soon as the platform's
    [atan2], in degrees, is at least -360 (it is within [-180, 180]). *)
Lemma headingOf_range (Math_atan2 : Q -> Q -> Q) (Math_PI : Q) (x y : Q) :
  -360 <= Math_atan2 (- y) x * (180 / Math_PI) ->
  0 <= Compass.headingOf Math_atan2 Math_PI x y /\
  Compass.headingOf Math_atan2 Math_PI x y < 360.
Proof.
  intro H. unfold Compass.headingOf. cbv zeta. apply normalize_range. exact H.
Qed.

(** After one or more headings of [0, 360), from a fresh subscription. *)
Lemma rotation_invariant (t0 : Compass.Tracker) (h : Q) (hs : list Q) :
  Compass.isFirstUpdate t0 = true ->
  Forall (fun a => 0 <= a /\ a < 360) (h :: hs) ->
  let t := Compass.trackAll t0 (h :: hs) in
  mod360 (Compass.cumulativeRotation t) == Compass.heading t /\
  Compass.heading t = last (h :: hs) h /\
  Compass.previousAngle t = Compass.heading t.
Proof.
  intros F HF t.
  inversion HF as [|? ? [H0 H1] HR]; subst.
  destruct (track_first t0 h F H0 H1) as [T Hh].
  destruct (trackAll_tracked hs _ T HR) as [(F' & Hp & A0 & A1 & k & Hk) Hl].
  change (Compass.trackAll t0 (h :: hs))
    with (Compass.trackAll (Compass.track t0 h) hs) in t.
  subst t. repeat split.
  - apply (mod360_shift _ _ k); assumption.
  - rewrite Hl, Hh, last_cons. reflexivity.
  - symmetry. exact Hp.
Qed.

(** The listener on samples is the tracker on their headings. *)
Lemma listener_track (Math_atan2 : Q -> Q -> Q) (Math_PI : Q)
  (samples : list (Q * Q)) :
  forall t : Compass.Tracker,
    fold_left (Compass.listener Math_atan2 Math_PI) samples t
    = Compass.trackAll t
        (map (fun d => Compass.headingOf Math_atan2 Math_PI (fst d) (snd d))
           samples).
Proof.
  induction samples as [|[x y] samples IH]; intro t; [reflexivity|].
  cbn [fold_left map Compass.trackAll fst snd]. rewrite IH. reflexivity.
Qed.

(** ** The level flag *)

(** C9. For every accelerometer sample the level flag computed from the
    stored angles is true exactly when both tilt angles are strictly
    inside (-2, 2); angles 1.9 and 1.9 are level, 2.1 and 0 are not, and
    neither is the boundary 2. *)
Theorem C9_isLevel_threshold :
  forall (Math_atan2 : Q -> Q -> Q) (Math_sqrt : Q -> Q) (Math_PI : Q)
         (old : Level.Angles) (accelX accelY : Q),
    let xA := Math_atan2 accelX (Math_sqrt (accelY * accelY + 1))
              * (180 / Math_PI) in
    let yA := Math_atan2 accelY (Math_sqrt (accelX * accelX + 1))
              * (180 / Math_PI) in
    let a := Level.listener Math_atan2 Math_sqrt Math_PI old (accelX, accelY) in
    Level.xAngle a = xA /\ Level.yAngle a = yA /\
    (Level.isLevel a = true <-> Qabs xA < 2 /\ Qabs yA < 2) /\
    Level.isLevel (Level.mkAngles 1.9 1.9) = true /\
    Level.isLevel (Level.mkAngles 2.1 0) = false /\
    Level.isLevel (Level.mkAngles 2 0) = false /\
    Level.isLevel (Level.mkAngles 0 (-2)) = false.
Proof.
  intros. subst a xA yA. simpl.
  split; [reflexivity|]. split; [reflexivity|].
  split; [|repeat split; reflexivity].
  unfold Level.isLevel. simpl.
  rewrite andb_true_iff, !Qlt_bool_iff. reflexivity.
Qed.
(** ** The tracker on binary64 numbers *)

Section Binary64.

Import PrimFloat.











End Binary64.

(** ** The transmitter: time *)

Local Open Scope Z_scope.


Lemma elapse_succ (n : nat) (s : Sys) : elapse (S n) s = elapse n (tick s).
Proof. unfold elapse. apply Nat.iter_succ_r. Qed.

Lemma elapse_add (a b : nat) (s : Sys) :
  elapse (a + b) s = elapse b (elapse a s).
Proof.
  revert s. induction a as [|a IH]; intro s; [reflexivity|].
  change (S a + b)%nat with (S (a + b)). rewrite !elapse_succ. apply IH.
Qed.

Lemma tick_wait (ms : Z) (t : Task) (w : World) :
  1 < ms -> tick (mkSys w [(ms, t)]) = mkSys w [(ms - 1, t)].
Proof.
  intro H. unfold tick. cbn [timers world fire].
  destruct (Z.leb_spec ms 1) as [L|L]; [lia|]. reflexivity.
Qed.

Lemma tick_fire (ms : Z) (t : Task) (w : World) :
  ms <= 1 ->
  tick (mkSys w [(ms, t)]) = mkSys (fst (resume t w)) (snd (resume t w)).
Proof.
  intro H. unfold tick. cbn [timers world fire].
  destruct (Z.leb_spec ms 1) as [L|L]; [|lia].
  destruct (resume t w) as [w1 again]. cbn. rewrite app_nil_r. reflexivity.
Qed.

(** A function that sleeps alone resumes exactly when its delay has run. *)
Lemma elapse_single (n : nat) (t : Task) (w : World) :
  forall ms, ms = Z.of_nat (S n) ->
  elapse (S n) (mkSys w [(ms, t)])
  = mkSys (fst (resume t w)) (snd (resume t w)).
Proof.
  induction n as [|n IH]; intros ms E.
  - unfold elapse. simpl. apply tick_fire. lia.
  - rewrite elapse_succ, tick_wait by lia. apply IH. lia.
Qed.

Lemma elapse_sleep (ms : Z) (t : Task) (w : World) :
  1 <= ms ->
  elapse (Z.to_nat ms) (mkSys w [(ms, t)])
  = mkSys (fst (resume t w)) (snd (resume t w)).
Proof.
  intro H. destruct (Z.to_nat ms) as [|n] eqn:E; [lia|].
  apply elapse_single. lia.
Qed.

(** ** The transmitter: blank text and stop *)

Lemma trimStart_nil_iff (l : list ascii) :
  trimStart l = [] <-> forallb isSpace l = true.
Proof.
  induction l as [|c l IH]; simpl; [tauto|].
  destruct (isSpace c); simpl; [exact IH|]. split; discriminate.
Qed.

Lemma trimStart_spaces (l : list ascii) :
  forallb isSpace (trimStart l) = true -> forallb isSpace l = true.
Proof.
  induction l as [|c l IH]; simpl; [tauto|].
  destruct (isSpace c) eqn:E; simpl; [exact IH|].
  rewrite E. simpl. discriminate.
Qed.

Lemma forallb_rev {A} (f : A -> bool) (l : list A) :
  forallb f (rev l) = forallb f l.
Proof.
  induction l as [|a l IH]; [reflexivity|].
  simpl. rewrite forallb_app, IH. simpl. rewrite andb_true_r. apply andb_comm.
Qed.

(** [!text.trim()] holds exactly of the texts made of white space only
    (the empty text among them). *)
Lemma isBlank_iff (text : string) :
  isBlank text = true <-> forallb isSpace (list_ascii_of_string text) = true.
Proof.
  unfold isBlank, trim. set (l := list_ascii_of_string text).
  split.
  - intro H. destruct (rev (trimStart (rev (trimStart l)))) eqn:E;
      [|discriminate].
    apply (f_equal (@rev ascii)) in E. rewrite rev_involutive in E. simpl in E.
    apply trimStart_nil_iff in E. rewrite forallb_rev in E.
    apply trimStart_spaces. exact E.
  - intro H. apply trimStart_nil_iff in H. rewrite H. reflexivity.
Qed.

Lemma pulses_app (a b : list Event) : pulses (a ++ b) = (pulses a + pulses b)%nat.
Proof. unfold pulses. rewrite filter_app, List.length_app. reflexivity. Qed.

(** C7. A Morse transmission asked for an empty or white-space-only text
    is refused before anything changes: both entry points only raise an
    alert (Empty Text; Permission Required when the permission is missing),
    every cell keeps its value, the torch is not called and no timer is
    set. *)
Theorem C7_blank_text_rejected :
  forall (text : string) (w : World) (ts : list (Z * Task)),
    forallb isSpace (list_ascii_of_string text) = true ->
    let s := mkSys w ts in
    let s1 := exec (TransmitMorseWithText text) s in
    let s2 := exec TransmitMorse (mkSys (setMorseText text w) ts) in
    timers s1 = ts /\ cells (world s1) = cells w /\
    trace (world s1)
      = trace w ++ [Alert (if granted w then "Empty Text"
                           else "Permission Required")] /\
    timers s2 = ts /\ cells (world s2) = cells (setMorseText text w) /\
    trace (world s2) = trace w ++ [Alert "Empty Text"].
Proof.
  intros text w ts H. apply isBlank_iff in H.
  cbv zeta. unfold exec, transmitMorse, transmitMorseWithText.
  cbn [world timers morseText setMorseText]. rewrite H.
  destruct (granted w) eqn:G; cbn; rewrite app_nil_r; repeat split;
    try reflexivity; unfold cells; cbn; rewrite ?G; reflexivity.
Qed.

Lemma C7_blank_text_rejected_witness :
  let w := mount true in
  let s1 := exec (TransmitMorseWithText "  ") (mkSys w []) in
  let s2 := exec TransmitMorse (mkSys (setMorseText "  " w) []) in
  timers s1 = [] /\ cells (world s1) = cells w /\
  trace (world s1) = trace w ++ [Alert "Empty Text"] /\
  timers s2 = [] /\ cells (world s2) = cells (setMorseText "  " w) /\
  trace (world s2) = trace w ++ [Alert "Empty Text"].
Proof.
  apply (C7_blank_text_rejected "  " (mount true) []). reflexivity.
Defined.

(** C8 as stated fails: with the flashlight switched on by hand the
    transmitter is Idle, and stopSOS (as stopMorse) switches it off. *)
Lemma C8_stop_when_idle_changes_torch :
  let s := run (start true) [Call ToggleFlashlight] in
  Idle (world s) /\ timers s = [] /\
  isFlashlightOn (world s) = true /\
  isFlashlightOn (world (exec StopSOS s)) = false /\
  isFlashlightOn (world (exec StopMorse s)) = false /\
  cells (world (exec StopSOS s)) <> cells (world s) /\
  cells (world (exec StopMorse s)) <> cells (world s).
Proof.
  cbv zeta. unfold Idle. cbn. repeat split; try reflexivity; discriminate.
Qed.

(** C8, amended. A stop called while Idle leaves the transmission state
    Idle, keeps both cancellation flags clear and sets no timer, but it
    always forces the output device off (stopMorse also clears the
    displayed character): it changes nothing exactly when the device is
    already off (and, for stopMorse, no character is displayed). *)
Theorem C8_stop_when_idle :
  forall (w : World) (ts : list (Z * Task)),
    Idle w ->
    let a := exec StopSOS (mkSys w ts) in
    let b := exec StopMorse (mkSys w ts) in
    (timers a = ts /\ Idle (world a) /\ isFlashlightOn (world a) = false /\
     trace (world a) = trace w ++ [Torch false] /\
     (cells (world a) = cells w <-> isFlashlightOn w = false)) /\
    (timers b = ts /\ Idle (world b) /\ isFlashlightOn (world b) = false /\
     trace (world b) = trace w ++ [Torch false] /\
     (cells (world b) = cells w <->
        isFlashlightOn w = false /\ currentChar w = None)).
Proof.
  intros [g fl sm mt it cc sr mr tr] ts (H1 & H2 & H3 & H4).
  simpl in *. subst. unfold Idle, cells. cbn.
  repeat split; try reflexivity; intros; intuition congruence.
Qed.

Lemma C8_stop_when_idle_witness :
  let w := mount true in
  let a := exec StopSOS (mkSys w []) in
  timers a = [] /\ Idle (world a) /\ isFlashlightOn (world a) = false /\
  trace (world a) = trace w ++ [Torch false] /\
  (cells (world a) = cells w <-> isFlashlightOn w = false).
Proof.
  apply (C8_stop_when_idle (mount true) []).
  unfold Idle. repeat split; reflexivity.
Defined.

(** ** Plans and time *)

Lemma lasts_refl (s : Sys) : lasts 0 s s.
Proof. exists 0%nat. split; reflexivity. Qed.

Lemma lasts_trans (a b : Z) (s1 s2 s3 : Sys) :
  lasts a s1 s2 -> lasts b s2 s3 -> lasts (a + b) s1 s3.
Proof.
  intros (n & Hn & E1) (m & Hm & E2). exists (n + m)%nat. split; [lia|].
  rewrite elapse_add, E1. exact E2.
Qed.

Lemma lasts_sleep (ms : Z) (t : Task) (w : World) :
  1 <= ms ->
  lasts ms (mkSys w [(ms, t)]) (mkSys (fst (resume t w)) (snd (resume t w))).
Proof.
  intro H. exists (Z.to_nat ms). split; [lia|]. apply elapse_sleep. exact H.
Qed.

Lemma lasts_elapse (ms : Z) (s s' : Sys) :
  lasts ms s s' -> elapse (Z.to_nat ms) s = s'.
Proof. intros (n & Hn & E). subst ms. rewrite Nat2Z.id. exact E. Qed.

Lemma extends_refl (w : World) : extends w w [].
Proof. unfold extends. rewrite app_nil_r. repeat split. Qed.

Lemma extends_trans (w1 w2 w3 : World) (a b : list Event) :
  extends w1 w2 a -> extends w2 w3 b -> extends w1 w3 (a ++ b).
Proof.
  unfold extends. intros (T1 & ?) (T2 & ?).
  rewrite T2, T1, app_assoc. intuition congruence.
Qed.

Lemma duration_app (p q : list Segment) :
  duration (p ++ q) = duration p + duration q.
Proof.
  unfold duration. induction p as [|s p IH]; simpl; [reflexivity|].
  rewrite IH. lia.
Qed.

Lemma eventsOf_app (p q : list Segment) :
  eventsOf (p ++ q) = eventsOf p ++ eventsOf q.
Proof. unfold eventsOf. apply flat_map_app. Qed.

(** Read back as segments, the events of a plan are the plan: a gap is
    dark when the torch was off before, a flash leaves it off. *)
Lemma segments_eventsOf (plan : list Segment) (rest : list Event) :
  segments false (eventsOf plan ++ rest) = plan ++ segments false rest.
Proof.
  induction plan as [|[ms [|]] plan IH]; simpl; [reflexivity| |];
    rewrite IH; reflexivity.
Qed.

(** Bring the system on the left of [lasts] to its value. *)
Ltac settle :=
  match goal with
  | |- lasts _ ?s _ =>
      let s' := eval cbv -[Z.add app] in s in change s with s'
  end.

(** Let every pending sleep of a lone function run, one after the other. *)
Ltac sleeps :=
  repeat (eapply lasts_trans; [settle; apply lasts_sleep; lia | ]);
  settle; apply lasts_refl.

(** ** The SOS loop *)

(** One pass of the [while] body, from the first flash to the first flash:
    the sleeps are those of the stated cycle, in order, and the events are
    those of the cycle. *)
Lemma sos_cycle_once (w : World) :
  sosActiveRef w = true ->
  exists w' evs,
    lasts (duration sosCycle)
      (mkSys w [(200, SosTask (SosFlash Dots1 0))])
      (mkSys w' [(200, SosTask (SosFlash Dots1 0))]) /\
    extends w w' evs /\
    [Torch true; Sleep 200] ++ evs = eventsOf sosCycle ++ [Torch true; Sleep 200].
Proof.
  destruct w as [g fl sm mt it cc sr mr tr]. intro H. cbn in H. subst sr.
  eexists. eexists. split; [|split].
  - cbv [duration sosCycle sosGroup joinWith app fold_right fst].
    sleeps.
  - unfold extends. cbn. rewrite <- ?app_assoc. cbn. repeat split.
  - reflexivity.
Qed.

Lemma concat_repeat_snoc {A} (c : list A) (n : nat) :
  List.concat (repeat c (S n)) = List.concat (repeat c n) ++ c.
Proof.
  induction n as [|n IH]; [simpl; rewrite app_nil_r; reflexivity|].
  change (List.concat (repeat c (S (S n)))) with (c ++ List.concat (repeat c (S n))).
  rewrite IH at 1. rewrite app_assoc. reflexivity.
Qed.

(** While the flag is set a resumed startSOS always reaches another sleep:
    the loop has no exit of its own. *)
Lemma sosResume_alive (pc : SosPC) (w : World) :
  sosActiveRef w = true ->
  exists w' ms pc',
    sosResume pc w = (w', Await ms pc') /\
    sosActiveRef w' = true /\ sosMode w' = sosMode w.
Proof.
  destruct w as [g fl sm mt it cc sr mr tr]. intro H. cbn in H. subst sr.
  destruct pc as [gr i|gr i|gr].
  - cbn [sosResume]. destruct (i <? 2)%nat.
    + do 3 eexists. split; [reflexivity|]. split; reflexivity.
    + unfold sosFor. destruct (i + 1 <? 3)%nat;
        do 3 eexists; cbn; (split; [reflexivity|]); split; reflexivity.
  - cbn [sosResume]. unfold sosFor. destruct (i + 1 <? 3)%nat;
      do 3 eexists; cbn; (split; [reflexivity|]); split; reflexivity.
  - destruct gr; do 3 eexists; cbn; (split; [reflexivity|]); split; reflexivity.
Qed.

Lemma sos_alive_tick (w : World) (r : Z) (pc : SosPC) :
  sosActiveRef w = true ->
  exists w' r' pc',
    tick (mkSys w [(r, SosTask pc)]) = mkSys w' [(r', SosTask pc')] /\
    sosActiveRef w' = true /\ sosMode w' = sosMode w.
Proof.
  intro H. destruct (Z.leb_spec r 1) as [L|L].
  - rewrite tick_fire by exact L.
    destruct (sosResume_alive pc w H) as (w' & ms & pc' & E & H1 & H2).
    exists w', ms, pc'. cbn [resume]. rewrite E. cbn. auto.
  - rewrite tick_wait by exact L. exists w, (r - 1), pc. auto.
Qed.

Lemma sos_alive (m : nat) :
  forall (w : World) (r : Z) (pc : SosPC),
  sosActiveRef w = true ->
  exists w' r' pc',
    elapse m (mkSys w [(r, SosTask pc)]) = mkSys w' [(r', SosTask pc')] /\
    sosActiveRef w' = true /\ sosMode w' = sosMode w.
Proof.
  induction m as [|m IH]; intros w r pc H.
  - exists w, r, pc. auto.
  - rewrite elapse_succ.
    destruct (sos_alive_tick w r pc H) as (w1 & r1 & pc1 & E & H1 & H2).
    rewrite E. destruct (IH w1 r1 pc1 H1) as (w2 & r2 & pc2 & E2 & H3 & H4).
    exists w2, r2, pc2. split; [exact E2|]. split; congruence.
Qed.

Lemma sos_cycles (n : nat) (w : World) (pre : list Event) :
  sosActiveRef w = true ->
  trace w = pre ++ [Torch true; Sleep 200] ->
  exists w',
    lasts (Z.of_nat n * duration sosCycle)
      (mkSys w [(200, SosTask (SosFlash Dots1 0))])
      (mkSys w' [(200, SosTask (SosFlash Dots1 0))]) /\
    sosActiveRef w' = true /\ sosMode w' = sosMode w /\
    trace w' = pre ++ eventsOf (List.concat (repeat sosCycle n))
                   ++ [Torch true; Sleep 200].
Proof.
  intros H Ht. induction n as [|n IH].
  - exists w. split; [apply lasts_refl|]. auto.
  - destruct IH as (w1 & L1 & R1 & M1 & T1).
    destruct (sos_cycle_once w1 R1) as (w2 & evs & L2 & X & Eq).
    exists w2. split.
    + replace (Z.of_nat (S n) * duration sosCycle)
        with (Z.of_nat n * duration sosCycle + duration sosCycle) by lia.
      eapply lasts_trans; eassumption.
    + destruct X as (T2 & _ & M2 & _ & _ & R2 & _).
      split; [congruence|]. split; [congruence|].
      rewrite T2, T1, concat_repeat_snoc, eventsOf_app.
      rewrite <- !app_assoc. do 2 f_equal. exact Eq.
Qed.

(** C5. Started from Idle, the SOS loop plays the cycle of three groups -
    three flashes of 200 ms, three of 600 ms, three of 200 ms, with 200 ms
    between the flashes of a group and none after its last, 400 ms between
    groups and 800 ms before the cycle starts again - as many times as one
    waits, and as long as nobody cancels it the function is pending in a
    sleep and the mode stays SOS. *)
Theorem C5_sos_cycle :
  sosCycle =
    [(200, true); (200, false); (200, true); (200, false); (200, true);
     (400, false);
     (600, true); (200, false); (600, true); (200, false); (600, true);
     (400, false);
     (200, true); (200, false); (200, true); (200, false); (200, true);
     (800, false)] /\
  forall w : World,
    granted w = true -> isTransmitting w = false ->
    let s0 := exec StartSOS (mkSys w []) in
    (forall n : nat,
       let played := List.concat (repeat sosCycle n) in
       exists wn,
         elapse (Z.to_nat (Z.of_nat n * duration sosCycle)) s0
           = mkSys wn [(200, SosTask (SosFlash Dots1 0))] /\
         trace wn = trace w ++ eventsOf played ++ [Torch true; Sleep 200] /\
         segments false (eventsOf played) = played /\
         sosMode wn = true /\ sosActiveRef wn = true) /\
    (forall m : nat,
       exists wm r pc,
         elapse m s0 = mkSys wm [(r, SosTask pc)] /\
         sosMode wm = true /\ sosActiveRef wm = true).
Proof.
  split; [reflexivity|].
  intros [g fl sm mt it cc sr mr tr] G I. cbn in G, I. subst g it.
  set (w := mkWorld true fl sm mt false cc sr mr tr).
  set (w0 := mkWorld true true true mt false cc true mr
               ((tr ++ [Torch true]) ++ [Sleep 200])).
  assert (E0 : exec StartSOS (mkSys w []) =
               mkSys w0 [(200, SosTask (SosFlash Dots1 0))]) by reflexivity.
  cbv zeta. rewrite E0. split.
  - intro n.
    destruct (sos_cycles n w0 tr eq_refl) as (wn & L & R & M & Tn).
    { subst w0. cbn. rewrite <- app_assoc. reflexivity. }
    exists wn. split; [apply lasts_elapse; exact L|].
    split; [exact Tn|]. split; [|split; [exact M|exact R]].
    pose proof (segments_eventsOf (List.concat (repeat sosCycle n)) []) as S.
    rewrite !app_nil_r in S. exact S.
  - intro m.
    destruct (sos_alive m w0 200 (SosFlash Dots1 0) eq_refl)
      as (wm & r & pc & E & R & M).
    exists wm, r, pc. split; [exact E|]. split; [exact M|exact R].
Qed.

Lemma C5_sos_cycle_witness :
  let w := mount true in
  let s0 := exec StartSOS (mkSys w []) in
  (exists wn,
     elapse (Z.to_nat (Z.of_nat 2 * duration sosCycle)) s0
       = mkSys wn [(200, SosTask (SosFlash Dots1 0))] /\
     trace wn = trace w ++ eventsOf (List.concat (repeat sosCycle 2))
                  ++ [Torch true; Sleep 200] /\
     segments false (eventsOf (List.concat (repeat sosCycle 2)))
       = List.concat (repeat sosCycle 2) /\
     sosMode wn = true /\ sosActiveRef wn = true) /\
  (exists wm r pc,
     elapse 1234 s0 = mkSys wm [(r, SosTask pc)] /\
     sosMode wm = true /\ sosActiveRef wm = true).
Proof.
  destruct (proj2 C5_sos_cycle (mount true) eq_refl eq_refl) as [A B].
  split; [exact (A 2%nat)|exact (B 1234%nat)].
Defined.

(** ** The Morse loop, uncancelled *)

Ltac ms_pos :=
  cbv [DOT_DURATION DASH_DURATION PAUSE_PARTS PAUSE_LETTERS PAUSE_WORDS T];
  lia.

Lemma resume_morse (pc : MorsePC) (w : World) :
  mkSys (fst (resume (MorseTask pc) w)) (snd (resume (MorseTask pc) w))
  = morseConf (morseResume pc w).
Proof.
  unfold morseConf. cbn [resume]. destruct (morseResume pc w). reflexivity.
Qed.

Lemma morse_sleep (ms : Z) (pc : MorsePC) (w : World) :
  1 <= ms ->
  lasts ms (morseConf (sleep ms pc w)) (morseConf (morseResume pc (log (Sleep ms) w))).
Proof.
  intro H. unfold morseConf at 1. cbn [sleep fst snd pendingMorse].
  rewrite <- resume_morse. apply lasts_sleep. exact H.
Qed.

Lemma extends_torch (b : bool) (w : World) :
  extends w (setIsFlashlightOn b w) [Torch b].
Proof. unfold extends. cbn. repeat split. Qed.

Lemma extends_log (e : Event) (w : World) : extends w (log e w) [e].
Proof. unfold extends. cbn. repeat split. Qed.

Lemma extends_char (c : option string) (w : World) :
  extends w (setCurrentChar c w) [].
Proof. unfold extends. cbn. rewrite app_nil_r. repeat split. Qed.

Lemma extends_ref (w w' : World) (evs : list Event) :
  extends w w' evs -> morseActiveRef w' = morseActiveRef w.
Proof. unfold extends. tauto. Qed.

Lemma symbolsPlan_cons (s s2 : ascii) (ss : list ascii) :
  symbolsPlan (s :: s2 :: ss)
  = symbolSegment s ++ [(T, false)] ++ symbolsPlan (s2 :: ss).
Proof. reflexivity. Qed.

Lemma morseSymbols_run (symbols : list ascii) :
  forall (chars : list ascii) (words : list (list ascii)) (w : World),
    morseActiveRef w = true ->
    exists w',
      lasts (duration (symbolsPlan symbols))
        (morseConf (morseSymbols symbols chars words w))
        (morseConf (morseAfterSymbols chars words w')) /\
      extends w w' (eventsOf (symbolsPlan symbols)).
Proof.
  induction symbols as [|s ss IH]; intros chars words w R.
  - exists w. split; [apply lasts_refl|apply extends_refl].
  - cbn [morseSymbols]. rewrite R. cbn [negb].
    set (d := if Ascii.eqb s "."%char then DOT_DURATION else DASH_DURATION).
    assert (Hd : 1 <= d) by (subst d; destruct (Ascii.eqb s "."%char); ms_pos).
    assert (Hseg : symbolSegment s = [(d, true)]) by reflexivity.
    set (w1 := log (Sleep d) (setIsFlashlightOn true w)).
    assert (X1 : extends w (setIsFlashlightOn false w1)
                   [Torch true; Sleep d; Torch false]).
    { eapply (extends_trans _ _ _ [Torch true] [Sleep d; Torch false]);
        [apply extends_torch|].
      eapply (extends_trans _ _ _ [Sleep d] [Torch false]);
        [apply extends_log|apply extends_torch]. }
    pose proof (morse_sleep d (MorseFlash ss chars words)
                  (setIsFlashlightOn true w) Hd) as L1.
    fold w1 in L1. cbn [morseResume] in L1.
    destruct ss as [|s2 ss2].
    + exists (setIsFlashlightOn false w1). split.
      * unfold symbolsPlan. cbn [map joinWith]. rewrite Hseg.
        replace (duration [(d, true)]) with (d + 0) by (cbn; lia).
        eapply lasts_trans; [exact L1|apply lasts_refl].
      * unfold symbolsPlan. cbn [map joinWith]. rewrite Hseg. exact X1.
    + set (w2 := setIsFlashlightOn false w1) in *.
      pose proof (morse_sleep PAUSE_PARTS (MorsePartPause (s2 :: ss2) chars words)
                    w2 ltac:(ms_pos)) as L2.
      cbn [morseResume] in L2.
      set (w3 := log (Sleep PAUSE_PARTS) w2) in *.
      assert (R3 : morseActiveRef w3 = true) by exact R.
      destruct (IH chars words w3 R3) as (w' & L3 & X3).
      exists w'. rewrite symbolsPlan_cons, Hseg. split.
      * rewrite !duration_app.
        replace (duration [(d, true)]) with d by (cbn; lia).
        replace (duration [(T, false)]) with PAUSE_PARTS by (cbn; ms_pos).
        eapply lasts_trans; [exact L1|].
        eapply lasts_trans; [exact L2|exact L3].
      * rewrite !eventsOf_app, app_assoc.
        apply (extends_trans _ w3 _ _ _); [|exact X3].
        apply (extends_trans _ w2 _ [Torch true; Sleep d; Torch false]
                 [Sleep T]); [exact X1|apply extends_log].
Qed.

Lemma wordPlan_known (c : ascii) (cs : list ascii) (pattern : string) :
  MORSE_CODE c = Some pattern ->
  wordPlan (c :: cs)
  = symbolsPlan (list_ascii_of_string pattern)
    ++ match cs with [] => [] | _ :: _ => [(3 * T, false)] ++ wordPlan cs end.
Proof.
  intro E. cbn [wordPlan]. rewrite E. unfold letterPlan, symbolsPlan.
  destruct cs; [cbn [wordPlan]; rewrite !app_nil_r; reflexivity|].
  rewrite <- app_assoc. reflexivity.
Qed.

Lemma wordPlan_unknown (c : ascii) (cs : list ascii) :
  MORSE_CODE c = None -> wordPlan (c :: cs) = [(3 * T, false)] ++ wordPlan cs.
Proof. intro E. cbn [wordPlan]. rewrite E. reflexivity. Qed.

Lemma morseChars_run (chars : list ascii) :
  forall (words : list (list ascii)) (w : World),
    morseActiveRef w = true ->
    exists w',
      lasts (duration (wordPlan chars))
        (morseConf (morseChars chars words w))
        (morseConf (morseAfterChars words w')) /\
      extends w w' (eventsOf (wordPlan chars)).
Proof.
  induction chars as [|c cs IH]; intros words w R.
  - exists w. split; [apply lasts_refl|apply extends_refl].
  - cbn [morseChars]. rewrite R. cbn [negb].
    destruct (MORSE_CODE c) as [pattern|] eqn:E.
    + set (wc := setCurrentChar
                   (Some (String c (" (" ++ pattern ++ ")")%string)) w).
      assert (Xc : extends w wc []) by apply extends_char.
      destruct (morseSymbols_run (list_ascii_of_string pattern) cs words wc R)
        as (w1 & L1 & X1).
      pose proof (extends_trans _ _ _ _ _ Xc X1) as X01. cbn [app] in X01.
      rewrite (wordPlan_known c cs pattern E).
      destruct cs as [|c2 cs2].
      * exists w1. rewrite app_nil_r. split; [exact L1|exact X01].
      * cbn [morseAfterSymbols] in L1.
        pose proof (morse_sleep PAUSE_LETTERS
                      (MorseLetterPause (c2 :: cs2) words) w1 ltac:(ms_pos))
          as L2.
        cbn [morseResume] in L2.
        set (w2 := log (Sleep PAUSE_LETTERS) w1) in *.
        assert (R2 : morseActiveRef w2 = true).
        { change (morseActiveRef w1 = true).
          rewrite (extends_ref _ _ _ X1). exact R. }
        destruct (IH words w2 R2) as (w' & L3 & X3).
        exists w'. split.
        -- rewrite !duration_app.
           replace (duration [(3 * T, false)]) with PAUSE_LETTERS
             by (cbn; ms_pos).
           eapply lasts_trans; [exact L1|].
           eapply lasts_trans; [exact L2|exact L3].
        -- rewrite !eventsOf_app.
           eapply extends_trans; [exact X01|].
           eapply extends_trans; [|exact X3]. apply extends_log.
    + set (wc := setCurrentChar (Some (String c " (ignored)"%string)) w).
      pose proof (morse_sleep PAUSE_LETTERS (MorseLetterPause cs words) wc
                    ltac:(ms_pos)) as L1.
      cbn [morseResume] in L1.
      set (w2 := log (Sleep PAUSE_LETTERS) wc) in *.
      assert (R2 : morseActiveRef w2 = true) by exact R.
      destruct (IH words w2 R2) as (w' & L3 & X3).
      exists w'. rewrite (wordPlan_unknown c cs E). split.
      * rewrite duration_app.
        replace (duration [(3 * T, false)]) with PAUSE_LETTERS
          by (cbn; ms_pos).
        eapply lasts_trans; [exact L1|exact L3].
      * rewrite eventsOf_app.
        eapply extends_trans; [|exact X3].
        apply (extends_trans w wc w2 [] [Sleep (3 * T)]);
          [apply extends_char|apply extends_log].
Qed.

Lemma morsePlan_cons (word word2 : list ascii) (ws : list (list ascii)) :
  morsePlan (word :: word2 :: ws)
  = wordPlan word ++ [(7 * T, false)] ++ morsePlan (word2 :: ws).
Proof. reflexivity. Qed.

Lemma morseWords_run (words : list (list ascii)) :
  forall w : World,
    morseActiveRef w = true ->
    exists w',
      lasts (duration (morsePlan words))
        (morseConf (morseWords words w))
        (morseConf (morseFinally w')) /\
      extends w w' (eventsOf (morsePlan words)).
Proof.
  induction words as [|word ws IH]; intros w R.
  - exists w. split; [apply lasts_refl|apply extends_refl].
  - cbn [morseWords]. rewrite R. cbn [negb].
    destruct (morseChars_run word ws w R) as (w1 & L1 & X1).
    destruct ws as [|word2 ws2].
    + exists w1. unfold morsePlan. cbn [map joinWith]. split; assumption.
    + cbn [morseAfterChars] in L1.
      set (wc := setCurrentChar (Some "(space)"%string) w1) in *.
      pose proof (morse_sleep PAUSE_WORDS (MorseWordPause (word2 :: ws2)) wc
                    ltac:(ms_pos)) as L2.
      cbn [morseResume] in L2.
      set (w2 := log (Sleep PAUSE_WORDS) wc) in *.
      assert (R2 : morseActiveRef w2 = true).
      { change (morseActiveRef w1 = true).
        rewrite (extends_ref _ _ _ X1). exact R. }
      destruct (IH w2 R2) as (w' & L3 & X3).
      exists w'. rewrite morsePlan_cons. split.
      * rewrite !duration_app.
        replace (duration [(7 * T, false)]) with PAUSE_WORDS by (cbn; ms_pos).
        eapply lasts_trans; [exact L1|].
        eapply lasts_trans; [exact L2|exact L3].
      * rewrite !eventsOf_app.
        eapply extends_trans; [exact X1|].
        eapply extends_trans; [|exact X3].
        apply (extends_trans w1 wc w2 [] [Sleep (7 * T)]);
          [apply extends_char|apply extends_log].
Qed.

(** A transmission started from the SOS mode off and left alone: it ends
    after the duration of its plan, and its events are those of the plan
    followed by the switch-off of the [finally]. *)
Lemma morse_transmission (text : string) (w : World) :
  granted w = true -> isBlank text = false -> sosMode w = false ->
  let plan := morsePlan (wordsOf text) in
  exists w',
    elapse (Z.to_nat (duration plan))
      (exec (TransmitMorseWithText text) (mkSys w [])) = mkSys w' [] /\
    trace w' = trace w ++ eventsOf plan ++ [Torch false] /\
    isTransmitting w' = false /\ morseActiveRef w' = false /\
    isFlashlightOn w' = false /\ currentChar w' = None /\
    sosMode w' = false /\ sosActiveRef w' = sosActiveRef w.
Proof.
  intros G B S plan.
  unfold exec, transmitMorseWithText. cbn [world timers].
  rewrite G, B, S. cbn [negb app].
  set (w0 := setCurrentChar None
               (setMorseActiveRef true (setIsTransmitting true w))).
  destruct (morseWords_run (wordsOf text) w0 eq_refl) as (w1 & L & X).
  apply lasts_elapse in L. fold plan in L, X.
  exists (fst (morseFinally w1)). split.
  - destruct (morseWords (wordsOf text) w0) as [wa oa] eqn:E.
    unfold morseConf in L. cbn [fst snd] in L. exact L.
  - destruct X as (Tr & _ & Sm & _ & _ & Sr & _). cbn.
    rewrite Tr. cbn. rewrite <- app_assoc.
    repeat split; try reflexivity; try assumption.
    rewrite Sm. exact S.
Qed.

(** Where no word ends in a character outside the table, the plan as
    stated and the plan with the placeholder are the same plan. *)
Lemma stated_word_plan (chars : list ascii) :
  endsUnknown chars = false ->
  joinWith [(3 * T, false)] (map statedLetter chars) = wordPlan chars.
Proof.
  induction chars as [|c cs IH]; intro H; [reflexivity|].
  destruct cs as [|c2 cs2].
  - cbn in H. cbn [map joinWith wordPlan]. unfold statedLetter.
    destruct (MORSE_CODE c); [|discriminate].
    rewrite !app_nil_r. reflexivity.
  - change (endsUnknown (c2 :: cs2) = false) in H.
    change (joinWith [(3 * T, false)] (map statedLetter (c :: c2 :: cs2)))
      with (statedLetter c ++ [(3 * T, false)]
            ++ joinWith [(3 * T, false)] (map statedLetter (c2 :: cs2))).
    rewrite (IH H). cbn [wordPlan]. unfold statedLetter.
    destruct (MORSE_CODE c); [rewrite <- app_assoc|]; reflexivity.
Qed.

Lemma stated_plan_agrees (words : list (list ascii)) :
  forallb (fun word => negb (endsUnknown word)) words = true ->
  statedMorsePlan words = morsePlan words.
Proof.
  intro H. unfold statedMorsePlan, morsePlan. f_equal.
  apply map_ext_in. intros word Hin.
  rewrite forallb_forall in H. specialize (H word Hin).
  apply stated_word_plan. destruct (endsUnknown word); [discriminate|reflexivity].
Qed.

(** C4 as stated fails: a word that ends in a character outside the table
    ends in a pause of 3T.  The text "A!" is sent as dot, gap, dash, gap 3T,
    pause 3T, and "!" alone as one pause 3T, where the stated plan has the
    pulses of A and its gap, and nothing at all. *)
Lemma C4_pause_after_unknown_last_character :
  let run text := elapse 2200 (exec (TransmitMorseWithText text) (start true)) in
  timers (run "A!"%string) = [] /\
  segments false (trace (world (run "A!"%string)))
    = [(200, true); (200, false); (600, true); (600, false); (600, false)] /\
  statedMorsePlan (wordsOf "A!")
    = [(200, true); (200, false); (600, true); (600, false)] /\
  timers (run "!"%string) = [] /\
  segments false (trace (world (run "!"%string))) = [(600, false)] /\
  statedMorsePlan (wordsOf "!") = [] /\
  segments false (trace (world (run "A!"%string)))
    <> statedMorsePlan (wordsOf "A!") /\
  segments false (trace (world (run "!"%string)))
    <> statedMorsePlan (wordsOf "!").
Proof. vm_compute. repeat split; discriminate. Qed.

(** C4, amended. With T = 200 ms, a transmission left alone plays exactly
    the plan: dot T, dash 3T, gap T between the symbols of a letter and none
    after its last; gap 3T after a letter of the table unless it is the last
    character of its word; a pause 3T for every character outside the table,
    also at the end of a word; gap 7T between words and none after the last.
    It ends after the plan's duration with the device off, and the plan is
    the stated one whenever no word ends in a character outside the table. *)
Theorem C4_morse_plan :
  forall (text : string) (w : World),
    granted w = true -> isBlank text = false ->
    sosMode w = false -> isFlashlightOn w = false ->
    let words := wordsOf text in
    let plan := morsePlan words in
    T = 200 /\
    (exists w',
       elapse (Z.to_nat (duration plan))
         (exec (TransmitMorseWithText text) (mkSys w [])) = mkSys w' [] /\
       trace w' = trace w ++ eventsOf plan ++ [Torch false] /\
       segments (isFlashlightOn w) (eventsOf plan ++ [Torch false]) = plan /\
       isTransmitting w' = false /\ isFlashlightOn w' = false) /\
    (forallb (fun word => negb (endsUnknown word)) words = true ->
     plan = statedMorsePlan words).
Proof.
  intros text w G B S F words plan. split; [reflexivity|]. split.
  - destruct (morse_transmission text w G B S)
      as (w' & E & Tr & It & _ & Fl & _).
    exists w'. split; [exact E|]. split; [exact Tr|].
    split; [|split; assumption].
    rewrite F, segments_eventsOf. cbn. apply app_nil_r.
  - intro H. symmetry. apply stated_plan_agrees. exact H.
Qed.

Lemma C4_morse_plan_witness :
  let w := mount true in
  let words := wordsOf "A! e" in
  let plan := morsePlan words in
  T = 200 /\
  (exists w',
     elapse (Z.to_nat (duration plan))
       (exec (TransmitMorseWithText "A! e") (mkSys w [])) = mkSys w' [] /\
     trace w' = trace w ++ eventsOf plan ++ [Torch false] /\
     segments (isFlashlightOn w) (eventsOf plan ++ [Torch false]) = plan /\
     isTransmitting w' = false /\ isFlashlightOn w' = false) /\
  (forallb (fun word => negb (endsUnknown word)) words = true ->
   plan = statedMorsePlan words).
Proof.
  apply (C4_morse_plan "A! e" (mount true)); reflexivity.
Defined.

(** The run of "A1!B". *)
Lemma A1_bang_B :
  let s := exec (TransmitMorseWithText "A1!B") (start true) in
  let plan := letterPlan ".-" ++ [(600, false)] ++ letterPlan ".----"
              ++ [(600, false)] ++ [(600, false)] ++ letterPlan "-..." in
  morsePlan (wordsOf "A1!B") = plan /\
  timers (elapse (Z.to_nat (duration plan)) s) = [] /\
  segments false (trace (world (elapse (Z.to_nat (duration plan)) s)))
    = plan.
Proof. vm_compute. repeat split. Qed.

(** C6. Wherever the loop meets a character outside the table it switches
    no light, raises no alert and keeps transmitting: it shows the
    character as ignored, sleeps exactly one letter pause of 3T = 600 ms and
    goes on with the characters that follow.  In the plan that character is
    one dark segment of 600 ms, and "A1!B" is sent as A, gap, 1, gap, the
    pause for "!", B. *)
Theorem C6_unknown_character_placeholder :
  forall (c : ascii) (chars : list ascii) (words : list (list ascii))
         (w : World),
    MORSE_CODE c = None -> morseActiveRef w = true ->
    let r := morseChars (c :: chars) words w in
    snd r = Await 600 (MorseLetterPause chars words) /\
    trace (fst r) = trace w ++ [Sleep 600] /\
    isFlashlightOn (fst r) = isFlashlightOn w /\
    isTransmitting (fst r) = isTransmitting w /\
    morseActiveRef (fst r) = true /\
    currentChar (fst r) = Some (String c " (ignored)") /\
    morseResume (MorseLetterPause chars words) (fst r)
      = morseChars chars words (fst r) /\
    wordPlan (c :: chars) = (600, false) :: wordPlan chars /\
    MORSE_CODE "!" = None /\
    (let s := exec (TransmitMorseWithText "A1!B") (start true) in
     let plan := letterPlan ".-" ++ [(600, false)] ++ letterPlan ".----"
                 ++ [(600, false)] ++ [(600, false)] ++ letterPlan "-..." in
     morsePlan (wordsOf "A1!B") = plan /\
     timers (elapse (Z.to_nat (duration plan)) s) = [] /\
     segments false (trace (world (elapse (Z.to_nat (duration plan)) s)))
       = plan).
Proof.
  intros c chars words w E R r. subst r.
  cbn [morseChars]. rewrite R, E. cbn [negb].
  do 4 (split; [reflexivity|]).
  split; [exact R|]. do 2 (split; [reflexivity|]).
  split; [cbn [wordPlan]; rewrite E; reflexivity|].
  split; [reflexivity|]. exact A1_bang_B.
Qed.

Lemma C6_unknown_character_placeholder_witness :
  let w := setMorseActiveRef true (setIsTransmitting true (mount true)) in
  let r := morseChars ["!"; "B"]%char [] w in
  snd r = Await 600 (MorseLetterPause ["B"%char] []) /\
  trace (fst r) = trace w ++ [Sleep 600] /\
  isFlashlightOn (fst r) = isFlashlightOn w.
Proof.
  pose proof (C6_unknown_character_placeholder "!" ["B"%char] []
                (setMorseActiveRef true (setIsTransmitting true (mount true)))
                eq_refl eq_refl) as H.
  cbv zeta in H. destruct H as (H1 & H2 & H3 & _).
  cbv zeta. split; [exact H1|]. split; [exact H2|exact H3].
Defined.

(** ** Cancellation *)

Arguments pulses : simpl never.

(** Unfold the async functions down to their tests. *)
Ltac open_async :=
  cbv beta iota delta
    [resume sosResume sosFor sosAfterGroup sosWhile sosExit sleep
     morseResume morseSymbols morseChars morseWords morseAfterSymbols
     morseAfterChars morseFinally pendingSos pendingMorse];
  cbn.

(** Close a goal on counts of pulses where every new event is dark. *)
Ltac no_pulse :=
  repeat match goal with
         | |- context [pulses [?e]] => change (pulses [e]) with 0%nat
         end;
  lia.

(** Split on what a test of the goal is stuck on. *)
Ltac split_cases :=
  repeat match goal with
         | |- context [match ?x with _ => _ end] =>
             first [ is_var x
                   | lazymatch x with
                     | negb ?b => is_var b
                     | Nat.leb _ _ => idtac
                     | Nat.ltb _ _ => idtac
                     | MORSE_CODE _ => idtac
                     | list_ascii_of_string _ => idtac
                     | Ascii.eqb _ _ => idtac
                     end ];
             lazymatch x with
             | negb ?b => destruct b eqn:?
             | _ => destruct x eqn:?
             end; cbn
         end.

(** With both flags clear a resumed function switches no light on and
    leaves an idle, dark component idle and dark. *)
Lemma resume_quiet (t : Task) (w : World) :
  Quiet w ->
  Quiet (fst (resume t w)) /\
  pulses (trace (fst (resume t w))) = pulses (trace w).
Proof.
  destruct w as [g fl sm mt it cc sr mr tr].
  unfold Quiet, Idle. cbn. intros ((-> & -> & -> & ->) & ->).
  destruct t as [pc|pc]; destruct pc; open_async; split_cases;
    rewrite ?pulses_app; cbn; repeat split; no_pulse.
Qed.

(** ** Every cancelled loop ends *)

Lemma fire_cons (r : Z) (t : Task) (ts : list (Z * Task)) (w : World) :
  fire ((r, t) :: ts) w
  = if r <=? 1
    then (firedWorld ts (fst (resume t w)),
          (stillRunning ts (fst (resume t w)),
           snd (resume t w) ++ newlySet ts (fst (resume t w))))
    else (firedWorld ts w, ((r - 1, t) :: stillRunning ts w, newlySet ts w)).
Proof.
  unfold firedWorld, stillRunning, newlySet.
  cbn [fire]. destruct (r <=? 1).
  - destruct (resume t w) as [w1 again]. cbn [fst snd].
    destruct (fire ts w1) as [w2 [run set]]. reflexivity.
  - destruct (fire ts w) as [w2 [run set]]. reflexivity.
Qed.

Lemma fired_cons (r : Z) (t : Task) (ts : list (Z * Task)) (w : World) :
  firedWorld ((r, t) :: ts) w
  = (if r <=? 1 then firedWorld ts (fst (resume t w)) else firedWorld ts w) /\
  stillRunning ((r, t) :: ts) w
  = (if r <=? 1 then stillRunning ts (fst (resume t w))
     else (r - 1, t) :: stillRunning ts w) /\
  newlySet ((r, t) :: ts) w
  = (if r <=? 1 then snd (resume t w) ++ newlySet ts (fst (resume t w))
     else newlySet ts w).
Proof.
  unfold firedWorld at 1, stillRunning at 1, newlySet at 1.
  rewrite fire_cons. destruct (r <=? 1); repeat split.
Qed.

Lemma tick_eq (s : Sys) :
  tick s = mkSys (firedWorld (timers s) (world s))
             (stillRunning (timers s) (world s)
              ++ newlySet (timers s) (world s)).
Proof.
  unfold tick, firedWorld, stillRunning, newlySet.
  destruct (fire (timers s) (world s)) as [w [run set]]. reflexivity.
Qed.

Lemma symbolMs_pos (s : ascii) : 1 <= symbolMs s.
Proof. unfold symbolMs. destruct (Ascii.eqb s "."%char); ms_pos. Qed.

Lemma restSymbols_ge (k : Z) (ss : list ascii) : k <= restSymbols k ss.
Proof.
  induction ss as [|s ss IH]; cbn [restSymbols]; [lia|].
  pose proof (symbolMs_pos s). destruct ss; [lia|].
  assert (0 <= PAUSE_PARTS) by ms_pos. lia.
Qed.

Lemma restChars_ge (k : Z) (cs : list ascii) : k <= restChars k cs.
Proof.
  induction cs as [|c cs IH]; cbn [restChars]; [lia|].
  assert (0 <= PAUSE_LETTERS) by ms_pos.
  destruct (MORSE_CODE c) as [p|]; [|lia].
  etransitivity; [|apply restSymbols_ge]. destruct cs; lia.
Qed.

Lemma restWords_nonneg (ws : list (list ascii)) : 0 <= restWords ws.
Proof.
  induction ws as [|word ws IH]; cbn [restWords]; [lia|].
  assert (0 <= PAUSE_WORDS) by ms_pos.
  etransitivity; [|apply restChars_ge]. destruct ws; lia.
Qed.

Lemma restAfterChars_nonneg (ws : list (list ascii)) : 0 <= restAfterChars ws.
Proof.
  unfold restAfterChars. pose proof (restWords_nonneg ws).
  assert (0 <= PAUSE_WORDS) by ms_pos. destruct ws; lia.
Qed.

Lemma restAfterSymbols_ge (cs : list ascii) (ws : list (list ascii)) :
  restAfterChars ws <= restAfterSymbols cs ws.
Proof.
  unfold restAfterSymbols. pose proof (restChars_ge (restAfterChars ws) cs).
  assert (0 <= PAUSE_LETTERS) by ms_pos. destruct cs; lia.
Qed.

Lemma rest_nonneg (t : Task) : 0 <= rest t.
Proof.
  pose proof restAfterChars_nonneg as A.
  pose proof restAfterSymbols_ge as B.
  pose proof restSymbols_ge as C.
  pose proof restChars_ge as D.
  pose proof restWords_nonneg as E.
  assert (0 <= PAUSE_PARTS) by ms_pos.
  destruct t as [[g i|g i|g]|[ss cs ws|ss cs ws|cs ws|ws]]; cbn [rest];
    try (unfold PAUSE; lia).
  - specialize (A ws). specialize (B cs ws).
    specialize (C (restAfterSymbols cs ws) ss). destruct ss; lia.
  - specialize (A ws). specialize (B cs ws).
    specialize (C (restAfterSymbols cs ws) ss). lia.
  - specialize (A ws). specialize (D (restAfterChars ws) cs). lia.
  - apply E.
Qed.

Lemma bounded_le (B B' : Z) (r : World * Outcome MorsePC) :
  B <= B' -> bounded B r -> bounded B' r.
Proof. unfold bounded. destruct (snd r); [|tauto]. intros; lia. Qed.

Lemma morseAfterChars_bounded (ws : list (list ascii)) (w : World) :
  bounded (restAfterChars ws) (morseAfterChars ws w).
Proof.
  destruct ws as [|word ws]; [exact I|].
  unfold bounded. cbn [morseAfterChars sleep snd rest restAfterChars].
  split; [ms_pos|lia].
Qed.

Lemma morseAfterSymbols_bounded (cs : list ascii) (ws : list (list ascii))
  (w : World) :
  bounded (restAfterSymbols cs ws) (morseAfterSymbols cs ws w).
Proof.
  destruct cs as [|c cs]; [apply morseAfterChars_bounded|].
  unfold bounded. cbn [morseAfterSymbols sleep snd rest restAfterSymbols].
  split; [ms_pos|lia].
Qed.

Lemma morseSymbols_bounded (ss cs : list ascii) (ws : list (list ascii))
  (w : World) :
  bounded (restSymbols (restAfterSymbols cs ws) ss) (morseSymbols ss cs ws w).
Proof.
  destruct ss as [|s ss]; [apply morseAfterSymbols_bounded|].
  cbn [morseSymbols]. destruct (negb (morseActiveRef w)).
  - eapply bounded_le; [apply restSymbols_ge|apply morseAfterSymbols_bounded].
  - unfold bounded. cbn [sleep snd rest restSymbols].
    fold (symbolMs s). split; [apply symbolMs_pos|].
    destruct ss; lia.
Qed.

Lemma morseChars_bounded (cs : list ascii) (ws : list (list ascii))
  (w : World) :
  bounded (restChars (restAfterChars ws) cs) (morseChars cs ws w).
Proof.
  destruct cs as [|c cs]; [apply morseAfterChars_bounded|].
  cbn [morseChars]. destruct (negb (morseActiveRef w)).
  - eapply bounded_le; [apply restChars_ge|apply morseAfterChars_bounded].
  - cbn [restChars]. destruct (MORSE_CODE c) as [p|].
    + eapply bounded_le; [|apply morseSymbols_bounded].
      unfold restAfterSymbols. destruct cs; lia.
    + unfold bounded. cbn [sleep snd rest]. split; [ms_pos|lia].
Qed.

Lemma morseWords_bounded (ws : list (list ascii)) (w : World) :
  bounded (restWords ws) (morseWords ws w).
Proof.
  destruct ws as [|word ws]; [exact I|].
  cbn [morseWords]. destruct (negb (morseActiveRef w)); [exact I|].
  eapply bounded_le; [|apply morseChars_bounded].
  cbn [restWords]. unfold restAfterChars. destruct ws; lia.
Qed.

Lemma morseResume_bounded (pc : MorsePC) (w : World) :
  bounded (rest (MorseTask pc)) (morseResume pc w).
Proof.
  destruct pc as [ss cs ws|ss cs ws|cs ws|ws]; cbn [morseResume rest].
  - destruct ss as [|s ss]; [apply morseAfterSymbols_bounded|].
    unfold bounded. cbn [sleep snd rest]. split; [ms_pos|lia].
  - apply morseSymbols_bounded.
  - apply morseChars_bounded.
  - apply morseWords_bounded.
Qed.

Lemma bounded_within (B : Z) (r : World * Outcome MorsePC) :
  bounded B r -> within B (pendingMorse (snd r)).
Proof.
  unfold bounded, within. destruct (snd r) as [ms pc|]; cbn; intro H;
    constructor; [exact H|constructor].
Qed.

(** Resumed with the SOS flag clear, a function leaves behind only what
    ends within the time it had left, and does not set the flag. *)
Lemma resume_within (t : Task) (w : World) :
  sosActiveRef w = false ->
  sosActiveRef (fst (resume t w)) = false /\
  within (rest t) (snd (resume t w)).
Proof.
  intro H. destruct t as [pc|pc].
  - destruct w as [g fl sm mt it cc sr mr tr]. cbn in H. subst sr.
    unfold within.
    destruct pc; open_async; split_cases; split; try reflexivity;
      repeat constructor; cbn; unfold PAUSE; lia.
  - pose proof (morseResume_bounded pc w) as Bd.
    apply bounded_within in Bd. cbn [resume].
    destruct (morseResume pc w) as [w1 o] eqn:E. cbn [fst snd] in *.
    split; [|exact Bd].
    replace w1 with (fst (morseResume pc w)) by (rewrite E; reflexivity).
    clear E Bd. destruct w as [g fl sm mt it cc sr mr tr]. cbn in H. subst sr.
    destruct pc; open_async; split_cases; reflexivity.
Qed.

Lemma within_le (B B' : Z) (ts : list (Z * Task)) :
  B <= B' -> within B ts -> within B' ts.
Proof.
  unfold within. intros L H. eapply Forall_impl; [|exact H].
  cbn. intros a [? ?]. split; lia.
Qed.

Lemma fire_within (ts : list (Z * Task)) :
  forall (B : Z) (w : World),
    sosActiveRef w = false -> within B ts ->
    sosActiveRef (firedWorld ts w) = false /\
    within (B - 1) (stillRunning ts w) /\ within (B - 1) (newlySet ts w).
Proof.
  induction ts as [|[r t] ts IH]; intros B w S W.
  - split; [exact S|]. split; constructor.
  - inversion W as [|? ? [R1 R2] W']; subst. cbn [fst snd] in R1, R2.
    destruct (fired_cons r t ts w) as (-> & -> & ->).
    destruct (Z.leb_spec r 1) as [L|L].
    + destruct (resume_within t w S) as [S1 W1].
      destruct (IH B _ S1 W') as (S2 & W2 & W3).
      split; [exact S2|]. split; [exact W2|].
      unfold within. apply Forall_app. split; [|exact W3].
      eapply within_le; [|exact W1]. lia.
    + destruct (IH B _ S W') as (S2 & W2 & W3).
      split; [exact S2|]. split; [|exact W3]. constructor; [|exact W2].
      cbn [fst snd]. split; lia.
Qed.

Lemma elapse_within (n : nat) :
  forall (B : Z) (s : Sys),
    sosActiveRef (world s) = false -> within B (timers s) ->
    sosActiveRef (world (elapse n s)) = false /\
    within (B - Z.of_nat n) (timers (elapse n s)).
Proof.
  induction n as [|n IH]; intros B s S W.
  - cbn. split; [exact S|]. eapply within_le; [|exact W]. lia.
  - rewrite elapse_succ, tick_eq.
    destruct (fire_within (timers s) B (world s) S W) as (S1 & W1 & W2).
    destruct (IH (B - 1)
                (mkSys (firedWorld (timers s) (world s))
                   (stillRunning (timers s) (world s)
                    ++ newlySet (timers s) (world s))) S1)
      as [S2 W3].
    { unfold within. apply Forall_app. split; assumption. }
    split; [exact S2|]. eapply within_le; [|exact W3]. lia.
Qed.

Lemma within_nonpos (B : Z) (ts : list (Z * Task)) :
  B <= 0 -> within B ts -> ts = [].
Proof.
  intros L W. destruct ts as [|[r t] ts]; [reflexivity|].
  inversion W as [|? ? [R1 R2] _]; subst. cbn [fst snd] in R1, R2.
  pose proof (rest_nonneg t). lia.
Qed.

(** With the SOS flag clear, every pending function has returned once the
    bound of the timers has passed. *)
Lemma all_ended (B : Z) (n : nat) (s : Sys) :
  sosActiveRef (world s) = false -> within B (timers s) ->
  B <= Z.of_nat n -> timers (elapse n s) = [].
Proof.
  intros S W L. destruct (elapse_within n B s S W) as [_ W'].
  apply (within_nonpos (B - Z.of_nat n)); [lia|exact W'].
Qed.

(** ** Stop *)

Lemma fire_quiet (ts : list (Z * Task)) :
  forall w : World,
    Quiet w ->
    Quiet (firedWorld ts w) /\
    pulses (trace (firedWorld ts w)) = pulses (trace w).
Proof.
  induction ts as [|[r t] ts IH]; intros w Q; [split; [exact Q|reflexivity]|].
  destruct (fired_cons r t ts w) as (-> & _ & _). destruct (r <=? 1).
  - destruct (resume_quiet t w Q) as [Q1 P1].
    destruct (IH _ Q1) as [Q2 P2]. split; [exact Q2|congruence].
  - apply IH. exact Q.
Qed.

Lemma elapse_quiet (n : nat) :
  forall s : Sys,
    Quiet (world s) ->
    Quiet (world (elapse n s)) /\
    pulses (trace (world (elapse n s))) = pulses (trace (world s)).
Proof.
  induction n as [|n IH]; intros s Q; [split; [exact Q|reflexivity]|].
  rewrite elapse_succ, tick_eq.
  destruct (fire_quiet (timers s) (world s) Q) as [Q1 P1].
  destruct (IH (mkSys (firedWorld (timers s) (world s))
                  (stillRunning (timers s) (world s)
                   ++ newlySet (timers s) (world s))) Q1) as [Q2 P2].
  split; [exact Q2|]. rewrite P2. exact P1.
Qed.

(** Every loop iteration starts with the test of its flag: resumed with
    both flags clear, no function switches the torch on. *)
Lemma resume_dark (t : Task) (w : World) :
  sosActiveRef w = false -> morseActiveRef w = false ->
  pulses (trace (fst (resume t w))) = pulses (trace w).
Proof.
  destruct w as [g fl sm mt it cc sr mr tr]. cbn. intros -> ->.
  destruct t as [pc|pc]; destruct pc; open_async; split_cases;
    rewrite ?pulses_app; cbn; no_pulse.
Qed.

Lemma sosSleep_within (r : Z) (pc : SosPC) :
  1 <= r -> r <= sosSleep pc -> within 800 [(r, SosTask pc)].
Proof.
  intros L U. constructor; [|constructor]. cbn [fst snd]. split; [exact L|].
  destruct pc as [[| |] i|g i|[| |]]; cbn in *;
    unfold PAUSE, SHORT_FLASH, LONG_FLASH, PATTERN_PAUSE in *; lia.
Qed.

(** C3. Stop called at any point of a running transmission - whatever
    functions are pending, in whatever await, with whatever time left to
    sleep - leaves the device off and the state Idle at once and at every
    later millisecond, and no light pulse is emitted any more: every loop
    iteration tests the flag before it switches the torch on.  A cancelled
    SOS loop has returned within 800 ms; a cancelled Morse loop returns
    within its current sleep and the pauses that were to follow it. *)
Theorem C3_cancellation :
  (forall (w : World) (ts : list (Z * Task)),
     RunningSOS w ->
     let s := exec StopSOS (mkSys w ts) in
     forall n : nat,
       let s' := elapse n s in
       isFlashlightOn (world s') = false /\ Idle (world s') /\
       pulses (trace (world s')) = pulses (trace w)) /\
  (forall (w : World) (ts : list (Z * Task)),
     RunningMorse w ->
     let s := exec StopMorse (mkSys w ts) in
     forall n : nat,
       let s' := elapse n s in
       isFlashlightOn (world s') = false /\ Idle (world s') /\
       pulses (trace (world s')) = pulses (trace w)) /\
  (forall (t : Task) (w : World),
     sosActiveRef w = false -> morseActiveRef w = false ->
     pulses (trace (fst (resume t w))) = pulses (trace w)) /\
  (forall (w : World) (pc : SosPC) (r : Z) (n : nat),
     RunningSOS w -> 1 <= r -> r <= sosSleep pc -> 800 <= Z.of_nat n ->
     timers (elapse n (exec StopSOS (mkSys w [(r, SosTask pc)]))) = []) /\
  (forall (w : World) (pc : MorsePC) (r : Z) (n : nat),
     RunningMorse w -> 1 <= r -> r + rest (MorseTask pc) <= Z.of_nat n ->
     timers (elapse n (exec StopMorse (mkSys w [(r, MorseTask pc)]))) = []).
Proof.
  split; [|split; [|split; [exact resume_dark|split]]].
  - intros w ts (Sm & Sr & It & Mr) s n s'.
    assert (Q : Quiet (world s)).
    { subst s. unfold Quiet, Idle. cbn. repeat split; assumption. }
    destruct (elapse_quiet n s Q) as [[I F] P]. fold s' in I, F, P.
    split; [exact F|]. split; [exact I|].
    rewrite P. subst s. cbn. rewrite pulses_app. no_pulse.
  - intros w ts (It & Mr & Sm & Sr) s n s'.
    assert (Q : Quiet (world s)).
    { subst s. unfold Quiet, Idle. cbn. repeat split; assumption. }
    destruct (elapse_quiet n s Q) as [[I F] P]. fold s' in I, F, P.
    split; [exact F|]. split; [exact I|].
    rewrite P. subst s. cbn. rewrite pulses_app. no_pulse.
  - intros w pc r n _ L U H.
    apply (all_ended 800); [reflexivity| |exact H].
    apply sosSleep_within; assumption.
  - intros w pc r n (_ & _ & _ & Sr) L H.
    apply (all_ended (r + rest (MorseTask pc))); [exact Sr| |exact H].
    constructor; [|constructor]. cbn [fst snd]. split; [exact L|lia].
Qed.

Lemma C3_cancellation_witness :
  let sos := fst (startSOS (mount true)) in
  let morse := fst (transmitMorseWithText "SOS" (mount true)) in
  let pcS := SosFlash Dots1 0 in
  let pcM := MorseFlash [".";"."]%char ["O";"S"]%char [] in
  (let s' := elapse 800 (exec StopSOS (mkSys sos [(150, SosTask pcS)])) in
   isFlashlightOn (world s') = false /\ Idle (world s') /\
   pulses (trace (world s')) = pulses (trace sos)) /\
  (let s' := elapse 600 (exec StopMorse (mkSys morse [(150, MorseTask pcM)])) in
   isFlashlightOn (world s') = false /\ Idle (world s') /\
   pulses (trace (world s')) = pulses (trace morse)) /\
  pulses (trace (fst (resume (SosTask pcS) (mount true))))
    = pulses (trace (mount true)) /\
  timers (elapse 800 (exec StopSOS (mkSys sos [(150, SosTask pcS)]))) = [] /\
  timers (elapse (Z.to_nat 6000)
            (exec StopMorse (mkSys morse [(150, MorseTask pcM)])))
    = [].
Proof.
  assert (RS : RunningSOS (fst (startSOS (mount true))))
    by (unfold RunningSOS; repeat split; reflexivity).
  assert (RM : RunningMorse (fst (transmitMorseWithText "SOS" (mount true))))
    by (unfold RunningMorse; repeat split; reflexivity).
  destruct C3_cancellation as (A & B & C & D & E).
  cbv zeta. split; [|split; [|split; [|split]]].
  - apply (A _ _ RS).
  - apply (B _ _ RM).
  - apply C; reflexivity.
  - apply (D _ _ _ _ RS); apply Z.leb_le; reflexivity.
  - apply (E _ _ _ _ RM); apply Z.leb_le; reflexivity.
Defined.

(** ** One transmission at a time *)

Ltac has_task := eexists; eexists; left; reflexivity.

Lemma resume_consistent (t : Task) (w : World) :
  Exclusive w ->
  Exclusive (fst (resume t w)) /\
  (sosMode (fst (resume t w)) = true ->
   sosMode w = true /\
   ((exists pc, t = SosTask pc) -> hasSos (snd (resume t w)))) /\
  (isTransmitting (fst (resume t w)) = true ->
   isTransmitting w = true /\
   ((exists pc, t = MorseTask pc) -> hasMorse (snd (resume t w)))).
Proof.
  destruct w as [g fl sm mt it cc sr mr tr].
  unfold Exclusive. cbn. intros (-> & -> & E).
  destruct sm, it; try discriminate E;
    destruct t as [pc|pc]; destruct pc; open_async; split_cases;
    repeat split; try reflexivity; try discriminate;
    intros; try has_task;
    match goal with H : exists _, _ = _ |- _ => destruct H; discriminate end.
Qed.

Lemma hasSos_app (a b : list (Z * Task)) :
  hasSos a \/ hasSos b -> hasSos (a ++ b).
Proof.
  unfold hasSos. intros [(r & pc & H)|(r & pc & H)]; exists r, pc;
    apply in_or_app; auto.
Qed.

Lemma hasMorse_app (a b : list (Z * Task)) :
  hasMorse a \/ hasMorse b -> hasMorse (a ++ b).
Proof.
  unfold hasMorse. intros [(r & pc & H)|(r & pc & H)]; exists r, pc;
    apply in_or_app; auto.
Qed.

Lemma hasSos_cons (rt : Z * Task) (ts : list (Z * Task)) :
  hasSos ts -> hasSos (rt :: ts).
Proof. intros (r & pc & H). exists r, pc. right. exact H. Qed.

Lemma hasMorse_cons (rt : Z * Task) (ts : list (Z * Task)) :
  hasMorse ts -> hasMorse (rt :: ts).
Proof. intros (r & pc & H). exists r, pc. right. exact H. Qed.

Lemma fire_consistent (ts : list (Z * Task)) :
  forall w : World,
    Exclusive w ->
    Exclusive (firedWorld ts w) /\
    (sosMode (firedWorld ts w) = true ->
     sosMode w = true /\
     (hasSos ts -> hasSos (stillRunning ts w) \/ hasSos (newlySet ts w))) /\
    (isTransmitting (firedWorld ts w) = true ->
     isTransmitting w = true /\
     (hasMorse ts ->
      hasMorse (stillRunning ts w) \/ hasMorse (newlySet ts w))).
Proof.
  induction ts as [|[r t] ts IH]; intros w X.
  - cbn. split; [exact X|]. split; intro; split; auto.
  - destruct (fired_cons r t ts w) as (-> & -> & ->). destruct (r <=? 1).
    + destruct (resume_consistent t w X) as (X1 & S1 & M1).
      destruct (IH _ X1) as (X2 & S2 & M2).
      split; [exact X2|]. split.
      * intro H. destruct (S2 H) as [H1 K2]. destruct (S1 H1) as [H0 K1].
        split; [exact H0|]. intros (r0 & pc & [E|Hin]).
        -- inversion E; subst. right. apply hasSos_app. left. apply K1. eauto.
        -- destruct K2 as [K2|K2]; [exists r0, pc; exact Hin|left; exact K2|].
           right. apply hasSos_app. right. exact K2.
      * intro H. destruct (M2 H) as [H1 K2]. destruct (M1 H1) as [H0 K1].
        split; [exact H0|]. intros (r0 & pc & [E|Hin]).
        -- inversion E; subst. right. apply hasMorse_app. left. apply K1. eauto.
        -- destruct K2 as [K2|K2]; [exists r0, pc; exact Hin|left; exact K2|].
           right. apply hasMorse_app. right. exact K2.
    + destruct (IH _ X) as (X2 & S2 & M2).
      split; [exact X2|]. split.
      * intro H. destruct (S2 H) as [H1 K2]. split; [exact H1|].
        intros (r0 & pc & [E|Hin]).
        -- inversion E; subst. left. exists (r0 - 1), pc. left. reflexivity.
        -- destruct K2 as [K2|K2]; [exists r0, pc; exact Hin| |right; exact K2].
           left. apply hasSos_cons. exact K2.
      * intro H. destruct (M2 H) as [H1 K2]. split; [exact H1|].
        intros (r0 & pc & [E|Hin]).
        -- inversion E; subst. left. exists (r0 - 1), pc. left. reflexivity.
        -- destruct K2 as [K2|K2]; [exists r0, pc; exact Hin| |right; exact K2].
           left. apply hasMorse_cons. exact K2.
Qed.

Lemma tick_consistent (s : Sys) : Consistent s -> Consistent (tick s).
Proof.
  intros (X & S & M). rewrite tick_eq.
  destruct (fire_consistent (timers s) (world s) X) as (X1 & S1 & M1).
  split; [exact X1|]. cbn [world timers]. split; intro H.
  - destruct (S1 H) as [H0 K]. apply hasSos_app, K, S, H0.
  - destruct (M1 H) as [H0 K]. apply hasMorse_app, K, M, H0.
Qed.

Lemma elapse_consistent (n : nat) (s : Sys) :
  Consistent s -> Consistent (elapse n s).
Proof.
  revert s. induction n as [|n IH]; intros s C; [exact C|].
  rewrite elapse_succ. apply IH, tick_consistent, C.
Qed.

Lemma startSOS_consistent (w : World) :
  Exclusive w ->
  Exclusive (fst (startSOS w)) /\
  (sosMode (fst (startSOS w)) = true ->
   sosMode w = true \/ hasSos (pendingSos (snd (startSOS w)))) /\
  (isTransmitting (fst (startSOS w)) = true -> isTransmitting w = true).
Proof.
  destruct w as [g fl sm mt it cc sr mr tr].
  unfold Exclusive, startSOS. cbn. intros (-> & -> & E).
  destruct g, sm, it; try discriminate E; cbn;
    repeat split; try reflexivity; try discriminate; intros; auto;
    right; has_task.
Qed.

Lemma morseWords_consistent (words : list (list ascii)) (w : World) :
  Exclusive w -> morseActiveRef w = true ->
  Exclusive (fst (morseWords words w)) /\
  sosMode (fst (morseWords words w)) = sosMode w /\
  (isTransmitting (fst (morseWords words w)) = true ->
   hasMorse (pendingMorse (snd (morseWords words w)))).
Proof.
  destruct w as [g fl sm mt it cc sr mr tr].
  unfold Exclusive. cbn. intros (-> & -> & E) ->.
  destruct sm; try discriminate E;
    open_async; split_cases;
    repeat split; try reflexivity; try discriminate; intros; has_task.
Qed.

Lemma transmit_consistent (text : string) (w : World) :
  Exclusive w ->
  Exclusive (fst (transmitMorseWithText text w)) /\
  (sosMode (fst (transmitMorseWithText text w)) = true -> sosMode w = true) /\
  (isTransmitting (fst (transmitMorseWithText text w)) = true ->
   isTransmitting w = true \/
   hasMorse (pendingMorse (snd (transmitMorseWithText text w)))).
Proof.
  intro X. unfold transmitMorseWithText.
  destruct (negb (granted w)); [|destruct (isBlank text)].
  - cbn. split; [exact X|]. split; auto.
  - cbn. split; [exact X|]. split; auto.
  - set (w0 := setCurrentChar None
                 (setMorseActiveRef true
                    (setIsTransmitting true
                       (if sosMode w then stopSOS w else w)))).
    assert (X0 : Exclusive w0 /\ sosMode w0 = false).
    { subst w0. destruct w as [g fl sm mt it cc sr mr tr].
      unfold Exclusive in *. cbn in *. destruct X as (-> & -> & E).
      destruct sm; cbn; repeat split; reflexivity. }
    destruct X0 as [X0 S0].
    destruct (morseWords_consistent (wordsOf text) w0 X0 eq_refl)
      as (X1 & S1 & M1).
    split; [exact X1|]. split.
    + intro H. rewrite S1, S0 in H. discriminate.
    + intro H. right. apply M1, H.
Qed.

Lemma exec_consistent (c : Cmd) (s : Sys) : Consistent s -> Consistent (exec c s).
Proof.
  intros (X & S & M).
  assert (StopS : Consistent (mkSys (stopSOS (world s)) (timers s))).
  { destruct s as [[g fl sm mt it cc sr mr tr] ts].
    unfold Consistent, Exclusive in *. cbn in *.
    destruct X as (-> & -> & E). repeat split; auto; discriminate. }
  assert (StartS : Consistent
            (mkSys (fst (startSOS (world s)))
                   (timers s ++ pendingSos (snd (startSOS (world s)))))).
  { destruct (startSOS_consistent (world s) X) as (X1 & S1 & M1).
    split; [exact X1|]. cbn [world timers]. split; intro H.
    - apply hasSos_app. destruct (S1 H); auto.
    - apply hasMorse_app. left. apply M, M1, H. }
  assert (Tx : forall text,
            Consistent
              (mkSys (fst (transmitMorseWithText text (world s)))
                 (timers s
                  ++ pendingMorse (snd (transmitMorseWithText text (world s)))))).
  { intro text.
    destruct (transmit_consistent text (world s) X) as (X1 & S1 & M1).
    split; [exact X1|]. cbn [world timers]. split; intro H.
    - apply hasSos_app. left. apply S, S1, H.
    - apply hasMorse_app. destruct (M1 H); auto. }
  destruct c; cbn [exec].
  - destruct s as [[g fl sm mt it cc sr mr tr] ts].
    unfold Consistent, Exclusive, toggleFlashlight in *. cbn in *.
    destruct g; cbn; [destruct (sm || it); cbn|]; auto.
  - destruct (startSOS (world s)); exact StartS.
  - exact StopS.
  - destruct (sosMode (world s)); [exact StopS|].
    destruct (startSOS (world s)); exact StartS.
  - destruct s as [[g fl sm mt it cc sr mr tr] ts]. exact (conj X (conj S M)).
  - unfold transmitMorse. destruct (isBlank (morseText (world s))).
    + destruct s as [[g fl sm mt it cc sr mr tr] ts].
      unfold Consistent, Exclusive in *. cbn in *. rewrite app_nil_r. auto.
    + specialize (Tx (morseText (world s))).
      destruct (transmitMorseWithText (morseText (world s)) (world s)).
      exact Tx.
  - specialize (Tx text).
    destruct (transmitMorseWithText text (world s)). exact Tx.
  - destruct s as [[g fl sm mt it cc sr mr tr] ts].
    unfold Consistent, Exclusive in *. cbn in *.
    destruct X as (-> & -> & E).
    repeat split; auto; try discriminate. apply andb_false_r.
Qed.

Lemma run_consistent (inputs : list Input) :
  forall s : Sys, Consistent s -> Consistent (run s inputs).
Proof.
  induction inputs as [|i inputs IH]; intros s C; [exact C|].
  cbn [run fold_left]. apply IH. destruct i; cbn [step].
  - apply tick_consistent, C.
  - apply exec_consistent, C.
Qed.

Lemma consistent_idle (s : Sys) :
  Consistent s -> timers s = [] -> Idle (world s).
Proof.
  intros ((R1 & R2 & _) & S & M) E. rewrite E in S, M. unfold Idle.
  assert (A : sosMode (world s) = false).
  { destruct (sosMode (world s)); [|reflexivity].
    destruct (S eq_refl) as (r & pc & []). }
  assert (B : isTransmitting (world s) = false).
  { destruct (isTransmitting (world s)); [|reflexivity].
    destruct (M eq_refl) as (r & pc & []). }
  repeat split; congruence.
Qed.

(** A function that returns has switched the torch off. *)
Lemma resume_return_dark (t : Task) (w : World) :
  snd (resume t w) = [] -> isFlashlightOn (fst (resume t w)) = false.
Proof.
  destruct w as [g fl sm mt it cc sr mr tr].
  destruct t as [pc|pc]; destruct pc; open_async; split_cases;
    intro H; try reflexivity; discriminate H.
Qed.

Lemma fire_return_dark (ts : list (Z * Task)) :
  forall w : World,
    ts <> [] -> stillRunning ts w ++ newlySet ts w = [] ->
    isFlashlightOn (firedWorld ts w) = false.
Proof.
  induction ts as [|[r t] ts IH]; intros w N E; [contradiction|].
  destruct (fired_cons r t ts w) as (Ew & Er & Es).
  rewrite Ew, Er, Es in *. clear Ew Er Es.
  destruct (r <=? 1); [|discriminate E].
  apply app_eq_nil in E. destruct E as [E1 E2].
  apply app_eq_nil in E2. destruct E2 as [E2 E3].
  destruct ts as [|rt ts]; [exact (resume_return_dark t w E2)|].
  apply IH; [discriminate|]. rewrite E1, E3. reflexivity.
Qed.

Lemma tick_lit (s : Sys) : Lit s -> Lit (tick s).
Proof.
  unfold Lit. intros L H E. rewrite tick_eq in H, E. cbn [world timers] in *.
  destruct (timers s) as [|rt ts] eqn:T.
  - cbn in H. apply (L H). reflexivity.
  - rewrite (fire_return_dark (rt :: ts) (world s)) in H;
      [discriminate|discriminate|exact E].
Qed.

Lemma elapse_lit (n : nat) (s : Sys) : Lit s -> Lit (elapse n s).
Proof.
  revert s. induction n as [|n IH]; intros s L; [exact L|].
  rewrite elapse_succ. apply IH, tick_lit, L.
Qed.

(** What a started function does first only adds to the trace. *)
Lemma morseWords_first (words : list (list ascii)) (w : World) :
  exists evs, trace (fst (morseWords words w)) = trace w ++ evs.
Proof.
  destruct w as [g fl sm mt it cc sr mr tr].
  open_async; split_cases; rewrite <- ?app_assoc;
    first [ eexists; reflexivity | exists []; symmetry; apply app_nil_r ].
Qed.

Lemma morseWords_sos (words : list (list ascii)) (w : World) :
  sosActiveRef (fst (morseWords words w)) = sosActiveRef w /\
  sosMode (fst (morseWords words w)) = sosMode w.
Proof.
  destruct w as [g fl sm mt it cc sr mr tr].
  open_async; split_cases; split; reflexivity.
Qed.

Lemma exec_transmit (text : string) (w : World) (ts : list (Z * Task)) :
  exec (TransmitMorseWithText text) (mkSys w ts)
  = mkSys (fst (transmitMorseWithText text w))
      (ts ++ pendingMorse (snd (transmitMorseWithText text w))).
Proof.
  cbn [exec world timers]. destruct (transmitMorseWithText text w).
  reflexivity.
Qed.

Lemma transmit_while_sos (text : string) (w : World) :
  granted w = true -> isBlank text = false -> sosMode w = true ->
  transmitMorseWithText text w
  = morseWords (wordsOf text)
      (setCurrentChar None
         (setMorseActiveRef true (setIsTransmitting true (stopSOS w)))).
Proof.
  intros G B S. unfold transmitMorseWithText. rewrite G, B, S. reflexivity.
Qed.

(** *** Every function ends once SOS is off *)

Lemma resume_delays (t : Task) (w : World) : wellTimed (snd (resume t w)).
Proof.
  destruct t as [pc|pc].
  - destruct w as [g fl sm mt it cc sr mr tr]. unfold wellTimed.
    destruct pc as [[| |] i|[| |] i|[| |]]; open_async; split_cases;
      repeat (once constructor); cbn;
      unfold PAUSE, SHORT_FLASH, LONG_FLASH, PATTERN_PAUSE; lia.
  - pose proof (morseResume_bounded pc w) as Bd. cbn [resume].
    destruct (morseResume pc w) as [w1 [ms pc1|]]; cbn [snd pendingMorse];
      [|constructor].
    unfold bounded in Bd. cbn [snd] in Bd. repeat constructor. apply Bd.
Qed.

Lemma fire_delays (ts : list (Z * Task)) :
  forall w : World,
    wellTimed ts ->
    wellTimed (stillRunning ts w) /\ wellTimed (newlySet ts w).
Proof.
  induction ts as [|[r t] ts IH]; intros w W; [split; constructor|].
  inversion W as [|? ? R W']; subst. cbn [fst] in R.
  destruct (fired_cons r t ts w) as (_ & -> & ->).
  destruct (Z.leb_spec r 1) as [L|L].
  - destruct (IH (fst (resume t w)) W') as [A B]. split; [exact A|].
    unfold wellTimed. apply Forall_app. split; [apply resume_delays|exact B].
  - destruct (IH w W') as [A B]. split; [|exact B].
    constructor; [cbn [fst]; lia|exact A].
Qed.

Lemma tick_delays (s : Sys) : wellTimed (timers s) -> wellTimed (timers (tick s)).
Proof.
  intro W. rewrite tick_eq. cbn [timers].
  destruct (fire_delays (timers s) (world s) W) as [A B].
  unfold wellTimed. apply Forall_app. split; assumption.
Qed.

Lemma startSOS_delays (w : World) : wellTimed (pendingSos (snd (startSOS w))).
Proof.
  destruct w as [g fl sm mt it cc sr mr tr]. unfold wellTimed, startSOS.
  cbn. destruct g; cbn; repeat (once constructor).
  cbn. unfold SHORT_FLASH. lia.
Qed.

Lemma transmit_delays (text : string) (w : World) :
  wellTimed (pendingMorse (snd (transmitMorseWithText text w))).
Proof.
  unfold transmitMorseWithText.
  destruct (negb (granted w)); [constructor|].
  destruct (isBlank text); [constructor|].
  match goal with
  | |- wellTimed (pendingMorse (snd (morseWords ?ws ?w0))) =>
      pose proof (morseWords_bounded ws w0) as Bd;
      destruct (morseWords ws w0) as [w1 [ms pc1|]]
  end; cbn [snd pendingMorse]; [|constructor].
  unfold bounded in Bd. cbn [snd] in Bd. repeat constructor. apply Bd.
Qed.

Lemma exec_delays (c : Cmd) (s : Sys) :
  wellTimed (timers s) -> wellTimed (timers (exec c s)).
Proof.
  intro W.
  assert (S : wellTimed (timers s ++ pendingSos (snd (startSOS (world s)))))
    by (apply Forall_app; split; [exact W|apply startSOS_delays]).
  assert (M : forall text,
            wellTimed (timers s ++ pendingMorse
                         (snd (transmitMorseWithText text (world s)))))
    by (intro text; apply Forall_app; split; [exact W|apply transmit_delays]).
  destruct c; cbn [exec]; try exact W.
  - destruct (startSOS (world s)); exact S.
  - destruct (sosMode (world s)); [exact W|].
    destruct (startSOS (world s)); exact S.
  - unfold transmitMorse. destruct (isBlank (morseText (world s))).
    + cbn [timers pendingMorse]. rewrite app_nil_r. exact W.
    + specialize (M (morseText (world s))).
      destruct (transmitMorseWithText (morseText (world s)) (world s)).
      exact M.
  - specialize (M text).
    destruct (transmitMorseWithText text (world s)). exact M.
Qed.

Lemma run_delays (inputs : list Input) :
  forall s : Sys, wellTimed (timers s) -> wellTimed (timers (run s inputs)).
Proof.
  induction inputs as [|i inputs IH]; intros s W; [exact W|].
  cbn [run fold_left]. apply IH. destruct i; cbn [step].
  - apply tick_delays, W.
  - apply exec_delays, W.
Qed.

Lemma elapse_delays (n : nat) (s : Sys) :
  wellTimed (timers s) -> wellTimed (timers (elapse n s)).
Proof.
  revert s. induction n as [|n IH]; intros s W; [exact W|].
  rewrite elapse_succ. apply IH, tick_delays, W.
Qed.

Lemma wellTimed_within (ts : list (Z * Task)) :
  wellTimed ts -> exists B : Z, within B ts.
Proof.
  induction ts as [|[r t] ts IH]; intro W; [exists 0; constructor|].
  inversion W as [|? ? R W']; subst. cbn [fst] in R.
  destruct (IH W') as [B HB].
  exists (Z.max B (r + rest t)). constructor.
  - cbn [fst snd]. split; [exact R|lia].
  - eapply within_le; [|exact HB]. lia.
Qed.

(** With SOS off and nobody calling, every pending function returns, and
    from then on the state is Idle; the device is then off if it was only
    on for a pending function. *)
Lemma eventually_idle (s : Sys) :
  Consistent s -> wellTimed (timers s) -> sosActiveRef (world s) = false ->
  exists N : nat,
    forall n : nat, (N <= n)%nat ->
      timers (elapse n s) = [] /\ Idle (world (elapse n s)) /\
      (Lit s -> isFlashlightOn (world (elapse n s)) = false).
Proof.
  intros C W R. destruct (wellTimed_within _ W) as [B HB].
  exists (Z.to_nat B). intros n Hn.
  assert (E : timers (elapse n s) = [])
    by (apply (all_ended B); [exact R|exact HB|lia]).
  split; [exact E|]. split.
  - apply consistent_idle; [apply elapse_consistent, C|exact E].
  - intro Li. pose proof (elapse_lit n s Li) as Ln. unfold Lit in Ln.
    destruct (isFlashlightOn (world (elapse n s))); [|reflexivity].
    exfalso. apply (Ln eq_refl E).
Qed.

(** While the SOS flag is set, time leaves the SOS mode on. *)
Lemma resume_sos_on (t : Task) (w : World) :
  sosActiveRef w = true ->
  sosActiveRef (fst (resume t w)) = true /\
  sosMode (fst (resume t w)) = sosMode w.
Proof.
  destruct w as [g fl sm mt it cc sr mr tr]. cbn. intros ->.
  destruct t as [pc|pc]; destruct pc; open_async; split_cases;
    split; reflexivity.
Qed.

Lemma fire_sos_on (ts : list (Z * Task)) :
  forall w : World,
    sosActiveRef w = true ->
    sosActiveRef (firedWorld ts w) = true /\
    sosMode (firedWorld ts w) = sosMode w.
Proof.
  induction ts as [|[r t] ts IH]; intros w R; [split; [exact R|reflexivity]|].
  destruct (fired_cons r t ts w) as (-> & _ & _). destruct (r <=? 1).
  - destruct (resume_sos_on t w R) as [R1 M1].
    destruct (IH _ R1) as [R2 M2]. split; [exact R2|congruence].
  - apply IH, R.
Qed.

Lemma elapse_sos_on (n : nat) :
  forall s : Sys,
    sosActiveRef (world s) = true ->
    sosActiveRef (world (elapse n s)) = true /\
    sosMode (world (elapse n s)) = sosMode (world s).
Proof.
  induction n as [|n IH]; intros s R; [split; [exact R|reflexivity]|].
  rewrite elapse_succ, tick_eq.
  destruct (fire_sos_on (timers s) (world s) R) as [R1 M1].
  destruct (IH (mkSys (firedWorld (timers s) (world s))
                  (stillRunning (timers s) (world s)
                   ++ newlySet (timers s) (world s))) R1) as [R2 M2].
  split; [exact R2|]. rewrite M2. exact M1.
Qed.

(** The specification's example: SOS has run for 100 ms, in its first
    flash, when "A" is sent. *)
Lemma morse_A_while_sos :
  let s0 := elapse 100 (exec StartSOS (start true)) in
  let s := exec (TransmitMorseWithText "A") s0 in
  RunningSOS (world s0) /\ isFlashlightOn (world s0) = true /\
  trace (world s) = trace (world s0) ++ [Torch false; Torch true; Sleep 200] /\
  sosMode (world s) = false /\ isTransmitting (world s) = true /\
  timers (elapse 1000 s) = [] /\ Idle (world (elapse 1000 s)) /\
  isFlashlightOn (world (elapse 1000 s)) = false.
Proof. vm_compute. repeat split. Qed.

(** C2, at the calls where the code fails it.  SOS is started, and 100
    ms into its first flash transmitMorseWithText("A") is called.  The
    handler calls stopSOS and starts the dot before it reaches an await:
    the state the component holds has the torch on before the call and on
    after it, so that the device is never off between the two modes.  The
    cancelled startSOS is still pending in its sleep, next to the new
    function: 100 ms later it resumes and switches the torch off, in the
    middle of the 200 ms dot, which the device shows for 100 ms only.
    The other way round, startSOS called 100 ms into the dash of "T"
    leaves the cancelled transmitMorseWithText pending, which returns 500
    ms later and switches the torch off in the middle of the second SOS
    flash.  On the screen the buttons of one mode are disabled while the
    other mode is on, and the same is reached with the buttons that are
    enabled: "T" is typed and sent, cancelled after 100 ms, and the SOS
    button is pressed at once; the cancelled function is still pending
    and cuts the second SOS flash 500 ms later. *)
Theorem C2_cancelled_loop_cuts_first_pulse :
  (let s0 := elapse 100 (exec StartSOS (start true)) in
   let s := exec (TransmitMorseWithText "A") s0 in
   (RunningSOS (world s0) /\ isFlashlightOn (world s0) = true /\
    timers s0 = [(100, SosTask (SosFlash Dots1 0))]) /\
   (RunningMorse (world s) /\ isFlashlightOn (world s) = true /\
    timers s = [(100, SosTask (SosFlash Dots1 0));
                (200, MorseTask (MorseFlash ["-"%char] [] []))]) /\
   isFlashlightOn (world (elapse 99 s)) = true /\
   (isFlashlightOn (world (elapse 100 s)) = false /\
    timers (elapse 100 s) = [(100, MorseTask (MorseFlash ["-"%char] [] []));
                             (200, SosTask (SosPause Dots1 0))] /\
    trace (world (elapse 100 s))
    = trace (world s) ++ [Torch false; Sleep 200])) /\
  (let s0 := elapse 100 (exec (TransmitMorseWithText "T") (start true)) in
   let s := exec StartSOS s0 in
   (RunningMorse (world s0) /\ isFlashlightOn (world s0) = true /\
    timers s0 = [(500, MorseTask (MorseFlash [] [] []))]) /\
   (RunningSOS (world s) /\ isFlashlightOn (world s) = true /\
    timers s = [(500, MorseTask (MorseFlash [] [] []));
                (200, SosTask (SosFlash Dots1 0))]) /\
   (isFlashlightOn (world (elapse 499 s)) = true /\
    timers (elapse 499 s) = [(1, MorseTask (MorseFlash [] [] []));
                             (101, SosTask (SosFlash Dots1 1))]) /\
   (isFlashlightOn (world (elapse 500 s)) = false /\
    timers (elapse 500 s) = [(100, SosTask (SosFlash Dots1 1))])) /\
  (let sc0 := FlashlightScreen.mkScreen (start true) true false in
   let typed := FlashlightScreen.act sc0
                  (FlashlightScreen.Use (FlashlightScreen.MessageInput "T")) in
   let sent := FlashlightScreen.session typed
                 (FlashlightScreen.Use FlashlightScreen.TransmitTextButton
                  :: repeat FlashlightScreen.Wait 100) in
   let cancelled := FlashlightScreen.act sent
                      (FlashlightScreen.Use FlashlightScreen.CancelButton) in
   let sos := FlashlightScreen.act cancelled
                (FlashlightScreen.Use FlashlightScreen.SosButton) in
   let later (n : nat) :=
     FlashlightScreen.sys
       (FlashlightScreen.session sos (repeat FlashlightScreen.Wait n)) in
   (FlashlightScreen.usable (FlashlightScreen.MessageInput "T") sc0 = true /\
    FlashlightScreen.usable FlashlightScreen.TransmitTextButton typed = true /\
    FlashlightScreen.usable FlashlightScreen.CancelButton sent = true /\
    FlashlightScreen.usable FlashlightScreen.SosButton cancelled = true) /\
   (Idle (world (FlashlightScreen.sys cancelled)) /\
    timers (FlashlightScreen.sys cancelled)
    = [(500, MorseTask (MorseFlash [] [] []))]) /\
   (RunningSOS (world (FlashlightScreen.sys sos)) /\
    timers (FlashlightScreen.sys sos)
    = [(500, MorseTask (MorseFlash [] [] []));
       (200, SosTask (SosFlash Dots1 0))]) /\
   (isFlashlightOn (world (later 499%nat)) = true /\
    timers (later 499%nat) = [(1, MorseTask (MorseFlash [] [] []));
                              (101, SosTask (SosFlash Dots1 1))]) /\
   (isFlashlightOn (world (later 500%nat)) = false /\
    timers (later 500%nat) = [(100, SosTask (SosFlash Dots1 1))])).
Proof. vm_compute. repeat split. Qed.

(** X28.  The two modes exclude each other as far as the mode states
    and the flags go.  In every state reached from the mounted component
    by calls and waits, each flag equals its mode and sosMode and
    isTransmitting are never both on; when no function is pending the
    state is Idle; with SOS off every pending function returns after a
    bounded time and leaves Idle.  A Morse transmission started while SOS
    runs leaves sosMode off at every later millisecond and ends Idle with
    the torch off; SOS started while Morse runs leaves isTransmitting off
    and sosMode on at every later millisecond, until it is stopped. *)
Theorem X28_mode_flags_exclusive :
  (forall (g : bool) (inputs : list Input),
     let s := run (start g) inputs in
     Exclusive (world s) /\ (timers s = [] -> Idle (world s)) /\
     (sosMode (world s) = false ->
      exists N : nat,
        forall n : nat, (N <= n)%nat ->
          timers (elapse n s) = [] /\ Idle (world (elapse n s)))) /\
  (forall (text : string) (w : World) (pc : SosPC) (r : Z),
     granted w = true -> isBlank text = false -> RunningSOS w ->
     1 <= r -> r <= sosSleep pc ->
     let s := exec (TransmitMorseWithText text) (mkSys w [(r, SosTask pc)]) in
     (forall n : nat,
        Exclusive (world (elapse n s)) /\
        sosMode (world (elapse n s)) = false) /\
     exists N : nat,
       forall n : nat, (N <= n)%nat ->
         timers (elapse n s) = [] /\ Idle (world (elapse n s)) /\
         isFlashlightOn (world (elapse n s)) = false) /\
  (forall (w : World) (pc : MorsePC) (r : Z),
     granted w = true -> RunningMorse w -> 1 <= r ->
     let s := exec StartSOS (mkSys w [(r, MorseTask pc)]) in
     (forall n : nat,
        Exclusive (world (elapse n s)) /\
        sosMode (world (elapse n s)) = true /\
        isTransmitting (world (elapse n s)) = false) /\
     forall m : nat,
       exists N : nat,
         forall n : nat, (N <= n)%nat ->
           let s' := elapse n (exec StopSOS (elapse m s)) in
           timers s' = [] /\ Idle (world s') /\
           isFlashlightOn (world s') = false).
Proof.
  split; [|split].
  - intros g inputs s.
    assert (C : Consistent s).
    { apply run_consistent. unfold Consistent, Exclusive. cbn.
      repeat split; discriminate. }
    assert (W : wellTimed (timers s)) by (apply run_delays; constructor).
    split; [apply C|]. split; [apply consistent_idle, C|].
    intro Sm.
    assert (R : sosActiveRef (world s) = false).
    { destruct C as ((X & _) & _). congruence. }
    destruct (eventually_idle s C W R) as [N HN].
    exists N. intros n Hn. destruct (HN n Hn) as (E & I & _). auto.
  - intros text w pc r G B Run L U s.
    pose proof Run as (Sm & Sr & It & Mr).
    assert (C : Consistent s).
    { apply exec_consistent. unfold Consistent, Exclusive.
      cbn [world timers]. rewrite Sm, Sr, It, Mr.
      repeat split; try discriminate. intros _. has_task. }
    assert (W : wellTimed (timers s)).
    { apply exec_delays. repeat constructor. exact L. }
    assert (Es : s = mkSys (fst (transmitMorseWithText text w))
                   ([(r, SosTask pc)]
                    ++ pendingMorse (snd (transmitMorseWithText text w))))
      by apply exec_transmit.
    rewrite (transmit_while_sos text w G B Sm) in Es.
    set (w0 := setCurrentChar None
                 (setMorseActiveRef true (setIsTransmitting true (stopSOS w))))
      in Es.
    assert (Ref : sosActiveRef (world s) = false).
    { rewrite Es. cbn [world].
      rewrite (proj1 (morseWords_sos (wordsOf text) w0)). reflexivity. }
    assert (Li : Lit s) by (intros _; rewrite Es; discriminate).
    split.
    + intro n. pose proof (elapse_consistent n s C) as (X & _).
      split; [exact X|].
      destruct (wellTimed_within _ W) as [B0 HB].
      destruct (elapse_within n B0 s Ref HB) as [R' _].
      destruct X as (X1 & _). congruence.
    + destruct (eventually_idle s C W Ref) as [N HN].
      exists N. intros n Hn. destruct (HN n Hn) as (E & I & F). auto.
  - intros w pc r G Run L s.
    pose proof Run as (It & Mr & Sm & Sr).
    assert (C : Consistent s).
    { apply exec_consistent. unfold Consistent, Exclusive.
      cbn [world timers]. rewrite Sm, Sr, It, Mr.
      repeat split; try discriminate. intros _. has_task. }
    assert (W : wellTimed (timers s)).
    { apply exec_delays. repeat constructor. exact L. }
    assert (Ref : sosActiveRef (world s) = true /\ sosMode (world s) = true).
    { subst s. destruct w as [g fl sm mt it cc sr mr tr]. cbn in *. subst.
      split; reflexivity. }
    destruct Ref as [Ref Mode].
    split.
    + intro n. pose proof (elapse_consistent n s C) as (X & _).
      destruct (elapse_sos_on n s Ref) as [_ M].
      split; [exact X|]. rewrite M, Mode. split; [reflexivity|].
      destruct X as (_ & _ & X3). rewrite M, Mode in X3. exact X3.
    + intro m.
      set (sm := exec StopSOS (elapse m s)).
      assert (Cm : Consistent sm)
        by (apply exec_consistent, elapse_consistent, C).
      assert (Wm : wellTimed (timers sm))
        by (apply exec_delays, elapse_delays, W).
      assert (Rm : sosActiveRef (world sm) = false) by reflexivity.
      assert (Lm : Lit sm) by (intro H; discriminate H).
      destruct (eventually_idle sm Cm Wm Rm) as [N HN].
      exists N. intros n Hn s'. destruct (HN n Hn) as (E & I & F). auto.
Qed.

Lemma X28_mode_flags_exclusive_witness :
  let sos := world (elapse 100 (exec StartSOS (start true))) in
  let morse :=
    world (elapse 100 (exec (TransmitMorseWithText "SOS") (start true))) in
  (let s := run (start true) [Call StartSOS; Tick; Call StopSOS] in
   exists N : nat,
     forall n : nat, (N <= n)%nat ->
       timers (elapse n s) = [] /\ Idle (world (elapse n s))) /\
  (let s := exec (TransmitMorseWithText "A")
              (mkSys sos [(100, SosTask (SosFlash Dots1 0))]) in
   exists N : nat,
     forall n : nat, (N <= n)%nat ->
       timers (elapse n s) = [] /\ Idle (world (elapse n s)) /\
       isFlashlightOn (world (elapse n s)) = false) /\
  (let s := exec StartSOS
              (mkSys morse [(100, MorseTask (MorseFlash [] [] []))]) in
   forall n : nat,
     Exclusive (world (elapse n s)) /\
     sosMode (world (elapse n s)) = true /\
     isTransmitting (world (elapse n s)) = false).
Proof.
  set (sos := world (elapse 100 (exec StartSOS (start true)))).
  set (morse := world (elapse 100 (exec (TransmitMorseWithText "SOS")
                                     (start true)))).
  assert (RS : RunningSOS sos)
    by (unfold RunningSOS; repeat split; reflexivity).
  assert (RM : RunningMorse morse)
    by (unfold RunningMorse; repeat split; reflexivity).
  destruct X28_mode_flags_exclusive as (C & D & E).
  cbv zeta. split; [|split].
  - apply (C true [Call StartSOS; Tick; Call StopSOS]). reflexivity.
  - apply (D "A"%string sos (SosFlash Dots1 0) 100 eq_refl eq_refl RS);
      apply Z.leb_le; reflexivity.
  - apply (E morse (MorseFlash [] [] []) 100 eq_refl RM).
    apply Z.leb_le; reflexivity.
Defined.

(** ** What the flags do not exclude *)

(** The flag of a mode is both its run flag and its cancellation token:
    when a mode is stopped and started again while its cancelled function
    still sleeps, that function finds the flag set at its next test and
    goes on.  Here SOS is stopped after 100 ms and started again at once:
    two startSOS functions are pending from then on, still so three
    seconds later, while the mode flags show one SOS transmission. *)
Lemma same_mode_restart_revives_loop :
  let s := run (start true)
             ([Call StartSOS] ++ repeat Tick 100
              ++ [Call StopSOS; Call StartSOS] ++ repeat Tick 3000) in
  timers s = [(500, SosTask (SosFlash Dashes 2));
              (600, SosTask (SosFlash Dashes 2))] /\
  sosMode (world s) = true /\ isTransmitting (world s) = false.
Proof. vm_compute. repeat split. Qed.
(** ** The compass screen *)

Local Open Scope Q_scope.

Lemma Math_round_unique (x : Q) (k : Z) :
  inject_Z k - (1 # 2) <= x -> x < inject_Z k + (1 # 2) ->
  CompassScreen.Math_round x = k.
Proof.
  intros Hlo Hhi. unfold CompassScreen.Math_round.
  apply Qfloor_unique; [lra|].
  rewrite inject_Z_plus. change (inject_Z 1) with 1. lra.
Qed.

(** The rounded quotient of a heading in the sector around [45 k]. *)
Lemma round45 (d : Q) (k : Z) :
  45 * inject_Z k - (45 # 2) <= d -> d < 45 * inject_Z k + (45 # 2) ->
  CompassScreen.Math_round (d / 45) = k.
Proof.
  intros Hlo Hhi. apply Math_round_unique.
  - assert (E : inject_Z k - (1 # 2) == (45 * inject_Z k - (45 # 2)) / 45)
      by field.
    rewrite E. apply Qmult_le_compat_r; [exact Hlo|]. discriminate.
  - assert (E : inject_Z k + (1 # 2) == (45 * inject_Z k + (45 # 2)) / 45)
      by field.
    rewrite E. apply Qmult_lt_compat_r; [reflexivity|exact Hhi].
Qed.

(** X1.  For a heading in [0, 360) getDirection names the sector of 45
    degrees centred on one of the eight directions: N below 22.5 and from
    337.5 on, where the rounded quotient 8 wraps to index 0; NE from 22.5,
    E from 67.5, and so on. *)
Theorem X1_getDirection_sectors (d : Q) :
  0 <= d -> d < 360 ->
  CompassScreen.getDirection d = Some (sectorOf d).
Proof.
  intros H0 H1. unfold sectorOf, CompassScreen.getDirection.
  repeat match goal with
  | |- context [Qlt_bool ?a ?b] =>
      let E := fresh "E" in
      destruct (Qlt_bool a b) eqn:E;
      [apply Qlt_bool_iff in E | apply Qlt_bool_false_iff in E]
  end;
  first [ rewrite (round45 d 0) by (unfold inject_Z; lra)
        | rewrite (round45 d 1) by (unfold inject_Z; lra)
        | rewrite (round45 d 2) by (unfold inject_Z; lra)
        | rewrite (round45 d 3) by (unfold inject_Z; lra)
        | rewrite (round45 d 4) by (unfold inject_Z; lra)
        | rewrite (round45 d 5) by (unfold inject_Z; lra)
        | rewrite (round45 d 6) by (unfold inject_Z; lra)
        | rewrite (round45 d 7) by (unfold inject_Z; lra)
        | rewrite (round45 d 8) by (unfold inject_Z; lra) ];
  reflexivity.
Qed.

Lemma X1_getDirection_sectors_witness :
  CompassScreen.getDirection (350) = Some "N"%string.
Proof.
  apply (X1_getDirection_sectors 350); [discriminate | reflexivity].
Defined.

(** X2.  A negative heading down to -337.5 that is not within 22.5 of
    North has no direction: the rounded quotient is negative, [%] keeps
    its sign, and the array has nothing at a negative index. *)
Theorem X2_getDirection_negative_heading (d : Q) :
  - (675 # 2) <= d -> d < - (45 # 2) ->
  CompassScreen.getDirection d = None.
Proof.
  intros Hlo Hhi. unfold CompassScreen.getDirection.
  destruct (Qlt_le_dec d (- (135 # 2))) as [L1|L1];
  [destruct (Qlt_le_dec d (- (225 # 2))) as [L2|L2];
   [destruct (Qlt_le_dec d (- (315 # 2))) as [L3|L3];
    [destruct (Qlt_le_dec d (- (405 # 2))) as [L4|L4];
     [destruct (Qlt_le_dec d (- (495 # 2))) as [L5|L5];
      [destruct (Qlt_le_dec d (- (585 # 2))) as [L6|L6]|]|]|]|]|];
  first [ rewrite (round45 d (-1)) by (unfold inject_Z; lra)
        | rewrite (round45 d (-2)) by (unfold inject_Z; lra)
        | rewrite (round45 d (-3)) by (unfold inject_Z; lra)
        | rewrite (round45 d (-4)) by (unfold inject_Z; lra)
        | rewrite (round45 d (-5)) by (unfold inject_Z; lra)
        | rewrite (round45 d (-6)) by (unfold inject_Z; lra)
        | rewrite (round45 d (-7)) by (unfold inject_Z; lra) ];
  reflexivity.
Qed.

Lemma X2_getDirection_negative_heading_witness :
  CompassScreen.getDirection (- 90) = None.
Proof.
  apply (X2_getDirection_negative_heading (- 90)); [discriminate | reflexivity].
Defined.

(** X3.  A heading of [0, 360) that counts as near North for the haptic
    impact (line 112) is displayed with the direction N. *)
Theorem X3_near_north_is_N (angle : Q) :
  0 <= angle -> angle < 360 ->
  Compass.isNearNorth angle = true ->
  CompassScreen.getDirection angle = Some "N"%string.
Proof.
  intros H0 H1 H. unfold Compass.isNearNorth in H.
  apply orb_true_iff in H. unfold CompassScreen.getDirection.
  destruct H as [H|H]; apply Qle_bool_iff in H.
  - rewrite (round45 angle 0) by (unfold inject_Z; lra). reflexivity.
  - rewrite (round45 angle 8) by (unfold inject_Z; lra). reflexivity.
Qed.

Lemma X3_near_north_is_N_witness :
  CompassScreen.getDirection (357) = Some "N"%string.
Proof.
  apply (X3_near_north_is_N 357); [discriminate | reflexivity | reflexivity].
Defined.

(** *** Throttle and debounce *)

Local Open Scope Z_scope.

Lemma spaced_snoc (gap : Z) (times : list Z) (t : Z) :
  spaced gap times ->
  (forall pre u, times = pre ++ [u] -> gap <= t - u) ->
  spaced gap (times ++ [t]).
Proof.
  induction times as [|a l IH]; intros S L; [cbn; auto|].
  destruct S as [S1 S2]. cbn [app spaced]. split.
  - destruct l as [|b l']; [apply (L [] a); reflexivity | exact S1].
  - apply IH; [exact S2|]. intros pre u E. apply (L (a :: pre) u).
    rewrite E. reflexivity.
Qed.

Lemma spaced_snoc_inv (gap : Z) (times : list Z) (t : Z) :
  spaced gap (times ++ [t]) ->
  spaced gap times /\ forall pre u, times = pre ++ [u] -> gap <= t - u.
Proof.
  induction times as [|a l IH]; intro S.
  - split; [exact I|]. intros [|? ?] u E; discriminate.
  - cbn [app spaced] in S. destruct S as [S1 S2].
    destruct (IH S2) as [IH1 IH2]. split.
    + cbn [spaced]. split; [|exact IH1].
      destruct l as [|b l']; [exact I | exact S1].
    + intros pre u E. destruct pre as [|p pre'].
      * injection E as -> ->. exact S1.
      * injection E as -> E. apply (IH2 pre' u E).
Qed.

Lemma onHeadings_snoc (haptics : bool) (s : CompassScreen.Screen)
  (samples : list (Z * Q)) (x : Z * Q) :
  CompassScreen.onHeadings haptics s (samples ++ [x])
  = CompassScreen.onHeading haptics (CompassScreen.onHeadings haptics s samples) x.
Proof. unfold CompassScreen.onHeadings. rewrite fold_left_app. reflexivity. Qed.

(** X4.  The haptic impacts of the compass are debounced: two successive
    impacts are at least 1000 ms apart by the clock, every impact is at
    the time of a sample whose heading is near North, and without the
    Haptics module there is none. *)
Theorem X4_haptic_debounce (haptics : bool) (samples : list (Z * Q)) :
  let s := CompassScreen.onHeadings haptics CompassScreen.initial samples in
  spaced 1000 (CompassScreen.impacts s) /\
  (forall t, In t (CompassScreen.impacts s) ->
     exists angle, In (t, angle) samples /\ Compass.isNearNorth angle = true) /\
  (haptics = false -> CompassScreen.impacts s = []).
Proof.
  cbv zeta.
  assert (G : let s := CompassScreen.onHeadings haptics CompassScreen.initial samples in
    (spaced 1000 (CompassScreen.impacts s) /\
     (forall pre u, CompassScreen.impacts s = pre ++ [u] ->
        u = CompassScreen.lastNorthHapticRef s)) /\
    (forall t, In t (CompassScreen.impacts s) ->
       exists angle, In (t, angle) samples /\ Compass.isNearNorth angle = true) /\
    (haptics = false -> CompassScreen.impacts s = [])).
  { induction samples as [|[now angle] l IH] using rev_ind.
    - cbn. repeat split; auto; try contradiction.
      intros [|? ?] u E; discriminate.
    - rewrite onHeadings_snoc. cbv zeta in IH.
      set (s := CompassScreen.onHeadings haptics CompassScreen.initial l) in *.
      destruct IH as [[S L] [N H]].
      unfold CompassScreen.onHeading. cbn [CompassScreen.impacts CompassScreen.lastNorthHapticRef].
      change (Qle_bool angle CompassScreen.NORTH_TOLERANCE
              || Qle_bool (360 - CompassScreen.NORTH_TOLERANCE)%Q angle)
        with (Compass.isNearNorth angle).
      destruct (Compass.isNearNorth angle) eqn:Near; cbn [andb].
      + destruct (1000 <=? now - CompassScreen.lastNorthHapticRef s) eqn:Late;
          cbn [andb].
        * destruct haptics.
          -- repeat split.
             ++ apply spaced_snoc; [exact S|]. intros pre u E.
                rewrite (L pre u E). apply Z.leb_le. exact Late.
             ++ intros pre u E. apply app_inj_tail in E. symmetry. apply E.
             ++ intros t Ht. apply in_app_or in Ht. destruct Ht as [Ht|[<-|[]]].
                ** destruct (N t Ht) as (a & Ia & Na). exists a.
                   split; [apply in_or_app; left; exact Ia | exact Na].
                ** exists angle. split; [apply in_or_app; right; left; reflexivity | exact Near].
             ++ discriminate.
          -- repeat split; auto.
             intros t Ht. destruct (N t Ht) as (a & Ia & Na). exists a.
             split; [apply in_or_app; left; exact Ia | exact Na].
        * repeat split; auto.
          intros t Ht. destruct (N t Ht) as (a & Ia & Na). exists a.
          split; [apply in_or_app; left; exact Ia | exact Na].
      + repeat split; auto.
        intros t Ht. destruct (N t Ht) as (a & Ia & Na). exists a.
        split; [apply in_or_app; left; exact Ia | exact Na]. }
  cbv zeta in G. destruct G as [[S _] [N H]]. repeat split; assumption.
Qed.

(** X5.  The heading text is throttled: two successive calls of
    setDisplayedHeading are at least 250 ms apart by the clock, each one
    shows the heading of the sample of that moment, and the displayed
    heading is the one of the last call (0 before the first). *)
Theorem X5_heading_text_throttle (haptics : bool) (samples : list (Z * Q)) :
  let s := CompassScreen.onHeadings haptics CompassScreen.initial samples in
  spaced 250 (map fst (CompassScreen.shown s)) /\
  (forall x, In x (CompassScreen.shown s) -> In x samples) /\
  (CompassScreen.shown s = [] /\ CompassScreen.displayedHeading s = 0%Q \/
   exists pre,
     CompassScreen.shown s
     = pre ++ [(CompassScreen.lastTextUpdateRef s, CompassScreen.displayedHeading s)]).
Proof.
  cbv zeta. induction samples as [|[now angle] l IH] using rev_ind.
  - cbn. repeat split; auto.
  - rewrite onHeadings_snoc.
    set (s := CompassScreen.onHeadings haptics CompassScreen.initial l) in *.
    destruct IH as [S [N D]].
    unfold CompassScreen.onHeading.
    cbn [CompassScreen.shown CompassScreen.lastTextUpdateRef
         CompassScreen.displayedHeading].
    destruct (CompassScreen.TEXT_UPDATE_INTERVAL
              <=? now - CompassScreen.lastTextUpdateRef s) eqn:Late.
    + split; [|split].
      * rewrite map_app. cbn [map fst]. apply spaced_snoc; [exact S|].
        intros pre u E. apply Z.leb_le in Late.
        destruct D as [[D _]|[pre' D]].
        -- rewrite D in E. destruct pre; discriminate.
        -- rewrite D, map_app in E. cbn [map fst] in E.
           apply app_inj_tail in E. destruct E as [_ <-]. exact Late.
      * intros x Hx. apply in_app_or in Hx. apply in_or_app.
        destruct Hx as [Hx|[<-|[]]]; [left; auto | right; left; reflexivity].
      * right. exists (CompassScreen.shown s). reflexivity.
    + split; [exact S|split].
      * intros x Hx. apply in_or_app. left. auto.
      * exact D.
Qed.

(** X6.  With a clock that never goes back and gives at least 250 (it
    gives the milliseconds since 1970), the displayed heading is the
    heading of a sample that is less than 250 ms older than the latest
    one. *)
Theorem X6_heading_text_fresh (haptics : bool) (samples : list (Z * Q))
  (now : Z) (angle : Q) :
  ascending (map fst (samples ++ [(now, angle)])) ->
  Forall (fun x : Z * Q => 250 <= fst x) (samples ++ [(now, angle)]) ->
  let s := CompassScreen.onHeadings haptics CompassScreen.initial
             (samples ++ [(now, angle)]) in
  In (CompassScreen.lastTextUpdateRef s, CompassScreen.displayedHeading s)
     (samples ++ [(now, angle)]) /\
  0 <= now - CompassScreen.lastTextUpdateRef s < 250.
Proof.
  cbv zeta. revert now angle.
  induction samples as [|[now' angle'] l IH] using rev_ind; intros now angle A F.
  - cbn in F. inversion F as [|? ? F1 _]; subst. cbn in F1.
    cbn [app CompassScreen.onHeadings fold_left].
    unfold CompassScreen.onHeading, CompassScreen.initial.
    cbn [CompassScreen.lastTextUpdateRef CompassScreen.displayedHeading].
    replace (CompassScreen.TEXT_UPDATE_INTERVAL <=? now - 0) with true
      by (symmetry; apply Z.leb_le; unfold CompassScreen.TEXT_UPDATE_INTERVAL; lia).
    split; [left; reflexivity | lia].
  - rewrite onHeadings_snoc.
    rewrite map_app in A. cbn [map fst] in A.
    apply spaced_snoc_inv in A. destruct A as [A B].
    apply Forall_app in F. destruct F as [F _].
    destruct (IH now' angle' A F) as [I R]. clear IH.
    specialize (B (map fst l) now'). rewrite map_app in B.
    specialize (B eq_refl).
    set (s := CompassScreen.onHeadings haptics CompassScreen.initial
                (l ++ [(now', angle')])) in *.
    unfold CompassScreen.onHeading.
    cbn [CompassScreen.lastTextUpdateRef CompassScreen.displayedHeading].
    destruct (CompassScreen.TEXT_UPDATE_INTERVAL
              <=? now - CompassScreen.lastTextUpdateRef s) eqn:Late.
    + split; [apply in_or_app; right; left; reflexivity | lia].
    + apply Z.leb_gt in Late. unfold CompassScreen.TEXT_UPDATE_INTERVAL in Late.
      split; [apply in_or_app; left; exact I | lia].
Qed.

Lemma X6_heading_text_fresh_witness :
  let s := CompassScreen.onHeadings true CompassScreen.initial
             ([(1000, 10%Q); (1100, 20%Q)] ++ [(1200, 30%Q)]) in
  In (CompassScreen.lastTextUpdateRef s, CompassScreen.displayedHeading s)
     ([(1000, 10%Q); (1100, 20%Q)] ++ [(1200, 30%Q)]) /\
  0 <= 1200 - CompassScreen.lastTextUpdateRef s < 250.
Proof.
  apply (X6_heading_text_fresh true [(1000, 10%Q); (1100, 20%Q)] 1200 30%Q).
  - cbn. lia.
  - repeat constructor; cbn; lia.
Defined.

Local Open Scope Q_scope.

Section ThereAndBack.

Import PrimFloat.

(** X7.  For any two headings the shortest-path delta of the way back is
    the opposite of the delta of the way there, also across 0/360 and at
    exactly half a turn.  cumulativeRotation itself comes back only up to
    the rounding of the additions of line 152: on binary64 numbers, from
    460 at the heading 100, the way to 200 + 2^-44 and back has opposite
    deltas and leaves 460 - 2^-44, the double just below 460. *)
Theorem X7_delta_there_and_back :
  (forall previousAngle angle : Q,
     Compass.shortestDelta angle previousAngle
     == - Compass.shortestDelta previousAngle angle) /\
  (let there := (200 + 0x1p-44)%float in
   let t := Compass64.mkTracker false 100 460 100 in
   Compass64.shortestDelta there 100
   = (- Compass64.shortestDelta 100 there)%float /\
   Compass64.cumulativeRotation (Compass64.trackAll t [there; 100%float])
   = (460 - 0x1p-44)%float /\
   (460 - 0x1p-44 <? 460)%float = true).
Proof.
  split.
  - intros p a. unfold Compass.shortestDelta. cbv zeta.
    repeat match goal with
    | |- context [Qlt_bool ?x ?y] =>
        let E := fresh "E" in
        destruct (Qlt_bool x y) eqn:E;
        [apply Qlt_bool_iff in E | apply Qlt_bool_false_iff in E]
    end; lra.
  - cbv zeta. repeat split; vm_compute; reflexivity.
Qed.

End ThereAndBack.
(** ** The level screen *)

Local Open Scope Q_scope.

Lemma clamp_cases (M v : Q) :
  0 <= M ->
  (v <= - M /\ Qmax (- M) (Qmin M v) == - M) \/
  (- M <= v <= M /\ Qmax (- M) (Qmin M v) == v) \/
  (M <= v /\ Qmax (- M) (Qmin M v) == M).
Proof.
  intro HM.
  destruct (Q.min_spec M v) as [[L E]|[L E]];
    destruct (Q.max_spec (- M) (Qmin M v)) as [[L' E']|[L' E']];
    rewrite E in *; rewrite E'.
  - right. right. split; [lra|reflexivity].
  - right. right. split; lra.
  - right. left. split; [lra|reflexivity].
  - left. split; [lra|reflexivity].
Qed.

(** X8.  The bubble stays inside the level: for a non-negative
    MAX_OFFSET both coordinates lie in [-MAX_OFFSET, MAX_OFFSET]; the x
    coordinate is accelX * MAX_OFFSET * 2 while accelX is within a half
    and sticks to the nearer bound beyond; the y coordinate is the mirror
    image of the x coordinate of the same reading. *)
Theorem X8_bubble_clamped (M accel : Q) :
  0 <= M ->
  (- M <= LevelScreen.bubbleX M accel <= M) /\
  (- (1 # 2) <= accel <= 1 # 2 -> LevelScreen.bubbleX M accel == accel * M * 2) /\
  (1 # 2 <= accel -> LevelScreen.bubbleX M accel == M) /\
  (accel <= - (1 # 2) -> LevelScreen.bubbleX M accel == - M) /\
  LevelScreen.bubbleY M accel == - LevelScreen.bubbleX M accel.
Proof.
  intro HM. unfold LevelScreen.bubbleX, LevelScreen.bubbleY.
  destruct (clamp_cases M (accel * M * 2) HM) as [[L E]|[[L E]|[L E]]];
    destruct (clamp_cases M (- accel * M * 2) HM) as [[L' E']|[[L' E']|[L' E']]];
    rewrite E, E'; repeat split; intros; try lra; try nra.
Qed.

Lemma X8_bubble_clamped_witness :
  LevelScreen.bubbleY 100 (3 # 4) == - LevelScreen.bubbleX 100 (3 # 4).
Proof.
  apply (X8_bubble_clamped 100 (3 # 4)). discriminate.
Defined.

(** X9.  On a window whose smaller side is below 200/3 points MAX_OFFSET
    is negative, and the clamp no longer follows the reading: the x
    coordinate of the bubble is the positive constant -MAX_OFFSET for
    every reading. *)
Theorem X9_bubble_small_window (width height accelX : Q) :
  Qmin width height < 200 # 3 ->
  LevelScreen.MAX_OFFSET width height < 0 /\
  LevelScreen.bubbleX (LevelScreen.MAX_OFFSET width height) accelX
  == - LevelScreen.MAX_OFFSET width height.
Proof.
  intro H.
  assert (N : LevelScreen.MAX_OFFSET width height < 0).
  { unfold LevelScreen.MAX_OFFSET, LevelScreen.LEVEL_SIZE, LevelScreen.BUBBLE_SIZE.
    set (m := Qmin width height) in *.
    assert (E : m * (6 # 10) / 2 == m * (3 # 10)) by field.
    rewrite E. lra. }
  split; [exact N|]. unfold LevelScreen.bubbleX.
  set (M := LevelScreen.MAX_OFFSET width height) in *.
  set (v := accelX * M * 2).
  destruct (Q.min_spec M v) as [[L E]|[L E]];
    destruct (Q.max_spec (- M) (Qmin M v)) as [[L' E']|[L' E']];
    rewrite E in *; rewrite E'; lra.
Qed.

Lemma X9_bubble_small_window_witness :
  LevelScreen.MAX_OFFSET 60 100 < 0 /\
  LevelScreen.bubbleX (LevelScreen.MAX_OFFSET 60 100) (1 # 10)
  == - LevelScreen.MAX_OFFSET 60 100.
Proof.
  apply (X9_bubble_small_window 60 100 (1 # 10)). reflexivity.
Defined.

Local Open Scope Z_scope.

Lemma onSamples_snoc (Math_atan2 : Q -> Q -> Q) (Math_sqrt : Q -> Q)
  (Math_PI M : Q) (s : LevelScreen.Screen)
  (samples : list (Z * (Q * Q))) (x : Z * (Q * Q)) :
  LevelScreen.onSamples Math_atan2 Math_sqrt Math_PI M s (samples ++ [x])
  = LevelScreen.onSample Math_atan2 Math_sqrt Math_PI M
      (LevelScreen.onSamples Math_atan2 Math_sqrt Math_PI M s samples) x.
Proof. unfold LevelScreen.onSamples. rewrite fold_left_app. reflexivity. Qed.

(** X10.  With a clock that never goes back and gives at least 250, the
    two displayed angles of the level are the two angles of one and the
    same reading, which is less than 250 ms older than the latest one;
    the angles behind the level flag are those of the latest reading. *)
Theorem X10_level_text_fresh (Math_atan2 : Q -> Q -> Q) (Math_sqrt : Q -> Q)
  (Math_PI M : Q) (samples : list (Z * (Q * Q))) (now : Z) (accel : Q * Q) :
  ascending (map fst (samples ++ [(now, accel)])) ->
  Forall (fun x : Z * (Q * Q) => 250 <= fst x) (samples ++ [(now, accel)]) ->
  let s := LevelScreen.onSamples Math_atan2 Math_sqrt Math_PI M
             LevelScreen.initial (samples ++ [(now, accel)]) in
  (exists t x y,
     In (t, (x, y)) (samples ++ [(now, accel)]) /\
     0 <= now - t < 250 /\
     LevelScreen.displayedXAngle s = Level.xAngleDeg Math_atan2 Math_sqrt Math_PI x y /\
     LevelScreen.displayedYAngle s = Level.yAngleDeg Math_atan2 Math_sqrt Math_PI x y) /\
  LevelScreen.angles s
  = Level.listener Math_atan2 Math_sqrt Math_PI Level.initial accel.
Proof.
  cbv zeta.
  assert (G : forall now accel,
    ascending (map fst (samples ++ [(now, accel)])) ->
    Forall (fun x : Z * (Q * Q) => 250 <= fst x) (samples ++ [(now, accel)]) ->
    exists x y,
      In (LevelScreen.lastTextUpdateRef
            (LevelScreen.onSamples Math_atan2 Math_sqrt Math_PI M
               LevelScreen.initial (samples ++ [(now, accel)])), (x, y))
         (samples ++ [(now, accel)]) /\
      0 <= now - LevelScreen.lastTextUpdateRef
                   (LevelScreen.onSamples Math_atan2 Math_sqrt Math_PI M
                      LevelScreen.initial (samples ++ [(now, accel)])) < 250 /\
      LevelScreen.displayedXAngle
        (LevelScreen.onSamples Math_atan2 Math_sqrt Math_PI M
           LevelScreen.initial (samples ++ [(now, accel)]))
      = Level.xAngleDeg Math_atan2 Math_sqrt Math_PI x y /\
      LevelScreen.displayedYAngle
        (LevelScreen.onSamples Math_atan2 Math_sqrt Math_PI M
           LevelScreen.initial (samples ++ [(now, accel)]))
      = Level.yAngleDeg Math_atan2 Math_sqrt Math_PI x y).
  { clear now accel.
    induction samples as [|[now' accel'] l IH] using rev_ind;
      intros now [ax ay] A F.
    - cbn in F. inversion F as [|? ? F1 _]; subst. cbn in F1.
      cbn [app LevelScreen.onSamples fold_left].
      unfold LevelScreen.onSample, LevelScreen.initial.
      cbn [LevelScreen.lastTextUpdateRef LevelScreen.displayedXAngle
           LevelScreen.displayedYAngle].
      replace (LevelScreen.TEXT_UPDATE_INTERVAL <=? now - 0) with true
        by (symmetry; apply Z.leb_le; unfold LevelScreen.TEXT_UPDATE_INTERVAL; lia).
      exists ax, ay. repeat split; try reflexivity; try lia. left. reflexivity.
    - rewrite onSamples_snoc.
      rewrite map_app in A. cbn [map fst] in A.
      apply spaced_snoc_inv in A. destruct A as [A B].
      apply Forall_app in F. destruct F as [F _].
      destruct (IH now' accel' A F) as (x & y & I & R & DX & DY). clear IH.
      specialize (B (map fst l) now'). rewrite map_app in B.
      specialize (B eq_refl).
      set (s := LevelScreen.onSamples Math_atan2 Math_sqrt Math_PI M
                  LevelScreen.initial (l ++ [(now', accel')])) in *.
      unfold LevelScreen.onSample.
      cbn [LevelScreen.lastTextUpdateRef LevelScreen.displayedXAngle
           LevelScreen.displayedYAngle].
      destruct (LevelScreen.TEXT_UPDATE_INTERVAL
                <=? now - LevelScreen.lastTextUpdateRef s) eqn:Late.
      + exists ax, ay. repeat split; try reflexivity; try lia.
        apply in_or_app. right. left. reflexivity.
      + apply Z.leb_gt in Late. unfold LevelScreen.TEXT_UPDATE_INTERVAL in Late.
        exists x, y. repeat split; try assumption; try lia.
        apply in_or_app. left. exact I. }
  intros A F. split.
  - destruct (G now accel A F) as (x & y & I & R & DX & DY).
    eexists _, x, y. repeat split; try eassumption; lia.
  - rewrite onSamples_snoc. destruct accel as [ax ay]. reflexivity.
Qed.

Lemma X10_level_text_fresh_witness :
  LevelScreen.angles
    (LevelScreen.onSamples (fun a b => (a - b)%Q) (fun a => a) 3 100
       LevelScreen.initial ([(1000, (0, 0)%Q)] ++ [(1100, (1 # 10, 0)%Q)]))
  = Level.listener (fun a b => (a - b)%Q) (fun a => a) 3 Level.initial
      (1 # 10, 0)%Q.
Proof.
  apply (X10_level_text_fresh (fun a b => (a - b)%Q) (fun a => a) 3 100
           [(1000, (0, 0)%Q)] 1100 (1 # 10, 0)%Q).
  - cbn. lia.
  - repeat constructor; cbn; lia.
Defined.
(** ** The Morse table and the words of a text *)

Local Open Scope Z_scope.

Lemma allAscii_complete (c : ascii) : In c allAscii.
Proof.
  unfold allAscii. rewrite <- (ascii_nat_embedding c).
  apply in_map. apply in_seq. pose proof (nat_ascii_bounded c). lia.
Qed.

(** A check that holds on the 256 characters holds on every character. *)
Lemma by_cases_ascii (P : ascii -> bool) :
  forallb P allAscii = true -> forall c, P c = true.
Proof.
  intros H c. rewrite forallb_forall in H. apply H. apply allAscii_complete.
Qed.

Lemma by_cases_ascii2 (P : ascii -> ascii -> bool) :
  forallb (fun a => forallb (P a) allAscii) allAscii = true ->
  forall a b, P a b = true.
Proof.
  intros H a b.
  apply (by_cases_ascii (P a)). apply (by_cases_ascii _ H).
Qed.

(** X11.  The Morse table is a code: two different characters never have
    the same pattern, and every pattern is made of one to five symbols,
    each a dot or a dash. *)
Theorem X11_morse_table_is_a_code (a b : ascii) (pattern : string) :
  MORSE_CODE a = Some pattern ->
  (MORSE_CODE b = Some pattern -> a = b) /\
  (1 <= List.length (list_ascii_of_string pattern) <= 5)%nat /\
  forallb isSymbol (list_ascii_of_string pattern) = true.
Proof.
  intro Ha. split; [intro Hb|].
  - pose proof (by_cases_ascii2
      (fun a b => match MORSE_CODE a, MORSE_CODE b with
                  | Some p, Some q => implb (String.eqb p q) (Ascii.eqb a b)
                  | _, _ => true
                  end) ltac:(vm_compute; reflexivity) a b) as H.
    cbv beta in H. rewrite Ha, Hb, String.eqb_refl in H. cbn in H.
    apply Ascii.eqb_eq. exact H.
  - pose proof (by_cases_ascii
      (fun a => match MORSE_CODE a with
                | Some p =>
                    let l := list_ascii_of_string p in
                    ((1 <=? List.length l) && (List.length l <=? 5))%nat
                    && forallb isSymbol l
                | None => true
                end) ltac:(vm_compute; reflexivity) a) as H.
    cbv beta zeta in H. rewrite Ha in H.
    apply andb_true_iff in H. destruct H as [H1 H2].
    apply andb_true_iff in H1. destruct H1 as [H1 H3].
    apply Nat.leb_le in H1, H3. auto.
Qed.

Lemma X11_morse_table_is_a_code_witness :
  (MORSE_CODE "S" = Some "..."%string -> "S"%char = "S"%char) /\
  (1 <= List.length (list_ascii_of_string "...") <= 5)%nat /\
  forallb isSymbol (list_ascii_of_string "...") = true.
Proof.
  apply (X11_morse_table_is_a_code "S" "S" "..."). reflexivity.
Defined.

(** X12.  A character of the text is sent as light exactly when it is an
    ASCII letter, of either case, or a digit: upper-casing brings the 26
    small letters into the table, and nothing else. *)
Theorem X12_transmitted_characters (c : ascii) :
  MORSE_CODE (toUpperChar c) <> None <-> isAlnum c = true.
Proof.
  pose proof (by_cases_ascii
    (fun c => Bool.eqb (match MORSE_CODE (toUpperChar c) with
                        | Some _ => true
                        | None => false
                        end) (isAlnum c)) ltac:(vm_compute; reflexivity) c) as H.
  cbv beta in H. apply Bool.eqb_prop in H. rewrite <- H.
  destruct (MORSE_CODE (toUpperChar c)); split; congruence.
Qed.

(** *** The words *)

Lemma toUpperChar_space (c : ascii) : isSpace (toUpperChar c) = isSpace c.
Proof.
  apply Bool.eqb_prop.
  apply (by_cases_ascii (fun c => Bool.eqb (isSpace (toUpperChar c)) (isSpace c))).
  vm_compute. reflexivity.
Qed.

Lemma trimStart_split (l : list ascii) :
  exists pre, l = pre ++ trimStart l /\ forallb isSpace pre = true.
Proof.
  induction l as [|c l (pre & E & S)]; [exists []; auto|].
  cbn [trimStart]. destruct (isSpace c) eqn:Sc; [|exists []; auto].
  exists (c :: pre). cbn. rewrite Sc, S. rewrite <- E. auto.
Qed.

Lemma trimStart_head (l : list ascii) (c : ascii) (r : list ascii) :
  trimStart l = c :: r -> isSpace c = false.
Proof.
  induction l as [|a l IH]; [discriminate|]. cbn [trimStart].
  destruct (isSpace a) eqn:Sa; [exact IH|]. intro E. injection E as -> _.
  exact Sa.
Qed.

Lemma trim_split (l : list ascii) :
  exists pre post,
    l = pre ++ trim l ++ post /\
    forallb isSpace pre = true /\ forallb isSpace post = true.
Proof.
  destruct (trimStart_split l) as (pre & E & S).
  destruct (trimStart_split (rev (trimStart l))) as (p2 & E2 & S2).
  exists pre, (rev p2). unfold trim. split; [|split].
  - rewrite <- rev_app_distr, <- E2, rev_involutive. exact E.
  - exact S.
  - rewrite forallb_rev. exact S2.
Qed.

Lemma trim_last (l pre : list ascii) (c : ascii) :
  trim l = pre ++ [c] -> isSpace c = false.
Proof.
  unfold trim. intro E. apply (f_equal (@rev ascii)) in E.
  rewrite rev_involutive, rev_app_distr in E. cbn in E.
  apply trimStart_head in E. exact E.
Qed.

Lemma trim_head (l : list ascii) (c : ascii) (r : list ascii) :
  trim l = c :: r -> isSpace c = false.
Proof.
  intro E. destruct (trimStart_split (rev (trimStart l))) as (p2 & E2 & _).
  apply (f_equal (@rev ascii)) in E2.
  rewrite rev_involutive, rev_app_distr in E2. fold (trim l) in E2.
  rewrite E in E2. cbn in E2. apply trimStart_head in E2. exact E2.
Qed.

Lemma runs_trailing (post : list ascii) :
  forallb isSpace post = true ->
  forall l cur, runs cur (l ++ post) = runs cur l.
Proof.
  intro S.
  assert (B : forall cur, runs cur post = runs cur []).
  { induction post as [|c p IH]; [reflexivity|]. cbn in S.
    apply andb_true_iff in S. destruct S as [Sc Sp]. intro cur.
    cbn [runs]. rewrite Sc, (IH Sp []). destruct cur; reflexivity. }
  induction l as [|c l IH]; intro cur; [apply B|].
  cbn [app runs]. rewrite !IH. reflexivity.
Qed.

Lemma runs_leading (pre l : list ascii) :
  forallb isSpace pre = true -> runs [] (pre ++ l) = runs [] l.
Proof.
  induction pre as [|c p IH]; [reflexivity|]. cbn. intro S.
  apply andb_true_iff in S. destruct S as [Sc Sp]. rewrite Sc. auto.
Qed.

Lemma splitWs_runs (l : list ascii) :
  forall (inRun : bool) (cur : list ascii),
    (inRun = true -> cur = []) -> (inRun = false -> cur <> []) ->
    (l = [] -> inRun = false) ->
    (forall pre c, l = pre ++ [c] -> isSpace c = false) ->
    splitWs inRun cur l = runs cur l.
Proof.
  induction l as [|c l IH]; intros b cur Ht Hf He Hl.
  - cbn. destruct cur; [|reflexivity]. exfalso. apply (Hf (He eq_refl) eq_refl).
  - assert (Hl' : forall pre d, l = pre ++ [d] -> isSpace d = false).
    { intros pre d E. apply (Hl (c :: pre) d). rewrite E. reflexivity. }
    cbn [splitWs runs]. destruct (isSpace c) eqn:Sc.
    + assert (N : l <> []).
      { intros ->. rewrite (Hl [] c eq_refl) in Sc. discriminate. }
      destruct b.
      * rewrite (Ht eq_refl). apply IH; auto; intro; congruence.
      * destruct cur as [|x cur]; [exfalso; apply (Hf eq_refl eq_refl)|].
        f_equal. apply IH; auto; intro; congruence.
    + apply IH; auto; discriminate.
Qed.

Lemma runs_words (cur l : list ascii) :
  forallb (fun c => negb (isSpace c)) cur = true ->
  Forall (fun w => w <> [] /\ forallb (fun c => negb (isSpace c)) w = true)
         (runs cur l) /\
  List.concat (runs cur l) = rev cur ++ filter (fun c => negb (isSpace c)) l.
Proof.
  revert cur. induction l as [|c l IH]; intros cur S.
  - cbn [runs filter]. destruct cur as [|x cur].
    + split; [constructor | reflexivity].
    + split; [|cbn; rewrite !app_nil_r; reflexivity].
      constructor; [|constructor]. split; [|rewrite forallb_rev; exact S].
      cbn. intro E. apply app_eq_nil in E. destruct E; discriminate.
  - cbn [runs filter]. destruct (isSpace c) eqn:Sc; cbn [negb].
    + destruct (IH [] eq_refl) as [F C]. destruct cur as [|x cur].
      * split; [exact F | exact C].
      * split.
        -- constructor; [|exact F]. split; [|rewrite forallb_rev; exact S].
           cbn. intro E. apply app_eq_nil in E. destruct E; discriminate.
        -- cbn [List.concat]. rewrite C. reflexivity.
    + destruct (IH (c :: cur)) as [F C]; [cbn; rewrite Sc; exact S|].
      split; [exact F|]. rewrite C. cbn. rewrite <- app_assoc. reflexivity.
Qed.

(** X13.  The words of a text that is not blank are the maximal runs of
    characters other than white space of the upper-cased text: no word is
    empty, no word holds white space, and the words joined are the
    upper-cased text without its white space.  (The blank text, which the
    guard of the caller keeps out, has the single empty word.) *)
Theorem X13_words_of_text (text : string) :
  let upper := map toUpperChar (list_ascii_of_string text) in
  (isBlank text = false ->
   wordsOf text = runs [] upper /\
   Forall (fun w => w <> [] /\ forallb (fun c => negb (isSpace c)) w = true)
          (wordsOf text) /\
   List.concat (wordsOf text) = filter (fun c => negb (isSpace c)) upper) /\
  (isBlank text = true -> wordsOf text = [[]]).
Proof.
  cbv zeta. set (l := list_ascii_of_string text).
  assert (U : forallb isSpace (map toUpperChar l) = forallb isSpace l).
  { induction l as [|c l' IH]; [reflexivity|]. cbn.
    rewrite toUpperChar_space, IH. reflexivity. }
  split; intro B.
  - assert (E : wordsOf text = runs [] (map toUpperChar l)).
    { unfold wordsOf. fold l.
      destruct (trim_split (map toUpperChar l)) as (pre & post & E & Sp & Sq).
      rewrite E at 2. rewrite (runs_leading _ _ Sp), (runs_trailing _ Sq).
      destruct (trim (map toUpperChar l)) as [|c t] eqn:Tr.
      - exfalso. rewrite E, !forallb_app, Sp, Sq in U. cbn in U.
        symmetry in U. apply isBlank_iff in U. congruence.
      - pose proof (trim_head _ _ _ Tr) as Hc.
        cbn [splitWs runs]. rewrite Hc.
        apply splitWs_runs; try discriminate; auto.
        intros p d Ed. apply (trim_last (map toUpperChar l) (c :: p) d).
        rewrite Tr, Ed. reflexivity. }
    rewrite E. destruct (runs_words [] (map toUpperChar l) eq_refl) as [F C].
    repeat split; assumption.
  - apply isBlank_iff in B. fold l in B. rewrite <- U in B.
    unfold wordsOf. fold l. unfold trim.
    apply trimStart_nil_iff in B. rewrite B. reflexivity.
Qed.

Lemma X13_words_of_text_witness :
  wordsOf "  sos  now " = [["S"; "O"; "S"]; ["N"; "O"; "W"]]%char.
Proof.
  rewrite (proj1 (proj1 (X13_words_of_text "  sos  now ") eq_refl)).
  reflexivity.
Defined.

(** *** One flash per symbol *)

Lemma pulses_joinWith (gap : list Segment) (parts : list (list Segment)) :
  pulses (eventsOf gap) = 0%nat ->
  pulses (eventsOf (joinWith gap parts))
  = pulses (eventsOf (List.concat parts)).
Proof.
  intro G. induction parts as [|p parts IH]; [reflexivity|].
  cbn [List.concat]. rewrite eventsOf_app, pulses_app, <- IH.
  destruct parts as [|q parts]; cbn [joinWith].
  - cbn. rewrite Nat.add_0_r. reflexivity.
  - rewrite !eventsOf_app, !pulses_app, G. reflexivity.
Qed.

Lemma pulses_letterPlan (pattern : string) :
  pulses (eventsOf (letterPlan pattern))
  = List.length (list_ascii_of_string pattern).
Proof.
  unfold letterPlan. rewrite pulses_joinWith by reflexivity.
  induction (list_ascii_of_string pattern) as [|s l IH]; [reflexivity|].
  cbn [map List.concat List.length]. rewrite eventsOf_app, pulses_app, IH.
  reflexivity.
Qed.

Lemma pulses_wordPlan (chars : list ascii) :
  pulses (eventsOf (wordPlan chars)) = symbolCount [chars].
Proof.
  unfold symbolCount. cbn [List.concat]. rewrite app_nil_r.
  induction chars as [|c cs IH]; [reflexivity|].
  cbn [wordPlan flat_map]. rewrite List.length_app, eventsOf_app, pulses_app, IH.
  f_equal. destruct (MORSE_CODE c) as [pattern|]; [|reflexivity].
  rewrite eventsOf_app, pulses_app, pulses_letterPlan.
  destruct cs; unfold pulses; cbn; lia.
Qed.

Lemma symbolCount_cons (word : list ascii) (words : list (list ascii)) :
  symbolCount (word :: words) = (symbolCount [word] + symbolCount words)%nat.
Proof.
  unfold symbolCount. cbn [List.concat].
  rewrite app_nil_r, flat_map_app, List.length_app. reflexivity.
Qed.

Lemma pulses_morsePlan (words : list (list ascii)) :
  pulses (eventsOf (morsePlan words)) = symbolCount words.
Proof.
  unfold morsePlan. rewrite pulses_joinWith by reflexivity.
  induction words as [|word words IH]; [reflexivity|].
  cbn [map List.concat]. rewrite eventsOf_app, pulses_app, IH.
  rewrite pulses_wordPlan, (symbolCount_cons word words). reflexivity.
Qed.

(** X17.  A transmission that nobody cancels switches the torch on once
    for every symbol the table has for the characters of the text, and
    for nothing else: a character outside the table gives no flash. *)
Theorem X17_one_flash_per_symbol (text : string) (w : World) :
  granted w = true -> isBlank text = false -> sosMode w = false ->
  exists w',
    elapse (Z.to_nat (duration (morsePlan (wordsOf text))))
      (exec (TransmitMorseWithText text) (mkSys w [])) = mkSys w' [] /\
    pulses (trace w') = (pulses (trace w) + symbolCount (wordsOf text))%nat.
Proof.
  intros G B S.
  destruct (morse_transmission text w G B S) as (w' & E & Tr & _).
  exists w'. split; [exact E|].
  rewrite Tr, !pulses_app, pulses_morsePlan. cbn. no_pulse.
Qed.

Lemma X17_one_flash_per_symbol_witness :
  exists w',
    elapse (Z.to_nat (duration (morsePlan (wordsOf "a!"))))
      (exec (TransmitMorseWithText "a!") (mkSys (mount true) [])) = mkSys w' [] /\
    pulses (trace w') = (pulses (trace (mount true)) + symbolCount (wordsOf "a!"))%nat.
Proof.
  apply (X17_one_flash_per_symbol "a!" (mount true)); reflexivity.
Defined.
(** ** The flashlight screen: controls and effects *)

Local Open Scope Z_scope.

Arguments alerts : simpl never.

Lemma alerts_app (a b : list Event) : alerts (a ++ b) = (alerts a + alerts b)%nat.
Proof. unfold alerts. rewrite filter_app, List.length_app. reflexivity. Qed.

(** Close a goal on counts of alerts where no new event is an alert. *)
Ltac no_alert :=
  repeat match goal with
         | |- context [alerts [?e]] => change (alerts [e]) with 0%nat
         end;
  lia.

Lemma resume_no_alert (t : Task) (w : World) :
  alerts (trace (fst (resume t w))) = alerts (trace w).
Proof.
  destruct w as [g fl sm mt it cc sr mr tr].
  destruct t as [pc|pc]; destruct pc; open_async; split_cases;
    rewrite ?alerts_app; cbn; no_alert.
Qed.

Lemma fire_no_alert (ts : list (Z * Task)) :
  forall w : World, alerts (trace (firedWorld ts w)) = alerts (trace w).
Proof.
  induction ts as [|[r t] ts IH]; intro w; [reflexivity|].
  destruct (fired_cons r t ts w) as (-> & _ & _). destruct (r <=? 1).
  - rewrite IH. apply resume_no_alert.
  - apply IH.
Qed.

Lemma startSOS_no_alert (w : World) :
  granted w = true -> alerts (trace (fst (startSOS w))) = alerts (trace w).
Proof.
  destruct w as [g fl sm mt it cc sr mr tr]. cbn. intros ->.
  unfold startSOS. cbn. destruct it; cbn; rewrite ?alerts_app; cbn; no_alert.
Qed.

Lemma morseWords_no_alert (words : list (list ascii)) (w : World) :
  alerts (trace (fst (morseWords words w))) = alerts (trace w).
Proof.
  destruct w as [g fl sm mt it cc sr mr tr].
  open_async; split_cases; rewrite ?alerts_app; cbn; no_alert.
Qed.

Lemma transmit_no_alert (text : string) (w : World) :
  granted w = true -> isBlank text = false ->
  alerts (trace (fst (transmitMorseWithText text w))) = alerts (trace w).
Proof.
  intros G B. unfold transmitMorseWithText. rewrite G, B. cbn [negb].
  rewrite morseWords_no_alert.
  destruct w as [g fl sm mt it cc sr mr tr]. cbn.
  destruct sm; cbn; rewrite ?alerts_app; cbn; no_alert.
Qed.

Lemma permissionChanged_no_alert (g : bool) (sc : FlashlightScreen.Screen) :
  alerts (trace (world (FlashlightScreen.sys
                          (FlashlightScreen.permissionChanged g sc))))
  = alerts (trace (world (FlashlightScreen.sys sc))).
Proof.
  destruct sc as [[[gr fl sm mt it cc sr mr tr] ts] an pref].
  unfold FlashlightScreen.permissionChanged, FlashlightScreen.launchEffect. cbn.
  destruct (pref && g); cbn; rewrite ?alerts_app; cbn; no_alert.
Qed.

Lemma call_no_alert (c : Cmd) (sc : FlashlightScreen.Screen) :
  granted (world (FlashlightScreen.sys sc)) = true ->
  (c = TransmitMorse ->
   isBlank (morseText (world (FlashlightScreen.sys sc))) = false) ->
  (forall text, c = TransmitMorseWithText text -> isBlank text = false) ->
  alerts (trace (world (FlashlightScreen.sys (FlashlightScreen.call c sc))))
  = alerts (trace (world (FlashlightScreen.sys sc))).
Proof.
  unfold FlashlightScreen.call. cbn [FlashlightScreen.sys].
  set (s := FlashlightScreen.sys sc). intros G B Bt.
  assert (StartS : forall w' o, startSOS (world s) = (w', o) ->
            alerts (trace w') = alerts (trace (world s))).
  { intros w' o E. pose proof (startSOS_no_alert (world s) G) as H.
    rewrite E in H. exact H. }
  assert (Tx : forall text w' o, isBlank text = false ->
            transmitMorseWithText text (world s) = (w', o) ->
            alerts (trace w') = alerts (trace (world s))).
  { intros text w' o Bl E.
    pose proof (transmit_no_alert text (world s) G Bl) as H.
    rewrite E in H. exact H. }
  destruct c; cbn [exec].
  - unfold toggleFlashlight. rewrite G. cbn [negb].
    destruct (sosMode (world s) || isTransmitting (world s)); [reflexivity|].
    cbn. rewrite alerts_app. no_alert.
  - destruct (startSOS (world s)) as [w' o] eqn:E. apply (StartS w' o eq_refl).
  - cbn. rewrite alerts_app. no_alert.
  - destruct (sosMode (world s)).
    + cbn. rewrite alerts_app. no_alert.
    + destruct (startSOS (world s)) as [w' o] eqn:E. apply (StartS w' o eq_refl).
  - reflexivity.
  - unfold transmitMorse. rewrite (B eq_refl).
    destruct (transmitMorseWithText (morseText (world s)) (world s))
      as [w' o] eqn:E.
    apply (Tx _ w' o (B eq_refl) E).
  - destruct (transmitMorseWithText text (world s)) as [w' o] eqn:E.
    apply (Tx text w' o (Bt text eq_refl) E).
  - cbn. rewrite alerts_app. no_alert.
Qed.

Lemma usable_granted (c : FlashlightScreen.Control)
  (sc : FlashlightScreen.Screen) :
  FlashlightScreen.usable c sc = true ->
  (forall a, c <> FlashlightScreen.GrantPermissionButton a) ->
  granted (world (FlashlightScreen.sys sc)) = true /\
  FlashlightScreen.disabled c (world (FlashlightScreen.sys sc)) = false.
Proof.
  unfold FlashlightScreen.usable, FlashlightScreen.rendered. intros U N.
  apply andb_true_iff in U. destruct U as [R D]. apply negb_true_iff in D.
  split; [|exact D].
  destruct c; try (apply andb_true_iff in R; destruct R as [R G]);
    try (apply andb_true_iff in R; destruct R as [R G']);
    try assumption.
  exfalso. apply (N a). reflexivity.
Qed.

Lemma act_alerts (sc : FlashlightScreen.Screen) (g : FlashlightScreen.Gesture) :
  alerts (trace (world (FlashlightScreen.sys (FlashlightScreen.act sc g))))
  = (alerts (trace (world (FlashlightScreen.sys sc)))
     + if FlashlightScreen.refused sc g then 1 else 0)%nat.
Proof.
  destruct g as [|c|g|b]; cbn [FlashlightScreen.act FlashlightScreen.refused].
  - cbn [FlashlightScreen.sys]. rewrite tick_eq. cbn [world].
    rewrite fire_no_alert. lia.
  - destruct c as [a| | |text| | |].
    + assert (E : FlashlightScreen.usable
                    (FlashlightScreen.GrantPermissionButton a) sc
                  = FlashlightScreen.usable
                      (FlashlightScreen.GrantPermissionButton
                         FlashlightScreen.Denied) sc) by reflexivity.
      rewrite E.
      destruct (FlashlightScreen.usable
                  (FlashlightScreen.GrantPermissionButton
                     FlashlightScreen.Denied) sc);
        [|destruct a; lia].
      destruct a;
        cbn [FlashlightScreen.handler FlashlightScreen.handleRequestPermission].
      * rewrite permissionChanged_no_alert. lia.
      * unfold FlashlightScreen.alert. cbn [FlashlightScreen.sys world].
        cbn [log trace]. rewrite alerts_app, permissionChanged_no_alert.
        reflexivity.
      * unfold FlashlightScreen.alert. cbn [FlashlightScreen.sys world].
        cbn [log trace]. rewrite alerts_app. reflexivity.
    + destruct (FlashlightScreen.usable _ sc) eqn:U; [|lia].
      destruct (usable_granted _ sc U) as [G D]; [discriminate|].
      cbn [FlashlightScreen.handler].
      rewrite call_no_alert; [lia|exact G|discriminate|discriminate].
    + destruct (FlashlightScreen.usable _ sc) eqn:U; [|lia].
      destruct (usable_granted _ sc U) as [G D]; [discriminate|].
      cbn [FlashlightScreen.handler].
      rewrite call_no_alert; [lia|exact G|discriminate|discriminate].
    + destruct (FlashlightScreen.usable _ sc) eqn:U; [|lia].
      destruct (usable_granted _ sc U) as [G D]; [discriminate|].
      cbn [FlashlightScreen.handler].
      rewrite call_no_alert; [lia|exact G|discriminate|discriminate].
    + destruct (FlashlightScreen.usable _ sc) eqn:U; [|lia].
      destruct (usable_granted _ sc U) as [G D]; [discriminate|].
      cbn [FlashlightScreen.handler].
      rewrite call_no_alert; [lia|exact G|discriminate|].
      intros text' E. injection E as <-. reflexivity.
    + destruct (FlashlightScreen.usable _ sc) eqn:U; [|lia].
      destruct (usable_granted _ sc U) as [G D]; [discriminate|].
      cbn [FlashlightScreen.disabled] in D.
      apply orb_false_iff in D. destruct D as [D _].
      apply orb_false_iff in D. destruct D as [_ B].
      cbn [FlashlightScreen.handler].
      rewrite call_no_alert; [lia|exact G|intros _; exact B|discriminate].
    + destruct (FlashlightScreen.usable _ sc) eqn:U; [|lia].
      destruct (usable_granted _ sc U) as [G D]; [discriminate|].
      cbn [FlashlightScreen.handler].
      rewrite call_no_alert; [lia|exact G|discriminate|discriminate].
  - destruct (FlashlightScreen.answered sc); [lia|].
    rewrite permissionChanged_no_alert. lia.
  - destruct (Bool.eqb b (FlashlightScreen.launchWithFlashlightOn sc)); [lia|].
    destruct sc as [[[gr fl sm mt it cc sr mr tr] ts] an pref].
    unfold FlashlightScreen.preferenceChanged, FlashlightScreen.launchEffect. cbn.
    destruct (b && gr); cbn; rewrite ?alerts_app; cbn; no_alert.
Qed.

(** X14.  Through the controls of the screen an alert is raised only by
    the button "Grant Permission", once for every request that is denied
    or fails: whatever happens on the screen and from whatever state, the
    alerts raised are as many as the refused requests.  The other
    controls are rendered only with the permission granted and "Transmit
    Text" is disabled on a blank message, so that the "Permission
    Required" and "Empty Text" branches of toggleFlashlight, startSOS,
    transmitMorse and transmitMorseWithText are never taken. *)
Theorem X14_alerts_only_from_refused_requests
  (gestures : list FlashlightScreen.Gesture) (sc : FlashlightScreen.Screen) :
  alerts (trace (world (FlashlightScreen.sys
                          (FlashlightScreen.session sc gestures))))
  = (alerts (trace (world (FlashlightScreen.sys sc)))
     + FlashlightScreen.refusals sc gestures)%nat.
Proof.
  revert sc. induction gestures as [|g gestures IH]; intro sc.
  - cbn. lia.
  - unfold FlashlightScreen.session in *.
    cbn [fold_left FlashlightScreen.refusals].
    rewrite IH, act_alerts. lia.
Qed.

(** A resumed function switches no mode on and leaves the permission. *)
Lemma resume_modes (t : Task) (w : World) :
  granted (fst (resume t w)) = granted w /\
  (sosMode (fst (resume t w)) = true -> sosMode w = true) /\
  (isTransmitting (fst (resume t w)) = true -> isTransmitting w = true).
Proof.
  destruct w as [g fl sm mt it cc sr mr tr].
  destruct t as [pc|pc]; destruct pc; open_async; split_cases;
    repeat split; auto; discriminate.
Qed.

Lemma fire_modes (ts : list (Z * Task)) :
  forall w : World,
    granted (firedWorld ts w) = granted w /\
    (sosMode (firedWorld ts w) = true -> sosMode w = true) /\
    (isTransmitting (firedWorld ts w) = true -> isTransmitting w = true).
Proof.
  induction ts as [|[r t] ts IH]; intro w; [auto|].
  destruct (fired_cons r t ts w) as (-> & _ & _). destruct (r <=? 1).
  - destruct (resume_modes t w) as (G & S & M).
    destruct (IH (fst (resume t w))) as (G' & S' & M').
    split; [congruence|]. split; auto.
  - apply IH.
Qed.

Lemma run_snoc (s : Sys) (inputs : list Input) (i : Input) :
  run s (inputs ++ [i]) = step (run s inputs) i.
Proof. unfold run. rewrite fold_left_app. reflexivity. Qed.

(** X15.  The manual toggle is rejected while a mode is on: in a run of
    waits and calls of toggleFlashlight at the end of which SOS or a Morse
    transmission is still on, none of the calls has changed anything -
    the system is where the waits alone would have brought it. *)
Theorem X15_toggle_rejected_while_transmitting (s : Sys) (inputs : list Input) :
  granted (world s) = true ->
  Forall (fun i => i = Tick \/ i = Call ToggleFlashlight) inputs ->
  sosMode (world (run s inputs)) || isTransmitting (world (run s inputs)) = true ->
  run s inputs
  = run s (filter (fun i => match i with Tick => true | Call _ => false end) inputs).
Proof.
  intros G F.
  assert (P : granted (world (run s inputs)) = true /\
    (sosMode (world (run s inputs)) || isTransmitting (world (run s inputs)) = true ->
     run s inputs
     = run s (filter (fun i => match i with Tick => true | Call _ => false end)
                inputs))).
  { induction inputs as [|i l IH] using rev_ind; [auto|].
    apply Forall_app in F. destruct F as [Fl Fi].
    inversion Fi as [|? ? Hi _]; subst.
    destruct (IH Fl) as [Gl E]. clear IH.
    rewrite run_snoc, filter_app.
    destruct (fire_modes (timers (run s l)) (world (run s l))) as (G1 & S1 & M1).
    destruct Hi as [-> | ->]; cbn [step filter].
    - rewrite tick_eq. cbn [world]. split; [congruence|]. intro H.
      rewrite run_snoc. cbn [step]. rewrite <- E, tick_eq; [reflexivity|].
      apply orb_true_iff in H. apply orb_true_iff.
      destruct H as [H|H]; [left; apply S1, H | right; apply M1, H].
    - cbn [exec world]. unfold toggleFlashlight. rewrite Gl. cbn [negb].
      destruct (sosMode (world (run s l)) || isTransmitting (world (run s l)))
        eqn:On.
      + split; [exact Gl|]. intros _. rewrite app_nil_r, <- E by reflexivity.
        destruct (run s l). reflexivity.
      + split; [exact Gl|]. cbn. rewrite On. discriminate. }
  apply P.
Qed.

Lemma X15_toggle_rejected_while_transmitting_witness :
  run (exec StartSOS (start true)) [Tick; Call ToggleFlashlight; Tick]
  = run (exec StartSOS (start true))
      (filter (fun i => match i with Tick => true | Call _ => false end)
         [Tick; Call ToggleFlashlight; Tick]).
Proof.
  apply (X15_toggle_rejected_while_transmitting (exec StartSOS (start true))
           [Tick; Call ToggleFlashlight; Tick]).
  - reflexivity.
  - repeat (apply Forall_cons; [first [left; reflexivity | right; reflexivity]|]).
    apply Forall_nil.
  - reflexivity.
Defined.

(** *** The unmount *)

(** With both flags clear and the torch off, a resumed function leaves
    them so; a mode that is still on afterwards was on before, and its
    function is pending again. *)
Lemma resume_down (t : Task) (w : World) :
  sosActiveRef w = false -> morseActiveRef w = false ->
  isFlashlightOn w = false ->
  (sosActiveRef (fst (resume t w)) = false /\
   morseActiveRef (fst (resume t w)) = false /\
   isFlashlightOn (fst (resume t w)) = false) /\
  (sosMode (fst (resume t w)) = true ->
   sosMode w = true /\
   ((exists pc, t = SosTask pc) -> hasSos (snd (resume t w)))) /\
  (isTransmitting (fst (resume t w)) = true ->
   isTransmitting w = true /\
   ((exists pc, t = MorseTask pc) -> hasMorse (snd (resume t w)))).
Proof.
  destruct w as [g fl sm mt it cc sr mr tr]. cbn. intros -> -> ->.
  destruct t as [pc|pc]; destruct pc; open_async; split_cases;
    repeat split; try reflexivity; try discriminate;
    intros; auto; try has_task;
    match goal with H : exists _, _ = _ |- _ => destruct H; discriminate end.
Qed.

Lemma fire_down (ts : list (Z * Task)) :
  forall w : World,
    sosActiveRef w = false -> morseActiveRef w = false ->
    isFlashlightOn w = false ->
    (sosActiveRef (firedWorld ts w) = false /\
     morseActiveRef (firedWorld ts w) = false /\
     isFlashlightOn (firedWorld ts w) = false) /\
    (sosMode (firedWorld ts w) = true ->
     sosMode w = true /\
     (hasSos ts -> hasSos (stillRunning ts w ++ newlySet ts w))) /\
    (isTransmitting (firedWorld ts w) = true ->
     isTransmitting w = true /\
     (hasMorse ts -> hasMorse (stillRunning ts w ++ newlySet ts w))).
Proof.
  induction ts as [|[r t] ts IH]; intros w Sr Mr Fl.
  - cbn. split; [auto|]. split; intro; split; auto.
  - destruct (fired_cons r t ts w) as (-> & -> & ->). destruct (r <=? 1).
    + destruct (resume_down t w Sr Mr Fl) as ((Sr1 & Mr1 & Fl1) & S1 & M1).
      destruct (IH _ Sr1 Mr1 Fl1) as (D2 & S2 & M2).
      split; [exact D2|]. split.
      * intro H. destruct (S2 H) as [H1 K2]. destruct (S1 H1) as [H0 K1].
        split; [exact H0|]. intros (r0 & pc & [E|Hin]).
        -- inversion E; subst. apply hasSos_app. right.
           apply hasSos_app. left. apply K1. eauto.
        -- destruct K2 as (r1 & pc1 & K2); [exists r0, pc; exact Hin|].
           exists r1, pc1. apply in_app_or in K2. apply in_or_app.
           destruct K2 as [K2|K2]; [left; exact K2|].
           right. apply in_or_app. right. exact K2.
      * intro H. destruct (M2 H) as [H1 K2]. destruct (M1 H1) as [H0 K1].
        split; [exact H0|]. intros (r0 & pc & [E|Hin]).
        -- inversion E; subst. apply hasMorse_app. right.
           apply hasMorse_app. left. apply K1. eauto.
        -- destruct K2 as (r1 & pc1 & K2); [exists r0, pc; exact Hin|].
           exists r1, pc1. apply in_app_or in K2. apply in_or_app.
           destruct K2 as [K2|K2]; [left; exact K2|].
           right. apply in_or_app. right. exact K2.
    + destruct (IH _ Sr Mr Fl) as (D2 & S2 & M2).
      split; [exact D2|]. split.
      * intro H. destruct (S2 H) as [H1 K2]. split; [exact H1|].
        intros (r0 & pc & [E|Hin]).
        -- inversion E; subst. exists (r0 - 1), pc. left. reflexivity.
        -- apply (hasSos_cons (r - 1, t)). apply K2. exists r0, pc. exact Hin.
      * intro H. destruct (M2 H) as [H1 K2]. split; [exact H1|].
        intros (r0 & pc & [E|Hin]).
        -- inversion E; subst. exists (r0 - 1), pc. left. reflexivity.
        -- apply (hasMorse_cons (r - 1, t)). apply K2. exists r0, pc. exact Hin.
Qed.

Lemma tick_tornDown (s : Sys) :
  tornDown s ->
  tornDown (tick s) /\
  pulses (trace (world (tick s))) = pulses (trace (world s)).
Proof.
  intros ((Sr & Mr & Fl) & S & M). rewrite tick_eq.
  destruct (fire_down (timers s) (world s) Sr Mr Fl) as (D & S1 & M1).
  split.
  - split; [exact D|]. cbn [world timers]. split; intro H.
    + destruct (S1 H) as [H0 K]. apply K, S, H0.
    + destruct (M1 H) as [H0 K]. apply K, M, H0.
  - cbn [world]. clear D S1 M1 S M Fl.
    revert Sr Mr. generalize (world s). generalize (timers s).
    induction l as [|[r t] ts IH]; intros w Sr Mr; [reflexivity|].
    destruct (fired_cons r t ts w) as (-> & _ & _). destruct (r <=? 1).
    + destruct (resume_within t w Sr) as [Sr1 _].
      assert (Mr1 : morseActiveRef (fst (resume t w)) = false).
      { destruct w as [g fl sm mt it cc sr mr tr]. cbn in Sr, Mr. subst.
        destruct t as [pc|pc]; destruct pc; open_async; split_cases; reflexivity. }
      rewrite (IH _ Sr1 Mr1). apply resume_dark; assumption.
    + apply IH; assumption.
Qed.

Lemma elapse_tornDown (n : nat) :
  forall s : Sys,
    tornDown s ->
    tornDown (elapse n s) /\
    pulses (trace (world (elapse n s))) = pulses (trace (world s)).
Proof.
  induction n as [|n IH]; intros s D; [split; [exact D|reflexivity]|].
  rewrite elapse_succ. destruct (tick_tornDown s D) as [D1 P1].
  destruct (IH (tick s) D1) as [D2 P2]. split; [exact D2|congruence].
Qed.

(** X16.  The unmount cancels whatever runs, after any history of calls
    and waits: once the cleanup of the permission effect has run and only
    time passes, the torch is off at once and at every later millisecond,
    no light pulse is emitted any more, and after a bounded time every
    pending function has returned and the state is Idle - although the
    cleanup itself resets neither sosMode nor isTransmitting.  (When the
    cleanup runs because the permission changed, the launch effect runs
    after it and may switch the torch on.) *)
Theorem X16_cleanup_cancels_everything (g : bool) (inputs : list Input) :
  let s := run (start g) inputs in
  let s1 := mkSys (FlashlightScreen.cleanup (world s)) (timers s) in
  (forall n : nat,
     isFlashlightOn (world (elapse n s1)) = false /\
     pulses (trace (world (elapse n s1))) = pulses (trace (world s))) /\
  exists N : nat,
    forall n : nat, (N <= n)%nat ->
      timers (elapse n s1) = [] /\ Idle (world (elapse n s1)).
Proof.
  intros s s1.
  assert (C : Consistent s).
  { apply run_consistent. unfold Consistent, Exclusive. cbn.
    repeat split; auto; discriminate. }
  assert (W : wellTimed (timers s)) by (apply run_delays; constructor).
  assert (D : tornDown s1).
  { destruct C as (_ & S & M). subst s1. unfold tornDown. cbn. auto. }
  assert (P1 : pulses (trace (world s1)) = pulses (trace (world s))).
  { subst s1. cbn. rewrite pulses_app. no_pulse. }
  split.
  - intro n. destruct (elapse_tornDown n s1 D) as [((_ & _ & Fl) & _) P].
    split; [exact Fl|congruence].
  - destruct (wellTimed_within _ W) as [B HB].
    exists (Z.to_nat B). intros n Hn.
    assert (E : timers (elapse n s1) = []).
    { apply (all_ended B); [reflexivity|exact HB|lia]. }
    split; [exact E|].
    destruct (elapse_tornDown n s1 D) as [((Sr & Mr & _) & S & M) _].
    rewrite E in S, M. unfold Idle. repeat split; try assumption.
    + destruct (sosMode (world (elapse n s1))); [|reflexivity].
      destruct (S eq_refl) as (? & ? & []).
    + destruct (isTransmitting (world (elapse n s1))); [|reflexivity].
      destruct (M eq_refl) as (? & ? & []).
Qed.

(** *** Without the permission *)

(** X23.  Without the camera permission nothing ever lights: whatever is
    called and however long one waits, no function is left pending, the
    torch is never switched on, and the state stays Idle - the handlers
    only raise their alerts. *)
Theorem X23_no_permission_no_light (inputs : list Input) :
  let s := run (start false) inputs in
  timers s = [] /\ granted (world s) = false /\
  isFlashlightOn (world s) = false /\
  pulses (trace (world s)) = 0%nat /\ Idle (world s).
Proof.
  cbv zeta.
  assert (G : forall s,
    (timers s = [] /\ granted (world s) = false /\
     isFlashlightOn (world s) = false /\
     pulses (trace (world s)) = 0%nat /\ Idle (world s)) ->
    timers (run s inputs) = [] /\ granted (world (run s inputs)) = false /\
    isFlashlightOn (world (run s inputs)) = false /\
    pulses (trace (world (run s inputs))) = 0%nat /\
    Idle (world (run s inputs))).
  { induction inputs as [|i inputs IH]; intros s H; [exact H|].
    cbn [run fold_left]. apply IH. clear IH.
    destruct s as [[g fl sm mt it cc sr mr tr] ts]. unfold Idle in *. cbn in H.
    destruct H as (-> & -> & -> & P & -> & -> & -> & ->).
    destruct i as [|c]; [cbn; auto 10|].
    destruct c; cbn; unfold transmitMorse; cbn;
      try (destruct (isBlank mt)); try (destruct (isBlank text)); cbn;
      rewrite ?pulses_app, ?P; repeat split; try reflexivity; no_pulse. }
  apply G. unfold Idle. cbn. auto 10.
Qed.

(** *** Editing the message *)

Lemma resume_text (text : string) (t : Task) (w : World) :
  resume t (setMorseText text w)
  = (setMorseText text (fst (resume t w)), snd (resume t w)).
Proof.
  destruct w as [g fl sm mt it cc sr mr tr].
  destruct t as [pc|pc]; destruct pc; open_async; split_cases; reflexivity.
Qed.

Lemma fire_text (text : string) (ts : list (Z * Task)) :
  forall w : World,
    fire ts (setMorseText text w)
    = (setMorseText text (firedWorld ts w),
       (stillRunning ts w, newlySet ts w)).
Proof.
  induction ts as [|[r t] ts IH]; intro w; [reflexivity|].
  destruct (fired_cons r t ts w) as (-> & -> & ->).
  cbn [fire]. destruct (r <=? 1).
  - rewrite resume_text, IH. reflexivity.
  - rewrite IH. reflexivity.
Qed.

(** X24.  What is being sent does not depend on the message typed in the
    meantime: in a run of waits and changes of the text, the pending
    functions, the events and every cell but morseText are those the
    waits alone give. *)
Theorem X24_typing_does_not_disturb (s : Sys) (inputs : list Input) :
  Forall (fun i => i = Tick \/ exists text, i = Call (ChangeText text)) inputs ->
  let typed := run s inputs in
  let waited :=
    run s (filter (fun i => match i with Tick => true | Call _ => false end)
             inputs) in
  timers typed = timers waited /\
  world typed = setMorseText (morseText (world typed)) (world waited).
Proof.
  intro F. cbv zeta.
  assert (G : forall a b text,
    timers a = timers b -> world a = setMorseText text (world b) ->
    timers (run a inputs)
    = timers (run b (filter (fun i => match i with Tick => true | Call _ => false end)
                       inputs)) /\
    exists text',
      world (run a inputs)
      = setMorseText text'
          (world (run b (filter (fun i => match i with Tick => true | Call _ => false end)
                           inputs)))).
  { induction F as [|i inputs Hi _ IH]; intros a b text Ht Hw; [eauto|].
    destruct Hi as [-> | [text' ->]]; cbn [run fold_left filter step].
    - apply (IH (tick a) (tick b) text).
      + rewrite !tick_eq. cbn [timers]. rewrite Ht, Hw.
        unfold stillRunning, newlySet. rewrite fire_text. reflexivity.
      + rewrite !tick_eq. cbn [world]. rewrite Ht, Hw.
        unfold firedWorld at 1. rewrite fire_text. reflexivity.
    - apply (IH (exec (ChangeText text') a) b text'); [exact Ht|].
      cbn. rewrite Hw. reflexivity. }
  destruct (G s s (morseText (world s)) eq_refl) as [T [text' W]].
  { destruct s as [[g fl sm mt it cc sr mr tr] ts]. reflexivity. }
  split; [exact T|]. rewrite W at 1. rewrite W. reflexivity.
Qed.

Lemma X24_typing_does_not_disturb_witness :
  let s := exec StartSOS (start true) in
  let typed := run s [Tick; Call (ChangeText "abc"); Tick] in
  let waited := run s [Tick; Tick] in
  timers typed = timers waited /\
  world typed = setMorseText (morseText (world typed)) (world waited).
Proof.
  apply (X24_typing_does_not_disturb (exec StartSOS (start true))
           [Tick; Call (ChangeText "abc"); Tick]).
  repeat (apply Forall_cons; [first [left; reflexivity | right; eexists; reflexivity]|]).
  apply Forall_nil.
Defined.

(** *** One transmission after another *)

Lemma elapse_granted (n : nat) :
  forall s : Sys, granted (world (elapse n s)) = granted (world s).
Proof.
  induction n as [|n IH]; intro s; [reflexivity|].
  rewrite elapse_succ, IH, tick_eq. cbn [world].
  apply (fire_modes (timers s) (world s)).
Qed.

Lemma transmit_granted (text : string) (w : World) :
  granted (fst (transmitMorseWithText text w)) = granted w.
Proof.
  unfold transmitMorseWithText.
  destruct (negb (granted w)); [reflexivity|].
  destruct (isBlank text); [reflexivity|].
  generalize (wordsOf text). intro words.
  destruct w as [g fl sm mt it cc sr mr tr].
  destruct sm; open_async; split_cases; reflexivity.
Qed.

(** X25.  Transmissions can follow one another: once a text has been
    played to its end, a second text is played in full from there, and
    the events are the plan of the first, the final switch-off, the plan
    of the second and its switch-off; nothing of the first transmission
    is left behind. *)
Theorem X25_transmissions_in_sequence (first second : string) (w : World) :
  granted w = true -> sosMode w = false ->
  isBlank first = false -> isBlank second = false ->
  let plan1 := morsePlan (wordsOf first) in
  let plan2 := morsePlan (wordsOf second) in
  exists w',
    elapse (Z.to_nat (duration plan2))
      (exec (TransmitMorseWithText second)
         (elapse (Z.to_nat (duration plan1))
            (exec (TransmitMorseWithText first) (mkSys w [])))) = mkSys w' [] /\
    trace w'
    = trace w ++ eventsOf plan1 ++ [Torch false] ++ eventsOf plan2 ++ [Torch false] /\
    isTransmitting w' = false /\ isFlashlightOn w' = false.
Proof.
  intros G S B1 B2 plan1 plan2.
  destruct (morse_transmission first w G B1 S)
    as (w1 & E1 & Tr1 & _ & _ & _ & _ & S1 & _).
  fold plan1 in E1, Tr1.
  assert (G1 : granted w1 = true).
  { change w1 with (world (mkSys w1 [])). rewrite <- E1, elapse_granted.
    cbn [exec world].
    destruct (transmitMorseWithText first w) as [wa oa] eqn:Ea. cbn [world].
    change wa with (fst (wa, oa)). rewrite <- Ea, transmit_granted. exact G. }
  destruct (morse_transmission second w1 G1 B2 S1)
    as (w2 & E2 & Tr2 & It2 & _ & Fl2 & _).
  fold plan2 in E2, Tr2.
  exists w2. rewrite E1. split; [exact E2|]. split; [|split; assumption].
  rewrite Tr2, Tr1, <- !app_assoc. reflexivity.
Qed.

Lemma X25_transmissions_in_sequence_witness :
  exists w',
    elapse (Z.to_nat (duration (morsePlan (wordsOf "ok"))))
      (exec (TransmitMorseWithText "ok")
         (elapse (Z.to_nat (duration (morsePlan (wordsOf "sos"))))
            (exec (TransmitMorseWithText "sos") (mkSys (mount true) []))))
    = mkSys w' [] /\
    trace w'
    = trace (mount true) ++ eventsOf (morsePlan (wordsOf "sos")) ++ [Torch false]
      ++ eventsOf (morsePlan (wordsOf "ok")) ++ [Torch false] /\
    isTransmitting w' = false /\ isFlashlightOn w' = false.
Proof.
  apply (X25_transmissions_in_sequence "sos" "ok" (mount true)); reflexivity.
Defined.

(** *** Starting again after a stop *)

(** X26.  SOS can be started again cleanly once the cancelled loop has
    returned: stopped in whatever await, and started again 800 ms later
    or more, it runs a single loop, at the first flash of its cycle, with
    the mode on and the torch on. *)
Theorem X26_sos_restart_after_stop (w : World) (pc : SosPC) (r : Z) (n : nat) :
  granted w = true -> RunningSOS w ->
  1 <= r -> r <= sosSleep pc -> 800 <= Z.of_nat n ->
  let s := exec StartSOS
             (elapse n (exec StopSOS (mkSys w [(r, SosTask pc)]))) in
  timers s = [(200, SosTask (SosFlash Dots1 0))] /\
  RunningSOS (world s) /\ isFlashlightOn (world s) = true.
Proof.
  intros G (Sm & Sr & It & Mr) L U H. cbv zeta.
  set (s1 := exec StopSOS (mkSys w [(r, SosTask pc)])).
  assert (Q : Quiet (world s1)).
  { subst s1. unfold Quiet, Idle. cbn. repeat split; assumption. }
  assert (E : timers (elapse n s1) = []).
  { apply (all_ended 800); [reflexivity| |exact H].
    apply sosSleep_within; assumption. }
  destruct (elapse_quiet n s1 Q) as [[(Sm2 & It2 & Sr2 & Mr2) Fl2] _].
  pose proof (elapse_granted n s1) as G2.
  replace (granted (world s1)) with true in G2 by (subst s1; cbn; auto).
  destruct (elapse n s1) as [[g fl sm mt it cc sr mr tr] ts].
  cbn in E, Sm2, It2, Sr2, Mr2, Fl2, G2. subst.
  unfold RunningSOS. cbn. repeat split; reflexivity.
Qed.

Lemma X26_sos_restart_after_stop_witness :
  let s := exec StartSOS
             (elapse 800
                (exec StopSOS
                   (mkSys (fst (startSOS (mount true)))
                      [(150, SosTask (SosFlash Dots1 0))]))) in
  timers s = [(200, SosTask (SosFlash Dots1 0))] /\
  RunningSOS (world s) /\ isFlashlightOn (world s) = true.
Proof.
  apply (X26_sos_restart_after_stop (fst (startSOS (mount true)))
           (SosFlash Dots1 0) 150 800).
  - reflexivity.
  - unfold RunningSOS. repeat split; reflexivity.
  - apply Z.leb_le. reflexivity.
  - apply Z.leb_le. reflexivity.
  - apply Z.leb_le. reflexivity.
Defined.

Lemma restCancelled_nonneg (t : Task) : 0 <= restCancelled t.
Proof.
  destruct t as [[g i|g i|g]|[ss cs ws|ss cs ws|cs ws|ws]]; cbn;
    try destruct ss; try destruct cs; try destruct ws; cbn;
    unfold PAUSE, PAUSE_PARTS, PAUSE_LETTERS, PAUSE_WORDS, T; lia.
Qed.

(** Resumed with both flags clear, a function leaves them clear and what
    it leaves pending returns within the pauses that were to follow. *)
Lemma resume_cancelled (t : Task) (w : World) :
  sosActiveRef w = false -> morseActiveRef w = false ->
  (sosActiveRef (fst (resume t w)) = false /\
   morseActiveRef (fst (resume t w)) = false) /\
  cancelledWithin (restCancelled t) (snd (resume t w)).
Proof.
  destruct w as [g fl sm mt it cc sr mr tr]. cbn. intros -> ->.
  unfold cancelledWithin.
  destruct t as [pc|pc]; destruct pc;
    match goal with
    | |- context [restCancelled ?t] =>
        remember (restCancelled t) as B eqn:EB
    end;
    open_async; split_cases; subst;
    (split; [split; reflexivity|]);
    repeat (once constructor); cbn [fst snd restCancelled pauseIf];
    unfold PAUSE, PAUSE_PARTS, PAUSE_LETTERS, PAUSE_WORDS, T; lia.
Qed.

Lemma cancelledWithin_le (B B' : Z) (ts : list (Z * Task)) :
  B <= B' -> cancelledWithin B ts -> cancelledWithin B' ts.
Proof.
  unfold cancelledWithin. intros L H. eapply Forall_impl; [|exact H].
  cbn. intros a [? ?]. split; lia.
Qed.

Lemma fire_cancelled (ts : list (Z * Task)) :
  forall (B : Z) (w : World),
    sosActiveRef w = false -> morseActiveRef w = false ->
    cancelledWithin B ts ->
    (sosActiveRef (firedWorld ts w) = false /\
     morseActiveRef (firedWorld ts w) = false) /\
    cancelledWithin (B - 1) (stillRunning ts w ++ newlySet ts w).
Proof.
  induction ts as [|[r t] ts IH]; intros B w S M W.
  - split; [auto|]. constructor.
  - inversion W as [|? ? [R1 R2] W']; subst. cbn [fst snd] in R1, R2.
    destruct (fired_cons r t ts w) as (-> & -> & ->).
    destruct (Z.leb_spec r 1) as [L|L].
    + destruct (resume_cancelled t w S M) as [[S1 M1] W1].
      destruct (IH B _ S1 M1 W') as (D2 & W2).
      split; [exact D2|]. unfold cancelledWithin in *.
      apply Forall_app in W2. destruct W2 as [W2 W3].
      apply Forall_app. split; [exact W2|].
      apply Forall_app. split; [|exact W3].
      eapply cancelledWithin_le; [|exact W1]. lia.
    + destruct (IH B _ S M W') as (D2 & W2).
      split; [exact D2|]. unfold cancelledWithin in *. cbn [app].
      constructor; [|exact W2]. cbn [fst snd]. split; lia.
Qed.

Lemma elapse_cancelled (n : nat) :
  forall (B : Z) (s : Sys),
    sosActiveRef (world s) = false -> morseActiveRef (world s) = false ->
    cancelledWithin B (timers s) ->
    cancelledWithin (B - Z.of_nat n) (timers (elapse n s)).
Proof.
  induction n as [|n IH]; intros B s S M W.
  - cbn. eapply cancelledWithin_le; [|exact W]. lia.
  - rewrite elapse_succ, tick_eq.
    destruct (fire_cancelled (timers s) B (world s) S M W) as ([S1 M1] & W1).
    eapply cancelledWithin_le;
      [|apply (IH (B - 1)
                 (mkSys (firedWorld (timers s) (world s))
                    (stillRunning (timers s) (world s)
                     ++ newlySet (timers s) (world s))) S1 M1 W1)].
    lia.
Qed.

(** With both flags clear, every pending function has returned once the
    pauses that were to follow its sleep are over. *)
Lemma cancelled_ended (B : Z) (n : nat) (s : Sys) :
  sosActiveRef (world s) = false -> morseActiveRef (world s) = false ->
  cancelledWithin B (timers s) -> B <= Z.of_nat n ->
  timers (elapse n s) = [].
Proof.
  intros S M W L. pose proof (elapse_cancelled n B s S M W) as W'.
  destruct (timers (elapse n s)) as [|[r t] ts]; [reflexivity|].
  inversion W' as [|? ? [R1 R2] _]; subst. cbn [fst snd] in R1, R2.
  pose proof (restCancelled_nonneg t). lia.
Qed.

(** X27.  A Morse transmission can be started again cleanly once the
    cancelled one has returned: cancelled in whatever await, it returns
    after its current sleep and the pauses that then still follow it (200
    ms if symbols of the letter were left, 600 ms if letters of the word
    were left, 1400 ms if words were left); a transmission started from
    then on is played in full, and nothing of the cancelled one is
    pending or shows in its events. *)
Theorem X27_morse_restart_after_cancel (w : World) (pc : MorsePC) (r : Z)
  (n : nat) (text : string) :
  granted w = true -> RunningMorse w -> isBlank text = false ->
  1 <= r -> r + restCancelled (MorseTask pc) <= Z.of_nat n ->
  let s := elapse n (exec StopMorse (mkSys w [(r, MorseTask pc)])) in
  let plan := morsePlan (wordsOf text) in
  timers s = [] /\
  exists w',
    elapse (Z.to_nat (duration plan)) (exec (TransmitMorseWithText text) s)
    = mkSys w' [] /\
    trace w' = trace (world s) ++ eventsOf plan ++ [Torch false] /\
    isTransmitting w' = false /\ isFlashlightOn w' = false.
Proof.
  intros G (It & Mr & Sm & Sr) B L H. cbv zeta.
  set (s1 := exec StopMorse (mkSys w [(r, MorseTask pc)])).
  assert (Q : Quiet (world s1)).
  { subst s1. unfold Quiet, Idle. cbn. repeat split; assumption. }
  assert (E : timers (elapse n s1) = []).
  { apply (cancelled_ended (r + restCancelled (MorseTask pc)));
      [exact Sr|reflexivity| |exact H].
    constructor; [|constructor]. cbn [fst snd]. split; [exact L|lia]. }
  destruct (elapse_quiet n s1 Q) as [[(Sm2 & _) _] _].
  pose proof (elapse_granted n s1) as G2.
  replace (granted (world s1)) with true in G2 by (subst s1; cbn; auto).
  split; [exact E|].
  destruct (elapse n s1) as [w2 ts]. cbn [timers world] in *. subst ts.
  destruct (morse_transmission text w2 G2 B Sm2)
    as (w' & E' & Tr & It' & _ & Fl' & _).
  exists w'. auto.
Qed.

Lemma X27_morse_restart_after_cancel_witness :
  let morse := fst (transmitMorseWithText "SOS" (mount true)) in
  let pc := MorseFlash [".";"."]%char ["O";"S"]%char [] in
  let s := elapse 950 (exec StopMorse (mkSys morse [(150, MorseTask pc)])) in
  timers s = [] /\
  exists w',
    elapse (Z.to_nat (duration (morsePlan (wordsOf "ok"))))
      (exec (TransmitMorseWithText "ok") s)
    = mkSys w' [] /\
    trace w' = trace (world s) ++ eventsOf (morsePlan (wordsOf "ok")) ++ [Torch false] /\
    isTransmitting w' = false /\ isFlashlightOn w' = false.
Proof.
  apply (X27_morse_restart_after_cancel
           (fst (transmitMorseWithText "SOS" (mount true)))
           (MorseFlash [".";"."]%char ["O";"S"]%char []) 150 950 "ok").
  - reflexivity.
  - unfold RunningMorse. repeat split; reflexivity.
  - reflexivity.
  - apply Z.leb_le. reflexivity.
  - apply Z.leb_le. reflexivity.
Defined.
(** ** The preferences *)

Lemma toString_true (b : bool) :
  String.eqb (Preferences.toString b) "true" = b.
Proof. destruct b; reflexivity. Qed.

Lemma flip_stored (k : Preferences.Switch) (a : Preferences.App) :
  stored k (Preferences.flip a (k, true)).
Proof. destruct k; reflexivity. Qed.



Lemma launch_stored (k : Preferences.Switch) (a : Preferences.App) :
  stored k a ->
  Preferences.valueOf k
    (Preferences.prefs (Preferences.launch true (Preferences.items a)))
  = Preferences.valueOf k (Preferences.prefs a).
Proof.
  unfold stored, Preferences.launch, Preferences.getItems,
    Preferences.loadPreferences.
  destruct k; intro H; cbn [Preferences.prefs]; rewrite H.
  - destruct (Preferences.items a Preferences.LAUNCH_FLASHLIGHT);
      cbn; apply toString_true.
  - destruct (Preferences.items a Preferences.DARK_MODE);
      cbn; apply toString_true.
Qed.



(** X19.  When the storage fails: a save that is rejected still flips the
    switch on the screen, but the stored item stays, so that the restart
    shows the old state of a switch that agreed with its item; and a read
    that is rejected leaves both defaults, whatever is stored. *)
Theorem X19_storage_failures (k : Preferences.Switch) (a : Preferences.App) :
  stored k a ->
  let a' := Preferences.flip a (k, false) in
  Preferences.valueOf k (Preferences.prefs a')
  = negb (Preferences.valueOf k (Preferences.prefs a)) /\
  Preferences.valueOf k
    (Preferences.prefs (Preferences.launch true (Preferences.items a')))
  = Preferences.valueOf k (Preferences.prefs a) /\
  Preferences.prefs (Preferences.launch false (Preferences.items a'))
  = Preferences.initial.
Proof.
  intros H a'. split; [destruct k; reflexivity|]. split; [|reflexivity].
  replace (Preferences.items a') with (Preferences.items a)
    by (destruct k; reflexivity).
  apply launch_stored. exact H.
Qed.

Lemma X19_storage_failures_witness :
  let a := Preferences.toggleDarkMode true
             (Preferences.launch true Preferences.noItems) in
  let a' := Preferences.flip a (Preferences.DarkModeSwitch, false) in
  Preferences.valueOf Preferences.DarkModeSwitch (Preferences.prefs a')
  = negb (Preferences.valueOf Preferences.DarkModeSwitch (Preferences.prefs a)) /\
  Preferences.valueOf Preferences.DarkModeSwitch
    (Preferences.prefs (Preferences.launch true (Preferences.items a')))
  = Preferences.valueOf Preferences.DarkModeSwitch (Preferences.prefs a) /\
  Preferences.prefs (Preferences.launch false (Preferences.items a'))
  = Preferences.initial.
Proof.
  apply (X19_storage_failures Preferences.DarkModeSwitch
           (Preferences.toggleDarkMode true
              (Preferences.launch true Preferences.noItems))).
  reflexivity.
Defined.

(** X20.  The preference "launch with flashlight on" reaches the torch:
    switched on with a save that resolved, it makes the flashlight screen
    of the next start switch the torch on as soon as the permission is
    granted, and do nothing without the permission. *)
Theorem X20_launch_with_flashlight_on (a : Preferences.App) (g : bool) :
  Preferences.launchWithFlashlightOn (Preferences.prefs a) = false ->
  let a' := Preferences.toggleLaunchWithFlashlightOn true a in
  let next := Preferences.launch true (Preferences.items a') in
  let w := FlashlightScreen.launchEffect
             (Preferences.launchWithFlashlightOn (Preferences.prefs next))
             (mount g) in
  isFlashlightOn w = g /\ trace w = if g then [Torch true] else [].
Proof.
  intros H a' next w.
  assert (E : Preferences.launchWithFlashlightOn (Preferences.prefs next) = true).
  { subst next.
    change (Preferences.valueOf Preferences.LaunchFlashlightSwitch
              (Preferences.prefs (Preferences.launch true (Preferences.items a')))
            = true).
    rewrite launch_stored
      by (apply (flip_stored Preferences.LaunchFlashlightSwitch)).
    subst a'. cbn. rewrite H. reflexivity. }
  subst w. rewrite E. unfold FlashlightScreen.launchEffect.
  destruct g; split; reflexivity.
Qed.

Lemma X20_launch_with_flashlight_on_witness :
  let a' := Preferences.toggleLaunchWithFlashlightOn true
              (Preferences.launch true Preferences.noItems) in
  let next := Preferences.launch true (Preferences.items a') in
  let w := FlashlightScreen.launchEffect
             (Preferences.launchWithFlashlightOn (Preferences.prefs next))
             (mount true) in
  isFlashlightOn w = true /\ trace w = [Torch true].
Proof.
  apply (X20_launch_with_flashlight_on
           (Preferences.launch true Preferences.noItems) true).
  reflexivity.
Defined.

(** ** The feedback form *)

Lemma perform_oneAtATime (p : Settings.Page) (a : Settings.Action) :
  oneAtATime p /\
  Forall (fun body => isBlank body = false) (Settings.sent (Settings.form p)) ->
  oneAtATime (Settings.perform p a) /\
  Forall (fun body => isBlank body = false)
         (Settings.sent (Settings.form (Settings.perform p a))).
Proof.
  destruct p as [[fb ld vis msg ty snt] n]. unfold oneAtATime. cbn.
  intros [[(-> & ->)|(-> & -> & earlier & E)] F]; destruct a as [text| | |r]; cbn.
  - auto.
  - unfold Settings.handleSendFeedback. cbn.
    destruct (isBlank fb) eqn:B; cbn; [auto|]. split.
    + right. repeat split. exists snt. reflexivity.
    + apply Forall_app. split; [exact F|]. constructor; [exact B|constructor].
  - auto.
  - auto.
  - split; [right; repeat split; exists earlier; exact E | exact F].
  - split; [right; repeat split; exists earlier; exact E | exact F].
  - split; [right; repeat split; exists earlier; exact E | exact F].
  - destruct r as [|[|] [|]]; cbn; split; auto.
Qed.

Lemma performAll_oneAtATime (actions : list Settings.Action) :
  forall p : Settings.Page,
    oneAtATime p /\
    Forall (fun body => isBlank body = false) (Settings.sent (Settings.form p)) ->
    oneAtATime (Settings.performAll p actions) /\
    Forall (fun body => isBlank body = false)
           (Settings.sent (Settings.form (Settings.performAll p actions))).
Proof.
  induction actions as [|a actions IH]; intros p H; [exact H|].
  unfold Settings.performAll. cbn [fold_left].
  apply IH. apply perform_oneAtATime. exact H.
Qed.

Lemma initial_oneAtATime :
  oneAtATime (Settings.mkPage Settings.initial 0) /\
  Forall (fun body => isBlank body = false)
         (Settings.sent (Settings.form (Settings.mkPage Settings.initial 0))).
Proof. split; [left; split; reflexivity | constructor]. Qed.

(** X21.  The feedback form sends one request at a time and never a
    blank one: after any actions on the screen at most one request is
    awaited, the form is loading exactly while one is, the input then
    still holds the text that was sent, and no body sent is blank. *)
Theorem X21_one_feedback_request_at_a_time (actions : list Settings.Action) :
  let p := Settings.performAll (Settings.mkPage Settings.initial 0) actions in
  oneAtATime p /\
  Forall (fun body => isBlank body = false) (Settings.sent (Settings.form p)).
Proof.
  cbv zeta. apply performAll_oneAtATime. exact initial_oneAtATime.
Qed.

(** X22.  How a request ends, from any state the screen can be in while
    it waits: the form stops loading and the snackbar shows; on success
    (fetch resolved, ok, json read) the input is cleared; on any failure
    the input keeps the text that was sent, so that it can be sent
    again. *)
Theorem X22_feedback_reply (actions : list Settings.Action) (r : Settings.Reply) :
  let p := Settings.performAll (Settings.mkPage Settings.initial 0) actions in
  Settings.awaited p = 1%nat ->
  let f := Settings.form (Settings.perform p (Settings.Settle r)) in
  Settings.loading f = false /\ Settings.snackbarVisible f = true /\
  Settings.sent f = Settings.sent (Settings.form p) /\
  match r with
  | Settings.Response true true =>
      Settings.feedback f = ""%string /\ Settings.snackbarType f = Settings.success
  | _ =>
      Settings.snackbarType f = Settings.error /\
      exists earlier, Settings.sent f = earlier ++ [Settings.feedback f]
  end.
Proof.
  intros p A.
  destruct (performAll_oneAtATime actions _ initial_oneAtATime) as [O _].
  fold p in O. destruct O as [[O _]|(_ & L & earlier & E)]; [congruence|].
  cbn [Settings.perform]. rewrite A. cbv zeta. cbn [Settings.form].
  destruct r as [|[|] [|]]; cbn; repeat split; auto; exists earlier; exact E.
Qed.

Lemma X22_feedback_reply_witness :
  let p := Settings.performAll (Settings.mkPage Settings.initial 0)
             [Settings.ChangeFeedback "hello"; Settings.PressSend] in
  let f := Settings.form (Settings.perform p (Settings.Settle Settings.Unreachable)) in
  Settings.loading f = false /\ Settings.snackbarVisible f = true /\
  Settings.sent f = Settings.sent (Settings.form p) /\
  Settings.snackbarType f = Settings.error /\
  exists earlier, Settings.sent f = earlier ++ [Settings.feedback f].
Proof.
  apply (X22_feedback_reply
           [Settings.ChangeFeedback "hello"; Settings.PressSend]
           Settings.Unreachable).
  reflexivity.
Defined.
